(** * Alignment checker and fixer for box-drawing diagrams

    A shallow embedding of [scripts/check_alignment.py] (skill
    draw-ascii-diagrams) and the properties of its core: box scanning,
    the width / inner-alignment / floating-vertical validators and the
    three fixers.

    Conventions of the embedding:
    - a Python [str] is the list of its Unicode code points ([char := N]);
      [len] is the number of code points, as Python's [len];
    - Python integers are [Z]; indexing follows Python ([lines[-1]] is the
      last line, an index out of range raises [IndexError]);
    - exceptions are values of [result]; the fixers, which mutate the line
      buffer in place, return the buffer together with their outcome, so
      the buffer is also known when a fixer raises. *)

From stdpp Require Import base numbers option list list_numbers gmap strings.

Open Scope Z_scope.

(** ** Python strings *)

Abbreviation char := N.
Abbreviation str := (list char).

Definition len {A} (l : list A) : Z := Z.of_nat (length l).

(** Source text is UTF-8; the literals of the script are decoded to code
    points once, here. *)
Module Utf8.

Fixpoint decode (bs : list N) : list N :=
  match bs with
  | [] => []
  | b0 :: r0 =>
    if (b0 <? 128)%N then b0 :: decode r0
    else if (b0 <? 224)%N then
      match r0 with
      | b1 :: r1 => ((b0 - 192) * 64 + (b1 - 128))%N :: decode r1
      | _ => []
      end
    else if (b0 <? 240)%N then
      match r0 with
      | b1 :: b2 :: r2 =>
        ((b0 - 224) * 4096 + (b1 - 128) * 64 + (b2 - 128))%N :: decode r2
      | _ => []
      end
    else
      match r0 with
      | b1 :: b2 :: b3 :: r3 =>
        ((b0 - 240) * 262144 + (b1 - 128) * 4096 + (b2 - 128) * 64 + (b3 - 128))%N
          :: decode r3
      | _ => []
      end
  end.

Definition of_string (s : string) : str :=
  decode (Ascii.N_of_ascii <$> String.list_ascii_of_string s).

End Utf8.

Definition u8 : string → str := Utf8.of_string.

Definition SPACE : char := 32%N.

(** [str.isspace] for one code point, the set [lstrip()] and [rstrip()]
    remove when called without argument. *)
Definition is_space (c : char) : bool :=
  ((9 <=? c) && (c <=? 13) || (28 <=? c) && (c <=? 32) || (c =? 133) || (c =? 160)
   || (c =? 5760) || (8192 <=? c) && (c <=? 8202) || (c =? 8232) || (c =? 8233)
   || (c =? 8239) || (c =? 8287) || (c =? 12288))%N.

Fixpoint lstrip (s : str) : str :=
  match s with
  | c :: r => if is_space c then lstrip r else s
  | [] => []
  end.

Definition rstrip (s : str) : str := rev (lstrip (rev s)).

(** [' ' * n]: empty when [n <= 0]. *)
Definition spaces (n : Z) : str := replicate (Z.to_nat n) SPACE.

(** [s[1:]], [s[1:-1]], [s[a:b]] (for [0 <= a], [0 <= b]), [s[a:]], [s[:b]]. *)
Definition slice_from1 {A} (s : list A) : list A := drop 1 s.
Definition slice_inner {A} (s : list A) : list A := removelast (drop 1 s).
Definition slice {A} (s : list A) (a b : Z) : list A :=
  take (Z.to_nat b - Z.to_nat a)%nat (drop (Z.to_nat a) s).
Definition slice_from {A} (s : list A) (a : Z) : list A := drop (Z.to_nat a) s.
Definition slice_to {A} (s : list A) (b : Z) : list A := take (Z.to_nat b) s.

(** [enumerate(s)] *)
Definition enumerate {A} (s : list A) : list (Z * A) :=
  imap (λ i x, (Z.of_nat i, x)) s.

(** ** Exceptions, indexing, ranges *)

Inductive exn := IndexError | ValueError.

Inductive result (A : Type) : Type :=
  | Ok (a : A)
  | Raise (e : exn).
Arguments Ok {A} a.
Arguments Raise {A} e.

#[global] Instance result_ret : MRet result := λ A a, Ok a.
#[global] Instance result_bind : MBind result := λ A B f m,
  match m with Ok a => f a | Raise e => Raise e end.

(** Position of [l[i]] in a sequence of length [n], Python style. *)
Definition py_index (n i : Z) : option nat :=
  let j := if decide (i < 0) then i + n else i in
  if decide (0 ≤ j < n) then Some (Z.to_nat j) else None.

Definition py_getitem {A} (l : list A) (i : Z) : result A :=
  match py_index (len l) i ≫= (l !!.) with
  | Some x => Ok x
  | None => Raise IndexError
  end.

Definition py_setitem {A} (l : list A) (i : Z) (x : A) : result (list A) :=
  match py_index (len l) i with
  | Some j => Ok (<[j:=x]> l)
  | None => Raise IndexError
  end.

(** [range(a, b)] and [range(a, b, -1)]. *)
Definition py_range (a b : Z) : list Z := seqZ a (b - a).
Definition py_range_down (a b : Z) : list Z := (λ k, a - k) <$> seqZ 0 (a - b).

(** [max(l, default=d)] and [max(l)]. *)
Definition py_max_default (l : list Z) (d : Z) : Z :=
  match l with
  | [] => d
  | x :: r => foldl Z.max x r
  end.

Definition py_max (l : list Z) : result Z :=
  match l with
  | [] => Raise ValueError
  | x :: r => Ok (foldl Z.max x r)
  end.

(** A [for] loop whose body may raise. *)
Fixpoint for_each {S A} (body : S → A → result S) (st : S) (l : list A) : result S :=
  match l with
  | [] => Ok st
  | x :: r => st' ← body st x; for_each body st' r
  end.

(** ** Glyph sets *)

Definition BORDER_CHARS : list char := Eval vm_compute in u8 "│┌┐└┘├┤┬┴┼▼▲◄►".
Definition LEFT_BORDER : list char := Eval vm_compute in u8 "│├┌└".
Definition RIGHT_BORDER : list char := Eval vm_compute in u8 "│┤┐┘".

Definition TOP_LEFT : list char := Eval vm_compute in u8 "┌╔".
Definition BOTTOM_LEFT : list char := Eval vm_compute in u8 "└╚".

(** [s.startswith((p1, p2))] for one-character prefixes. *)
Definition startswith (s : str) (prefixes : list char) : bool :=
  match s with
  | c :: _ => bool_decide (c ∈ prefixes)
  | [] => false
  end.

(** ** Boxes: [find_boxes] *)

(** The dict built by [find_boxes]; ['end'] is set when the box is closed. *)
Record Box := mkBox {
  box_start : Z;
  box_width : Z;
  box_lines : list (Z * str);
  box_end : option Z
}.

(** Loop state: [boxes] and [current_box]. The flag [in_box] of the script
    is [True] exactly while [current_box] is not [None], so the pair is the
    one option. *)
Abbreviation scan_state := (list Box * option Box)%type.

Definition find_boxes_step (lines : list str) (st : scan_state) (i : Z)
    : result scan_state :=
  line ← py_getitem lines i;
  let actual_line := i + 1 in
  let stripped := lstrip line in
  let '(boxes, current_box) := st in
  match current_box with
  | None =>
    if startswith stripped TOP_LEFT
    then Ok (boxes, Some (mkBox actual_line (len line) [(actual_line, line)] None))
    else Ok st
  | Some cb =>
    if startswith stripped BOTTOM_LEFT
    then Ok (boxes ++ [mkBox (box_start cb) (box_width cb)
                             (box_lines cb ++ [(actual_line, line)])
                             (Some actual_line)], None)
    else Ok (boxes, Some (mkBox (box_start cb) (box_width cb)
                                (box_lines cb ++ [(actual_line, line)])
                                (box_end cb)))
  end.

Definition find_boxes (lines : list str) (start_line end_line : Z)
    : result (list Box) :=
  st ← for_each (find_boxes_step lines) ([], None)
        (py_range (start_line - 1) (Z.min end_line (len lines)));
  Ok st.1.

(** ** Outer width: [check_outer_width] *)

(** [max((i for i, ch in enumerate(txt) if ch in RIGHT_BORDER), default=-1)] *)
Definition right_border_indices (txt : str) : list Z :=
  fst <$> filter (λ p, p.2 ∈ RIGHT_BORDER) (enumerate txt).

Definition rightmost_border (txt : str) : Z :=
  py_max_default (right_border_indices txt) (-1).

(** The width measured on one line: [r_idx + 1 if r_idx != -1 else
    len(txt.rstrip())]. *)
Definition line_width (txt : str) : Z :=
  let r_idx := rightmost_border txt in
  if decide (r_idx ≠ -1) then r_idx + 1 else len (rstrip txt).

Abbreviation WidthError := (Z * Z * Z * str)%type.

(** The expected width, from the first line of the box. *)
Definition expected_width (first_ln_txt : str) : Z :=
  let right_idx := rightmost_border first_ln_txt in
  if decide (right_idx = -1) then len first_ln_txt else right_idx + 1.

Definition check_outer_width (box : Box) : result (list WidthError) :=
  first ← py_getitem (box_lines box) 0;
  let first_ln_txt := first.2 in
  let expected := expected_width first_ln_txt in
  Ok (omap (λ '(ln, txt),
        let w := line_width txt in
        if decide (w ≠ expected) then Some (ln, w, expected, txt) else None)
      (box_lines box)).

(** ** Outer width: [fix_outer_width] *)

(** The body of the loop for one box line: [None] where the script
    [continue]s, otherwise the rewritten line. *)
Definition fix_width_line (target_width : Z) (txt : str) : option str :=
  let cur := len txt in
  if decide (cur = target_width) then None else
  let stripped := lstrip txt in
  let leading_spaces := len txt - len stripped in
  match stripped with
  | [] => None
  | c0 :: _ =>
    if decide (c0 ∉ LEFT_BORDER) then None else
    match last (rstrip stripped) with
    | None => None
    | Some last_char =>
      if decide (last_char ∉ RIGHT_BORDER) then None else
      let inner := slice_inner stripped in
      let off := target_width - cur in
      if decide (off > 0) then
        Some (spaces leading_spaces ++ [c0] ++ inner ++ spaces off ++ [last_char])
      else
        let inner_stripped := rstrip inner in
        let sp := len inner - len inner_stripped in
        let new_spaces := Z.max 0 (sp + off) in
        Some (spaces leading_spaces ++ [c0] ++ inner_stripped
                ++ spaces new_spaces ++ [last_char])
    end
  end.

(** The mutable buffer is threaded through the loop; a raise keeps the
    buffer as it is at that point. *)
Fixpoint fix_outer_width_loop (target_width : Z) (bl : list (Z * str))
    (lines : list str) (fixes : Z) : list str * result Z :=
  match bl with
  | [] => (lines, Ok fixes)
  | (ln, txt) :: rest =>
    let idx := ln - 1 in
    match fix_width_line target_width txt with
    | None => fix_outer_width_loop target_width rest lines fixes
    | Some new_line =>
      match py_setitem lines idx new_line with
      | Ok lines' => fix_outer_width_loop target_width rest lines' (fixes + 1)
      | Raise e => (lines, Raise e)
      end
    end
  end.

Definition fix_outer_width (lines : list str) (box : Box) (target_width : option Z)
    : list str * result Z :=
  let target_width := default (box_width box) target_width in
  fix_outer_width_loop target_width (box_lines box) lines 0.

(** [box['lines'] = [(ln, all_lines[ln - 1]) for ln, _ in box['lines']]],
    the re-reading of a box from the buffer done by [main] between fixers. *)
Definition reread_box (all_lines : list str) (box : Box) : result Box :=
  ls ← for_each (λ acc '(ln, _), txt ← py_getitem all_lines (ln - 1); Ok (acc ++ [(ln, txt)]))
        [] (box_lines box);
  Ok (mkBox (box_start box) (box_width box) ls (box_end box)).

(** ** Inner boxes: [find_inner_box_groups], [get_border_positions] *)

Definition TOP_CORNER : char := Eval vm_compute in default 0%N (head (u8 "┌")).
Definition BOTTOM_CORNER : char := Eval vm_compute in default 0%N (head (u8 "└")).
Definition VERT_CHARS : list char := Eval vm_compute in u8 "│▼▲◄►v^".

Abbreviation Group := (list (Z * str)).

(** Loop state: [groups], [current_group], [in_inner]. *)
Abbreviation group_state := (list Group * Group * bool)%type.

Definition find_inner_step (st : group_state) (l : Z * str) : group_state :=
  let '(groups, current_group, in_inner) := st in
  let '(ln, txt) := l in
  let inner :=
    match txt with
    | c :: _ => if decide (c ∈ LEFT_BORDER) then slice_from1 txt else txt
    | [] => txt
    end in
  let has_top := bool_decide (TOP_CORNER ∈ inner) in
  let has_bottom := bool_decide (BOTTOM_CORNER ∈ inner) in
  let has_vert := existsb (λ c, bool_decide (c ∈ inner)) VERT_CHARS in
  if has_top then (groups, [(ln, txt)], true)
  else if has_bottom && in_inner then
    (groups ++ [current_group ++ [(ln, txt)]], [], false)
  else if in_inner && has_vert then (groups, current_group ++ [(ln, txt)], in_inner)
  else st.

Definition find_inner_box_groups (box : Box) : list Group :=
  let content := slice_inner (box_lines box) in
  match content with
  | [] => []
  | _ => (foldl find_inner_step ([], [], false) content).1.1
  end.

(** [[(i, ch) for i, ch in enumerate(line) if ch in BORDER_CHARS]] *)
Definition border_cells (line : str) : list (Z * char) :=
  filter (λ p, p.2 ∈ BORDER_CHARS) (enumerate line).

Definition get_border_positions (line : str) (inner_only : bool) : list (Z * char) :=
  match line with
  | [] => []
  | _ =>
    let positions := border_cells line in
    if inner_only && bool_decide (2 ≤ len positions) then
      match head positions, last positions with
      | Some p0, Some pl =>
        if bool_decide (p0.2 ∈ LEFT_BORDER) && bool_decide (pl.2 ∈ RIGHT_BORDER)
        then slice_inner positions
        else positions
      | _, _ => positions
      end
    else positions
  end.

(** ** Inner boxes: [check_inner_alignment] *)

(** [(ln, actual column, expected column, reference line, txt)] *)
Abbreviation AlignError := (Z * Z * Z * Z * str)%type.

(** The body of the loop over [group[1:]]. *)
Definition check_member (ref_ln : Z) (ref_cols : list Z) (m : Z * str)
    : option AlignError :=
  let '(ln, txt) := m in
  let cur_cols := (get_border_positions txt true).*1 in
  if decide (len cur_cols = len ref_cols) then
    '(_, (rc, cc)) ← list_find (λ p, p.1 ≠ p.2) (zip ref_cols cur_cols);
    Some (ln, cc, rc, ref_ln, txt)
  else
    match head cur_cols, last cur_cols, head ref_cols, last ref_cols with
    | Some c0, Some cl, Some r0, Some rl =>
      if decide (c0 ≠ r0 ∨ cl ≠ rl) then Some (ln, cl, rl, ref_ln, txt) else None
    | _, _, _, _ => None
    end.

Definition check_group (group : Group) : list AlignError :=
  if decide (len group < 2) then [] else
  match group with
  | (ref_ln, ref_txt) :: members =>
    let ref_cols := (get_border_positions ref_txt true).*1 in
    omap (check_member ref_ln ref_cols) members
  | [] => []
  end.

Definition check_inner_alignment (box : Box) : list AlignError :=
  find_inner_box_groups box ≫= check_group.

(** ** Inner boxes: [fix_inner_alignment] *)

(** The loop that cuts a line at its glyphs: for each glyph at [cur_p], to
    be moved to [tgt_p], the text between the previous glyph and this one.
    Returns the segments and the final [prev_end]. *)
Fixpoint build_segments (txt : str) (prev_end : Z) (moves : list (Z * Z * char))
    : list (Z * char * str) * Z :=
  match moves with
  | [] => ([], prev_end)
  | (cur_p, tgt_p, ch) :: rest =>
    let content := slice txt prev_end cur_p in
    let '(segments, e) := build_segments txt (cur_p + 1) rest in
    ((tgt_p, ch, content) :: segments, e)
  end.

(** The loop that rebuilds the line: each segment is padded, or
    right-trimmed and padded, so that its glyph lands on [tgt_p]. *)
Fixpoint place_segments (pos : Z) (segments : list (Z * char * str)) : str :=
  match segments with
  | [] => []
  | (tgt_p, ch, content) :: rest =>
    let needed := tgt_p - pos in
    let content :=
      if decide (needed > len content) then content ++ spaces (needed - len content)
      else if decide (needed < len content) then
        let trimmed := rstrip content in
        trimmed ++ spaces (Z.max 0 (needed - len trimmed))
      else content in
    content ++ [ch] ++ place_segments (tgt_p + 1) rest
  end.

(** The adjustment to the box width after the glyphs are placed;
    [max(i for i, c in enumerate(rebuilt) if c in RIGHT_BORDER)] has no
    default. *)
Definition fit_to_width (target_width : Z) (rebuilt : str) : result str :=
  if decide (len rebuilt < target_width) then
    last_border_idx ← py_max (right_border_indices rebuilt);
    let before := slice_to rebuilt last_border_idx in
    let after := slice_from rebuilt last_border_idx in
    let pad := target_width - len rebuilt in
    Ok (before ++ spaces pad ++ after)
  else if decide (len rebuilt > target_width) then
    last_border_idx ← py_max (right_border_indices rebuilt);
    let before := rstrip (slice_to rebuilt last_border_idx) in
    let after := slice_from rebuilt last_border_idx in
    let needed_spaces := target_width - len before - len after in
    Ok (before ++ spaces (Z.max 0 needed_spaces) ++ after)
  else Ok rebuilt.

(** The body of the loop over [group[1:]]: [Ok None] where the script
    [continue]s, [Ok (Some rebuilt)] where it stores [rebuilt]. *)
Definition realign_member (target_width : Z) (ref_txt : str) (ref_cols : list Z)
    (txt : str) : result (option str) :=
  let cur_cols := (get_border_positions txt true).*1 in
  if decide (len cur_cols ≠ len ref_cols) then Ok None else
  let needs_fix := existsb (λ p, bool_decide (p.1 ≠ p.2)) (zip ref_cols cur_cols) in
  if negb needs_fix then Ok None else
  let all_cur := border_cells txt in
  let all_ref_line := border_cells ref_txt in
  if decide (len all_cur ≠ len all_ref_line) then Ok None else
  let '(segments, prev_end) :=
    build_segments txt 0
      ((λ '((cur_p, cur_ch), (ref_p, ref_ch)), (cur_p, ref_p, cur_ch))
         <$> zip all_cur all_ref_line) in
  let trailing := slice_from txt prev_end in
  let rebuilt := place_segments 0 segments ++ trailing in
  rebuilt ← fit_to_width target_width rebuilt;
  Ok (Some rebuilt).

Fixpoint fix_inner_members (target_width : Z) (ref_txt : str) (ref_cols : list Z)
    (members : list (Z * str)) (lines : list str) (fixes : Z)
    : list str * result Z :=
  match members with
  | [] => (lines, Ok fixes)
  | (ln, txt) :: rest =>
    let idx := ln - 1 in
    match realign_member target_width ref_txt ref_cols txt with
    | Raise e => (lines, Raise e)
    | Ok None => fix_inner_members target_width ref_txt ref_cols rest lines fixes
    | Ok (Some rebuilt) =>
      match py_setitem lines idx rebuilt with
      | Ok lines' =>
        fix_inner_members target_width ref_txt ref_cols rest lines' (fixes + 1)
      | Raise e => (lines, Raise e)
      end
    end
  end.

Fixpoint fix_inner_groups (target_width : Z) (groups : list Group)
    (lines : list str) (fixes : Z) : list str * result Z :=
  match groups with
  | [] => (lines, Ok fixes)
  | group :: rest =>
    if decide (len group < 2) then fix_inner_groups target_width rest lines fixes else
    match group with
    | [] => fix_inner_groups target_width rest lines fixes
    | (ref_ln, ref_txt) :: members =>
      let ref_cols := (get_border_positions ref_txt true).*1 in
      match ref_cols with
      | [] => fix_inner_groups target_width rest lines fixes
      | _ =>
        match fix_inner_members target_width ref_txt ref_cols members lines fixes with
        | (lines', Ok fixes') => fix_inner_groups target_width rest lines' fixes'
        | (lines', Raise e) => (lines', Raise e)
        end
      end
    end
  end.

Definition fix_inner_alignment (lines : list str) (box : Box) : list str * result Z :=
  let groups := find_inner_box_groups box in
  let target_width := box_width box in
  fix_inner_groups target_width groups lines 0.

(** ** Floating verticals: [get_closest_anchor] *)

Definition SEARCH_CHARS : list char := Eval vm_compute in u8 "┬┴┼┌┐└┘".
Definition FLOATING_CHARS : list char := Eval vm_compute in u8 "│▼▲".

(** [line[c]] for an index the enclosing [range] keeps within the line. *)
Definition char_at (line : str) (c : Z) : char := default 0%N (line !! Z.to_nat c).

(** [for c in range(max(0, col - 3), min(len(line), col + 4)):
       if line[c] in chars: return c] *)
Definition scan_cols (chars : list char) (line : str) (col : Z) : option Z :=
  snd <$> list_find (λ c, char_at line c ∈ chars)
            (py_range (Z.max 0 (col - 3)) (Z.min (len line) (col + 4))).

(** [for r in rows: line = lines[r]; ... return r, c], [None] when the loop
    runs to its end. *)
Fixpoint scan_rows (chars : list char) (lines : list str) (col : Z) (rows : list Z)
    : result (option (Z * Z)) :=
  match rows with
  | [] => Ok None
  | r :: rest =>
    line ← py_getitem lines r;
    match scan_cols chars line col with
    | Some c => Ok (Some (r, c))
    | None => scan_rows chars lines col rest
    end
  end.

(** The fallback loop, over [[ln_idx - 1, ln_idx + 1]] with its bounds test. *)
Definition fallback_rows (lines : list str) (ln_idx : Z) : list Z :=
  filter (λ r, 0 ≤ r < len lines) [ln_idx - 1; ln_idx + 1].

Definition get_closest_anchor (lines : list str) (ln_idx col : Z)
    : result (option (Z * Z)) :=
  up ← scan_rows SEARCH_CHARS lines col
         (py_range_down (ln_idx - 1) (Z.max (-1) (ln_idx - 15)));
  match up with
  | Some a => Ok (Some a)
  | None =>
    down ← scan_rows SEARCH_CHARS lines col
             (py_range (ln_idx + 1) (Z.min (len lines) (ln_idx + 15)));
    match down with
    | Some a => Ok (Some a)
    | None => scan_rows FLOATING_CHARS lines col (fallback_rows lines ln_idx)
    end
  end.

(** ** Floating verticals: [check_floating_verticals] *)

Definition in_box_indices (boxes : list Box) : gset Z :=
  list_to_set (boxes ≫= λ b, (λ p, p.1 - 1) <$> box_lines b).

(** The inner loop over [enumerate(line)]: the glyphs whose anchor column
    differs from their own, as [(c, ch, anchor_r, anchor_c)]. *)
Fixpoint misplaced_glyphs (lines : list str) (i : Z) (cells : list (Z * char))
    : result (list (Z * char * Z * Z)) :=
  match cells with
  | [] => Ok []
  | (c, ch) :: rest =>
    if decide (ch ∈ FLOATING_CHARS) then
      a ← get_closest_anchor lines i c;
      more ← misplaced_glyphs lines i rest;
      match a with
      | Some (anchor_r, anchor_c) =>
        if decide (anchor_c ≠ c) then Ok ((c, ch, anchor_r, anchor_c) :: more)
        else Ok more
      | None => Ok more
      end
    else misplaced_glyphs lines i rest
  end.

Definition check_floating_step (lines : list str) (skip : gset Z)
    (errors : list AlignError) (i : Z) : result (list AlignError) :=
  if decide (i ∈ skip) then Ok errors else
  line ← py_getitem lines i;
  found ← misplaced_glyphs lines i (enumerate line);
  Ok (errors ++ ((λ '(c, ch, anchor_r, anchor_c), (i + 1, c, anchor_c, anchor_r + 1, line))
                    <$> found)).

Definition check_floating_verticals (lines : list str) (boxes : list Box)
    (start_line end_line : Z) : result (list AlignError) :=
  for_each (check_floating_step lines (in_box_indices boxes)) []
    (py_range (start_line - 1) (Z.min end_line (len lines))).

(** ** Floating verticals: [fix_floating_verticals] *)

(** [targets]: every floating glyph of the line with its anchor column, or
    its own column when it has no anchor. *)
Fixpoint floating_targets (lines : list str) (i : Z) (all_cur : list (Z * char))
    : result (list (Z * char)) :=
  match all_cur with
  | [] => Ok []
  | (p, ch) :: rest =>
    a ← get_closest_anchor lines i p;
    more ← floating_targets lines i rest;
    match a with
    | Some (_, anchor_c) => Ok ((anchor_c, ch) :: more)
    | None => Ok ((p, ch) :: more)
    end
  end.

Definition fix_floating_step (st : list str * Z) (skip : gset Z) (i : Z)
    : list str * result Z :=
  let '(lines, fixes) := st in
  if decide (i ∈ skip) then (lines, Ok fixes) else
  match py_getitem lines i with
  | Raise e => (lines, Raise e)
  | Ok line =>
    match misplaced_glyphs lines i (enumerate line) with
    | Raise e => (lines, Raise e)
    | Ok [] => (lines, Ok fixes)
    | Ok _ =>
      let all_cur := filter (λ p, p.2 ∈ FLOATING_CHARS) (enumerate line) in
      match floating_targets lines i all_cur with
      | Raise e => (lines, Raise e)
      | Ok targets =>
        let '(segments, prev_end) :=
          build_segments line 0
            ((λ '((cur_p, cur_ch), (tgt_p, tgt_ch)), (cur_p, tgt_p, tgt_ch))
               <$> zip all_cur targets) in
        let trailing := slice_from line prev_end in
        let rebuilt := place_segments 0 segments ++ trailing in
        match py_setitem lines i rebuilt with
        | Ok lines' => (lines', Ok (fixes + 1))
        | Raise e => (lines, Raise e)
        end
      end
    end
  end.

Fixpoint fix_floating_loop (skip : gset Z) (rows : list Z) (lines : list str)
    (fixes : Z) : list str * result Z :=
  match rows with
  | [] => (lines, Ok fixes)
  | i :: rest =>
    match fix_floating_step (lines, fixes) skip i with
    | (lines', Ok fixes') => fix_floating_loop skip rest lines' fixes'
    | (lines', Raise e) => (lines', Raise e)
    end
  end.

Definition fix_floating_verticals (lines : list str) (boxes : list Box)
    (start_line end_line : Z) : list str * result Z :=
  fix_floating_loop (in_box_indices boxes)
    (py_range (start_line - 1) (Z.min end_line (len lines))) lines 0.

(** ** The fix pass of [main] *)

(** The body of [for box in boxes] under [if args.fix and total_errors > 0],
    without its printing: [fix_inner_alignment], the lines of the box read
    again from the buffer, [fix_outer_width]. The result holds the two
    counts added and the box as updated. *)
Definition fix_box (all_lines : list str) (box : Box) : list str * result (Z * Box) :=
  match fix_inner_alignment all_lines box with
  | (lines1, Raise e) => (lines1, Raise e)
  | (lines1, Ok n1) =>
    match reread_box lines1 box with
    | Raise e => (lines1, Raise e)
    | Ok box' =>
      match fix_outer_width lines1 box' None with
      | (lines2, Ok n2) => (lines2, Ok (n1 + n2, box'))
      | (lines2, Raise e) => (lines2, Raise e)
      end
    end
  end.

Fixpoint fix_boxes (boxes : list Box) (all_lines : list str) (total_fixes : Z)
    : list str * result (Z * list Box) :=
  match boxes with
  | [] => (all_lines, Ok (total_fixes, []))
  | box :: rest =>
    match fix_box all_lines box with
    | (lines', Ok (n, box')) =>
      match fix_boxes rest lines' (total_fixes + n) with
      | (lines'', Ok (total, rest')) => (lines'', Ok (total, box' :: rest'))
      | (lines'', Raise e) => (lines'', Raise e)
      end
    | (lines', Raise e) => (lines', Raise e)
    end
  end.

(** The loop over the boxes, then [fix_floating_verticals] with the boxes
    as the loop leaves them; the result is the buffer and [total_fixes]. *)
Definition fix_pass (all_lines : list str) (boxes : list Box) (start_line end_line : Z)
    : list str * result Z :=
  match fix_boxes boxes all_lines 0 with
  | (lines', Ok (total, boxes')) =>
    match fix_floating_verticals lines' boxes' start_line end_line with
    | (lines'', Ok n) => (lines'', Ok (total + n))
    | (lines'', Raise e) => (lines'', Raise e)
    end
  | (lines', Raise e) => (lines', Raise e)
  end.

(** * Vocabulary of the properties *)

(** The line at index [j] of the buffer, for an index within the buffer. *)
Definition line_at (lines : list str) (j : Z) : str := default [] (lines !! Z.to_nat j).

(** ** Scanned boxes *)

(** Lines [lo + 1] to [hi] of the buffer with their numbers, as
    [find_boxes] records them. *)
Definition numbered (lines : list str) (lo hi : Z) : list (Z * str) :=
  (λ j, (j + 1, line_at lines j)) <$> seqZ lo (hi - lo).

(** The box holds exactly the buffer lines [lo + 1] to [hi], and its width
    is the raw length of the first of them. *)
Definition box_spans (lines : list str) (b : Box) (lo hi : Z) : Prop :=
  0 ≤ lo < hi ∧ hi ≤ len lines ∧ box_start b = lo + 1
  ∧ box_width b = len (line_at lines lo)
  ∧ box_lines b = numbered lines lo hi.

(** Invariant of the loop of [find_boxes], started at index [a], before
    it reads index [k]. *)
Definition scan_inv (lines : list str) (a k : Z) (st : scan_state) : Prop :=
  Forall (λ b, ∃ lo hi, box_spans lines b lo hi ∧ a ≤ lo ∧ hi ≤ k) st.1
  ∧ match st.2 with
    | None => True
    | Some cb => ∃ lo, box_spans lines cb lo k ∧ a ≤ lo
    end.

(** ** Outer width *)

(** Optional leading whitespace, a left-border glyph, interior content, a
    right-border glyph. *)
Definition border_pattern (txt : str) : bool :=
  match lstrip txt with
  | l :: rest =>
    bool_decide (l ∈ LEFT_BORDER)
    && match last rest with
       | Some r => bool_decide (r ∈ RIGHT_BORDER)
       | None => false
       end
  | [] => false
  end.

(** Number of whitespace characters that end the interior of a line. *)
Definition trailing_room (txt : str) : Z :=
  let inner := slice_inner (lstrip txt) in
  len inner - len (rstrip inner).

(** [fix_outer_width], then the box read again from the buffer, then
    [check_outer_width]. *)
Definition width_errors_after_fix (lines : list str) (box : Box)
    : result (list WidthError) :=
  let '(lines', fixed) := fix_outer_width lines box None in
  _ ← fixed;
  box' ← reread_box lines' box;
  check_outer_width box'.

(** ** Inner alignment *)

(** The border glyphs of a line, in order, without their columns. *)
Definition border_glyphs (line : str) : list char := filter (λ c, c ∈ BORDER_CHARS) line.

(** The full ordered list of border-glyph columns of a line. *)
Definition border_columns (line : str) : list Z := (border_cells line).*1.

(** The line holds at least two border glyphs, the first of them is a
    left-border glyph and the last of them a right-border glyph. *)
Definition outer_pair (line : str) : bool :=
  let glyphs := border_glyphs line in
  bool_decide (2 ≤ len glyphs)
  && match head glyphs, last glyphs with
     | Some l, Some r => bool_decide (l ∈ LEFT_BORDER) && bool_decide (r ∈ RIGHT_BORDER)
     | _, _ => false
     end.

(** The line itself begins with a left-border glyph and ends with a
    right-border glyph. *)
Definition begins_and_ends (line : str) : bool :=
  match head line, last line with
  | Some l, Some r => bool_decide (l ∈ LEFT_BORDER) && bool_decide (r ∈ RIGHT_BORDER)
  | _, _ => false
  end.

(** The line number of an alignment error. *)
Definition err_line (e : AlignError) : Z := e.1.1.1.1.

(** ** Floating verticals *)

(** The glyph at row [r], column [k] exists, lies within three columns of
    [col] and belongs to [chars]. *)
Definition hit (chars : list char) (lines : list str) (col r k : Z) : Prop :=
  0 ≤ r < len lines
  ∧ 0 ≤ k < len (line_at lines r) ∧ col - 3 ≤ k ≤ col + 3
  ∧ char_at (line_at lines r) k ∈ chars.

(** A junction glyph in the upward window of row [i], column [col]: rows
    [i - 1] down to [i - 14], columns [col - 3] to [col + 3]. *)
Definition up_hit (lines : list str) (i col r k : Z) : Prop :=
  i - 14 ≤ r ≤ i - 1 ∧ hit SEARCH_CHARS lines col r k.

(** A junction glyph in the downward window: rows [i + 1] to [i + 14]. *)
Definition down_hit (lines : list str) (i col r k : Z) : Prop :=
  i + 1 ≤ r ≤ i + 14 ∧ hit SEARCH_CHARS lines col r k.

(** The order of the anchor search for a glyph at row [i], column [col]:
    - a junction in the upward window: the anchor is the one met first,
      nearer rows first and columns left to right, and it is the same
      whatever the buffer holds from row [i] on;
    - none upward, one downward: the anchor is the one met first in the
      downward window, nearer rows first and columns left to right;
    - none in either window: the answer is that of the neighbour
      fallback. *)
Definition anchor_search_order (lines : list str) (i col : Z) : Prop :=
  ((∃ r k, up_hit lines i col r k) →
     ∃ r0 k0, get_closest_anchor lines i col = Ok (Some (r0, k0))
       ∧ up_hit lines i col r0 k0
       ∧ (∀ r k, up_hit lines i col r k → r < r0 ∨ (r = r0 ∧ k0 ≤ k))
       ∧ ∀ lines2 : list str, take (Z.to_nat i) lines2 = take (Z.to_nat i) lines →
           get_closest_anchor lines2 i col = Ok (Some (r0, k0)))
  ∧ ((∀ r k, ¬ up_hit lines i col r k) → (∃ r k, down_hit lines i col r k) →
       ∃ r0 k0, get_closest_anchor lines i col = Ok (Some (r0, k0))
         ∧ down_hit lines i col r0 k0
         ∧ ∀ r k, down_hit lines i col r k → r0 < r ∨ (r = r0 ∧ k0 ≤ k))
  ∧ ((∀ r k, ¬ up_hit lines i col r k) → (∀ r k, ¬ down_hit lines i col r k) →
       get_closest_anchor lines i col
       = scan_rows FLOATING_CHARS lines col (fallback_rows lines i)).

(** An error of [check_floating_verticals]: a floating glyph on a row of
    the range that is outside every box, and the anchor that
    [get_closest_anchor] finds for it in the whole buffer, within 14 rows
    and 3 columns of the glyph. *)
Definition floating_error_origin (lines : list str) (boxes : list Box)
    (start_line end_line : Z) (err : AlignError) : Prop :=
  ∃ i c ch line anchor_r anchor_c,
    err = (i + 1, c, anchor_c, anchor_r + 1, line)
    ∧ start_line - 1 ≤ i < Z.min end_line (len lines)
    ∧ (i ∉ in_box_indices boxes)
    ∧ py_getitem lines i = Ok line
    ∧ (c, ch) ∈ enumerate line ∧ ch ∈ FLOATING_CHARS
    ∧ get_closest_anchor lines i c = Ok (Some (anchor_r, anchor_c))
    ∧ anchor_c ≠ c
    ∧ i - 14 ≤ anchor_r ≤ i + 14 ∧ c - 3 ≤ anchor_c ≤ c + 3.

(** ** Complete description of a scan *)

(** The line at index [j] starts, after left-trimming, with a top-left
    (bottom-left) corner. *)
Definition starts_top (lines : list str) (j : Z) : bool :=
  startswith (lstrip (line_at lines j)) TOP_LEFT.

Definition starts_bottom (lines : list str) (j : Z) : bool :=
  startswith (lstrip (line_at lines j)) BOTTOM_LEFT.

(** A closed box over the buffer lines [lo + 1] to [hi]: it opens on a
    top-left line, closes on the first later bottom-left line, and records
    its start, end and width. *)
Definition closed_box (lines : list str) (b : Box) (lo hi : Z) : Prop :=
  box_spans lines b lo hi ∧ lo + 1 < hi ∧ box_end b = Some hi
  ∧ starts_top lines lo = true ∧ starts_bottom lines (hi - 1) = true
  ∧ ∀ j, lo < j < hi - 1 → starts_bottom lines j = false.

(** [boxes_chain lines a boxes m]: the boxes follow one another from index
    [a], each opening on the first top-left line after the end of the one
    before; [m] is the index after the last box. *)
Inductive boxes_chain (lines : list str) : Z → list Box → Z → Prop :=
  | chain_nil a : boxes_chain lines a [] a
  | chain_snoc a bs m b lo hi :
      boxes_chain lines a bs m →
      m ≤ lo → (∀ j, m ≤ j < lo → starts_top lines j = false) →
      closed_box lines b lo hi →
      boxes_chain lines a (bs ++ [b]) hi.

(** What follows the last box up to the end [e] of the range: no top-left
    line, or a top-left line that no bottom-left line follows. *)
Definition scan_tail (lines : list str) (m e : Z) : Prop :=
  (∀ j, m ≤ j < e → starts_top lines j = false)
  ∨ ∃ lo, m ≤ lo < e ∧ (∀ j, m ≤ j < lo → starts_top lines j = false)
          ∧ starts_top lines lo = true
          ∧ ∀ j, lo < j < e → starts_bottom lines j = false.

(** Invariant of the loop of [find_boxes] for the complete description. *)
Definition chain_inv (lines : list str) (a k : Z) (st : scan_state) : Prop :=
  ∃ m, boxes_chain lines a st.1 m ∧ a ≤ m ≤ k
    ∧ match st.2 with
      | None => ∀ j, m ≤ j < k → starts_top lines j = false
      | Some cb =>
        ∃ lo, m ≤ lo < k ∧ (∀ j, m ≤ j < lo → starts_top lines j = false)
              ∧ starts_top lines lo = true ∧ box_spans lines cb lo k
              ∧ ∀ j, lo < j < k → starts_bottom lines j = false
      end.

(** ** Text and whitespace *)

(** The characters of a line that are not whitespace, in order. *)
Definition non_space (s : str) : str := filter (λ c, is_space c = false) s.

(** ** Inner groups *)

(** The text in which [find_inner_box_groups] looks for corners: the line
    without its first character when that is a left-border glyph. *)
Definition inner_text (txt : str) : str :=
  match txt with
  | c :: _ => if decide (c ∈ LEFT_BORDER) then slice_from1 txt else txt
  | [] => txt
  end.

Definition has_top (txt : str) : bool := bool_decide (TOP_CORNER ∈ inner_text txt).
Definition has_bottom (txt : str) : bool := bool_decide (BOTTOM_CORNER ∈ inner_text txt).
Definition has_vert (txt : str) : bool :=
  existsb (λ c, bool_decide (c ∈ inner_text txt)) VERT_CHARS.

(** A line between the first and the last line of a group. *)
Definition group_middle (m : Z * str) : Prop :=
  has_top m.2 = false ∧ has_bottom m.2 = false ∧ has_vert m.2 = true.

(** A complete group: a line with an inner top-left corner, lines with a
    vertical or arrow glyph and no corner, a line with an inner
    bottom-left corner and no top-left corner. *)
Definition group_shape (group : Group) : Prop :=
  ∃ first mids last,
    group = first :: mids ++ [last]
    ∧ has_top first.2 = true
    ∧ Forall group_middle mids
    ∧ has_top last.2 = false ∧ has_bottom last.2 = true.

(** Invariant of the loop of [find_inner_box_groups]. *)
Definition group_inv (st : group_state) : Prop :=
  Forall group_shape st.1.1
  ∧ if st.2
    then ∃ first mids, st.1.2 = first :: mids ∧ has_top first.2 = true
                       ∧ Forall group_middle mids
    else True.

(** ** Cutting a line at its glyphs *)

(** The cells at which the rebuild loops cut [txt]: each is a character of
    [txt] at its own position, and the positions increase from [prev_end]. *)
Fixpoint cuts_ok (txt : str) (prev_end : Z) (cells : list (Z * char)) : Prop :=
  match cells with
  | [] => True
  | (p, ch) :: rest =>
    prev_end ≤ p ∧ txt !! Z.to_nat p = Some ch ∧ cuts_ok txt (p + 1) rest
  end.

(** The cell that a move [(cur_p, tgt_p, ch)] cuts out. *)
Definition cut_cell (m : Z * Z * char) : Z * char := (m.1.1, m.2).

(** Every line of the box is the line of the buffer with its number. *)
Definition box_in_buffer (lines : list str) (b : Box) : Prop :=
  Forall (λ p, 1 ≤ p.1 ∧ lines !! Z.to_nat (p.1 - 1) = Some p.2) (box_lines b).

(** ** Rows without misplaced glyph *)

(** Row [i] is skipped, or is a line of the buffer on which every floating
    glyph is on the column of its anchor, or has no anchor. *)
Definition clean_row (lines : list str) (skip : gset Z) (i : Z) : Prop :=
  i ∈ skip ∨ ∃ line, py_getitem lines i = Ok line
                     ∧ misplaced_glyphs lines i (enumerate line) = Ok [].

(** ** Segments that fit *)

(** Each segment, right-trimmed, ends at or before the column its glyph is
    to take, the line being rebuilt from column [pos] on. *)
Fixpoint segments_fit (pos : Z) (segments : list (Z * char * str)) : bool :=
  match segments with
  | [] => true
  | (tgt_p, _, content) :: rest =>
    bool_decide (len (rstrip content) ≤ tgt_p - pos) && segments_fit (tgt_p + 1) rest
  end.

(** ** What a fix keeps of a line *)

(** The new line has the characters other than whitespace of the old one,
    in order, and at most one more, a right-border glyph at the end. *)
Definition kept_text (old new : str) : Prop :=
  non_space new = non_space old
  ∨ ∃ c, c ∈ RIGHT_BORDER ∧ non_space new = non_space old ++ [c].

(** The line numbers of a box. *)
Definition box_numbers (b : Box) : list Z := (box_lines b).*1.

(** * Sample diagrams *)

(** Scenario A of the specification: line 2 is one column short. *)
Definition scenario_A : list str := [u8 "┌──────┐"; u8 "│ AB  │"; u8 "└──────┘"].

Definition box_A : Box :=
  mkBox 1 8 [(1, u8 "┌──────┐"); (2, u8 "│ AB  │"); (3, u8 "└──────┘")] (Some 3).

(** A line too long to shrink: its interior ends with no whitespace. *)
Definition crowded : list str := [u8 "┌──┐"; u8 "│ABCDEF│"; u8 "└──┘"].

Definition crowded_box : Box :=
  mkBox 1 4 [(1, u8 "┌──┐"); (2, u8 "│ABCDEF│"); (3, u8 "└──┘")] (Some 3).

(** Trailing whitespace: every line has raw length 5, the right border of
    line 2 is at column 2. *)
Definition padded : list str := [u8 "┌──┐ "; u8 "│a│  "; u8 "└──┘ "].

Definition padded_box : Box :=
  mkBox 1 5 [(1, u8 "┌──┐ "); (2, u8 "│a│  "); (3, u8 "└──┘ ")] (Some 3).

(** An inner box without right border, one column off on line 3. *)
Definition ragged : list str := [u8 "┌────────┐"; u8 "├ ┌──"; u8 "├  └──"; u8 "└────────┘"].

Definition ragged_box : Box :=
  mkBox 1 10 [(1, u8 "┌────────┐"); (2, u8 "├ ┌──"); (3, u8 "├  └──"); (4, u8 "└────────┘")]
        (Some 4).

(** An indented box with an aligned inner box. *)
Definition indented : list str :=
  [u8 "  ┌────────┐"; u8 "  │ ┌──┐   │"; u8 "  │ └──┘   │"; u8 "  └────────┘"].

Definition indented_box : Box :=
  mkBox 1 12 [(1, u8 "  ┌────────┐"); (2, u8 "  │ ┌──┐   │"); (3, u8 "  │ └──┘   │");
              (4, u8 "  └────────┘")] (Some 4).

(** Scenario B of the specification: the inner box is one column to the
    right of its reference on lines 3 and 4. *)
Definition scenario_B : list str :=
  [u8 "┌────────────┐"; u8 "│ ┌────┐     │"; u8 "│  │ x  │    │"; u8 "│  └────┘    │";
   u8 "└────────────┘"].

Definition box_B : Box :=
  mkBox 1 14 [(1, u8 "┌────────────┐"); (2, u8 "│ ┌────┐     │"); (3, u8 "│  │ x  │    │");
              (4, u8 "│  └────┘    │"); (5, u8 "└────────────┘")] (Some 5).

(** A closed box followed by a box that is opened on line 4 and never
    closed. *)
Definition open_ended : list str :=
  [u8 "┌──┐"; u8 "│a│"; u8 "└──┘"; u8 "┌──┐"; u8 "│b   │"].

(** Scenario C of the specification, on three rows: a vertical bar at row
    2, column 5, below a junction at row 0, column 7. *)
Definition scenario_C : list str := [u8 "───────┬──"; u8 ""; u8 "     │"].

(** A box whose top line has no right corner and ends with a space. *)
Definition open_top : Box :=
  mkBox 1 4 [(1, u8 "┌── "); (2, u8 "│ab│"); (3, u8 "└──┘")] (Some 3).

(** A floating glyph below a box. *)
Definition below_box : list str := [u8 "┌──┬──┐"; u8 "└──┴──┘"; u8 "    │"].

Definition the_box_above : Box :=
  mkBox 1 7 [(1, u8 "┌──┬──┐"); (2, u8 "└──┴──┘")] (Some 2).




(** * Properties *)

(** ** Indexing and loops *)

Lemma len_nonneg {A} (l : list A) : 0 ≤ len l.
Proof. unfold len. lia. Qed.

Lemma len_app {A} (l k : list A) : len (l ++ k) = len l + len k.
Proof. unfold len. rewrite length_app. lia. Qed.

Lemma py_index_nonneg n i : 0 ≤ i < n → py_index n i = Some (Z.to_nat i).
Proof.
  intros H. unfold py_index.
  destruct (decide (i < 0)); [lia|]. destruct (decide (0 ≤ i < n)); [done|lia].
Qed.

Lemma py_getitem_nonneg {A} (l : list A) i x :
  0 ≤ i → l !! Z.to_nat i = Some x → py_getitem l i = Ok x.
Proof.
  intros Hi Hx. unfold py_getitem.
  rewrite py_index_nonneg; [simpl; by rewrite Hx|].
  apply lookup_lt_Some in Hx. unfold len. lia.
Qed.

Lemma py_getitem_line_at (lines : list str) i :
  0 ≤ i < len lines → py_getitem lines i = Ok (line_at lines i).
Proof.
  intros Hi. destruct (lookup_lt_is_Some_2 lines (Z.to_nat i)) as [x Hx].
  { unfold len in Hi. lia. }
  unfold line_at. rewrite Hx. simpl. apply py_getitem_nonneg; [lia|done].
Qed.

Lemma py_setitem_nonneg {A} (l : list A) i x :
  0 ≤ i < len l → py_setitem l i x = Ok (<[Z.to_nat i := x]> l).
Proof. intros H. unfold py_setitem. by rewrite py_index_nonneg. Qed.

Lemma py_setitem_Ok_inv {A} (l l' : list A) i x :
  py_setitem l i x = Ok l' →
  ∃ j, py_index (len l) i = Some j ∧ l' = <[j:=x]> l.
Proof.
  unfold py_setitem. destruct (py_index (len l) i) as [j|]; [|done].
  intros [= <-]. eauto.
Qed.

Lemma py_setitem_length {A} (l l' : list A) i x :
  py_setitem l i x = Ok l' → length l' = length l.
Proof.
  intros (j & _ & ->)%py_setitem_Ok_inv. apply length_insert.
Qed.

Lemma for_each_app {S A} (f : S → A → result S) st l1 l2 :
  for_each f st (l1 ++ l2) = st' ← for_each f st l1; for_each f st' l2.
Proof.
  revert st. induction l1 as [|x l1 IH]; intros st; simpl; [done|].
  destruct (f st x); simpl; [apply IH|done].
Qed.

Lemma py_range_nil a b : b ≤ a → py_range a b = [].
Proof.
  intros H. unfold py_range, seqZ.
  replace (Z.to_nat (b - a)) with 0%nat by lia. done.
Qed.

Lemma py_range_cons a b : a < b → py_range a b = a :: py_range (a + 1) b.
Proof.
  intros H. unfold py_range. rewrite seqZ_cons by lia.
  f_equal. f_equal; lia.
Qed.

Lemma py_range_split a k b :
  a ≤ k ≤ b → py_range a b = py_range a k ++ py_range k b.
Proof.
  intros H. unfold py_range.
  replace (b - a) with ((k - a) + (b - k)) by lia.
  rewrite seqZ_app by lia. do 2 f_equal; lia.
Qed.

Lemma elem_of_py_range a b k : k ∈ py_range a b ↔ a ≤ k < b.
Proof. unfold py_range. rewrite elem_of_seqZ. lia. Qed.

(** A loop over [range(a, b)] keeps an invariant indexed by the next value
    of the loop variable. *)
Lemma for_each_range_inv {S} (f : S → Z → result S) (I : Z → S → Prop) a b :
  (∀ k st st', a ≤ k < b → I k st → f st k = Ok st' → I (k + 1) st') →
  ∀ st st', a ≤ b → I a st → for_each f st (py_range a b) = Ok st' → I b st'.
Proof.
  intros Hstep st st' Hab. remember (Z.to_nat (b - a)) as n eqn:Hn.
  revert a st Hab Hn Hstep. induction n as [|n IH]; intros a st Hab Hn Hstep HI.
  - assert (a = b) as -> by lia. rewrite py_range_nil by lia. by intros [= <-].
  - rewrite py_range_cons by lia. simpl.
    destruct (f st a) as [st1|] eqn:E; simpl; [|done].
    apply IH; [lia|lia| |].
    + intros k s s' Hk. apply Hstep. lia.
    + apply (Hstep a st st1); [lia|done|done].
Qed.

(** ... and does not raise when its body does not. *)
Lemma for_each_range_total {S} (f : S → Z → result S) (I : Z → S → Prop) a b :
  (∀ k st, a ≤ k < b → I k st → ∃ st', f st k = Ok st' ∧ I (k + 1) st') →
  ∀ st, a ≤ b → I a st → ∃ st', for_each f st (py_range a b) = Ok st' ∧ I b st'.
Proof.
  intros Hstep st Hab. remember (Z.to_nat (b - a)) as n eqn:Hn.
  revert a st Hab Hn Hstep. induction n as [|n IH]; intros a st Hab Hn Hstep HI.
  - assert (a = b) as -> by lia. rewrite py_range_nil by lia. eauto.
  - rewrite py_range_cons by lia. simpl.
    destruct (Hstep a st) as (st1 & E & HI1); [lia|done|].
    rewrite E. simpl. apply IH; [lia|lia| |done].
    intros k s Hk. apply Hstep. lia.
Qed.

(** ** Shape of the scanned boxes *)

Lemma numbered_snoc lines lo k :
  lo ≤ k → numbered lines lo (k + 1) = numbered lines lo k ++ [(k + 1, line_at lines k)].
Proof.
  intros H. unfold numbered.
  replace (k + 1 - lo) with ((k - lo) + 1) by lia.
  rewrite seqZ_app by lia. rewrite fmap_app. f_equal.
  replace (lo + (k - lo)) with k by lia. done.
Qed.

Lemma numbered_cons lines lo hi :
  lo < hi → numbered lines lo hi = (lo + 1, line_at lines lo) :: numbered lines (lo + 1) hi.
Proof.
  intros H. unfold numbered. rewrite seqZ_cons by lia. simpl.
  do 3 f_equal; lia.
Qed.

Lemma numbered_one lines k : numbered lines k (k + 1) = [(k + 1, line_at lines k)].
Proof. rewrite numbered_snoc by lia. unfold numbered. by rewrite Z.sub_diag. Qed.

Lemma find_boxes_step_inv lines a k st :
  0 ≤ a → a ≤ k < len lines → scan_inv lines a k st →
  ∃ st', find_boxes_step lines st k = Ok st' ∧ scan_inv lines a (k + 1) st'.
Proof.
  intros Ha Hk [Hboxes Hcur]. destruct st as [boxes cur]. simpl in *.
  unfold find_boxes_step. rewrite py_getitem_line_at by lia. simpl.
  assert (Hmono : Forall (λ b, ∃ lo hi, box_spans lines b lo hi ∧ a ≤ lo ∧ hi ≤ k + 1) boxes).
  { eapply Forall_impl; [exact Hboxes|]. intros b (lo & hi & ? & ? & ?).
    exists lo, hi. split; [done|lia]. }
  destruct cur as [cb|].
  - destruct Hcur as (lo & (Hlo & Hhi & Hs & Hw & Hl) & Halo).
    assert (Hspan : ∀ e, box_spans lines
              (mkBox (box_start cb) (box_width cb)
                 (box_lines cb ++ [(k + 1, line_at lines k)]) e) lo (k + 1)).
    { intros e. repeat split; simpl; try done; try lia.
      rewrite Hl. symmetry. apply numbered_snoc. lia. }
    destruct (startswith _ BOTTOM_LEFT).
    + eexists. split; [done|]. split; simpl; [|done].
      apply Forall_app. split; [done|]. apply Forall_singleton.
      exists lo, (k + 1). split; [apply Hspan|lia].
    + eexists. split; [done|]. split; simpl; [done|]. exists lo. split; [apply Hspan|done].
  - destruct (startswith _ TOP_LEFT).
    + eexists. split; [done|]. split; simpl; [done|].
      exists k. split; [|lia]. repeat split; simpl; try lia.
      symmetry. apply numbered_one.
    + eexists. split; [done|]. split; simpl; done.
Qed.

(** With a 1-based [start_line], [find_boxes] does not raise, and every box
    it returns is a run of consecutive buffer lines inside the range. *)
Lemma find_boxes_spans lines start_line end_line :
  1 ≤ start_line →
  ∃ boxes, find_boxes lines start_line end_line = Ok boxes
    ∧ Forall (λ b, ∃ lo hi, box_spans lines b lo hi ∧ start_line - 1 ≤ lo
                            ∧ hi ≤ Z.min end_line (len lines)) boxes.
Proof.
  intros Hs. unfold find_boxes.
  set (a := start_line - 1). set (b := Z.min end_line (len lines)).
  destruct (decide (a ≤ b)) as [Hab|Hab].
  - destruct (for_each_range_total (find_boxes_step lines)
                (λ k st, a ≤ k ∧ scan_inv lines a k st) a b) with (st := ([], None) : scan_state)
      as (st' & -> & _ & Hinv & _).
    + intros k st Hk [_ Hinv].
      destruct (find_boxes_step_inv lines a k st) as (st' & ? & ?); [lia|lia|done|].
      exists st'. split; [done|]. split; [lia|done].
    + done.
    + split; [lia|]. split; simpl; [constructor|done].
    + simpl. eexists. split; [done|]. done.
  - rewrite py_range_nil by lia. simpl. eexists. split; [done|]. constructor.
Qed.

Lemma elem_of_numbered lines lo hi ln txt :
  (ln, txt) ∈ numbered lines lo hi ↔ lo < ln ≤ hi ∧ txt = line_at lines (ln - 1).
Proof.
  unfold numbered. rewrite list_elem_of_fmap. split.
  - intros (j & [= -> ->] & Hj%elem_of_seqZ).
    split; [lia|]. f_equal. lia.
  - intros [Hln ->]. exists (ln - 1). split; [f_equal; lia|].
    apply elem_of_seqZ. lia.
Qed.

Lemma numbered_fst lines lo hi : (numbered lines lo hi).*1 = seqZ (lo + 1) (hi - lo).
Proof.
  unfold numbered. rewrite <- list_fmap_compose.
  rewrite <- (Z.add_comm 1 lo), <- fmap_add_seqZ. apply list_fmap_ext.
  intros ? j ?. simpl. lia.
Qed.

Lemma numbered_NoDup lines lo hi : NoDup (numbered lines lo hi).*1.
Proof. rewrite numbered_fst. apply NoDup_seqZ. Qed.

Lemma numbered_head lines lo hi :
  lo < hi → head (numbered lines lo hi) = Some (lo + 1, line_at lines lo).
Proof.
  intros H. unfold numbered. rewrite seqZ_cons by lia. done.
Qed.

Lemma line_at_lookup lines j :
  0 ≤ j < len lines → lines !! Z.to_nat j = Some (line_at lines j).
Proof.
  intros Hj. unfold line_at.
  destruct (lookup_lt_is_Some_2 lines (Z.to_nat j)) as [x ->]; [|done].
  unfold len in Hj. lia.
Qed.

(** ** The width fixer on the buffer *)

Lemma fix_outer_width_loop_length tw bl lines fixes :
  length (fix_outer_width_loop tw bl lines fixes).1 = length lines.
Proof.
  revert lines fixes. induction bl as [|[ln txt] bl IH]; intros lines fixes; simpl; [done|].
  destruct (fix_width_line tw txt) as [new|]; [|apply IH].
  destruct (py_setitem lines (ln - 1) new) as [lines'|] eqn:E; [|done].
  rewrite IH. by eapply py_setitem_length.
Qed.

(** Lines that no entry of the box designates are not written. *)
Lemma fix_outer_width_loop_frame tw bl lines fixes (j : nat) :
  (∀ ln, ln ∈ bl.*1 → py_index (len lines) (ln - 1) ≠ Some j) →
  (fix_outer_width_loop tw bl lines fixes).1 !! j = lines !! j.
Proof.
  revert lines fixes. induction bl as [|[ln txt] bl IH]; intros lines fixes Hj; simpl; [done|].
  assert (Hrest : ∀ ln', ln' ∈ bl.*1 → py_index (len lines) (ln' - 1) ≠ Some j).
  { intros ln' Hin. apply Hj. simpl. by right. }
  destruct (fix_width_line tw txt) as [new|]; [|by apply IH].
  destruct (py_setitem lines (ln - 1) new) as [lines'|] eqn:E; [|done].
  pose proof (py_setitem_length _ _ _ _ E) as Hlen.
  apply py_setitem_Ok_inv in E as (i & Hi & ->).
  rewrite IH.
  - apply list_lookup_insert_ne. intros ->. apply (Hj ln); [simpl; by left|done].
  - unfold len. rewrite Hlen. exact Hrest.
Qed.

(** On distinct, valid line numbers the loop does not raise, and each
    designated line holds its rewritten text, or its old text where the
    loop [continue]s. *)
Lemma fix_outer_width_loop_ok tw bl lines fixes :
  NoDup bl.*1 →
  (∀ ln, ln ∈ bl.*1 → 1 ≤ ln ≤ len lines) →
  ∃ n, (fix_outer_width_loop tw bl lines fixes).2 = Ok n
    ∧ ∀ ln txt, (ln, txt) ∈ bl →
        (fix_outer_width_loop tw bl lines fixes).1 !! Z.to_nat (ln - 1) =
          match fix_width_line tw txt with
          | Some new => Some new
          | None => lines !! Z.to_nat (ln - 1)
          end.
Proof.
  revert lines fixes. induction bl as [|[ln txt] bl IH]; intros lines fixes Hnd Hrange; simpl.
  { eexists. split; [done|]. intros ?? Hin. by apply elem_of_nil in Hin. }
  simpl in Hnd. apply NoDup_cons in Hnd as [Hnotin Hnd].
  assert (Hln : 1 ≤ ln ≤ len lines) by (apply Hrange; simpl; by left).
  assert (Hrest : ∀ ln', ln' ∈ bl.*1 → 1 ≤ ln' ≤ len lines).
  { intros ln' Hin. apply Hrange. simpl. by right. }
  assert (Hframe : ∀ ls n, length ls = length lines →
            (fix_outer_width_loop tw bl ls n).1 !! Z.to_nat (ln - 1) = ls !! Z.to_nat (ln - 1)).
  { intros ls n Hlen. apply fix_outer_width_loop_frame. intros ln' Hin.
    pose proof (Hrest ln' Hin). unfold len. rewrite Hlen. fold (len lines).
    rewrite py_index_nonneg by lia. intros [= Heq].
    assert (ln' = ln) as -> by lia. done. }
  destruct (fix_width_line tw txt) as [new|] eqn:Efix.
  - rewrite py_setitem_nonneg by lia.
    destruct (IH (<[Z.to_nat (ln - 1) := new]> lines) (fixes + 1) Hnd) as (n & Hn & Hl).
    { unfold len. rewrite length_insert. exact Hrest. }
    exists n. split; [done|]. intros ln' txt' [[= -> ->]|Hin]%elem_of_cons.
    + rewrite Efix, Hframe by (by rewrite length_insert).
      apply list_lookup_insert_eq. unfold len in Hln. lia.
    + rewrite (Hl _ _ Hin). destruct (fix_width_line tw txt'); [done|].
      apply list_lookup_insert_ne. intros Heq.
      assert (ln' ∈ bl.*1) as Hin' by (apply list_elem_of_fmap; by exists (ln', txt')).
      pose proof (Hrest ln' Hin'). assert (ln' = ln) as -> by lia. done.
  - destruct (IH lines fixes Hnd Hrest) as (n & Hn & Hl).
    exists n. split; [done|]. intros ln' txt' [[= -> ->]|Hin]%elem_of_cons.
    + rewrite Efix. by apply Hframe.
    + by apply Hl.
Qed.

(** ** Stripping and border glyphs *)

Lemma lstrip_split s :
  ∃ ws, s = ws ++ lstrip s ∧ Forall (λ c, is_space c = true) ws.
Proof.
  induction s as [|c s (ws & Hs & Hws)]; simpl.
  - exists []. done.
  - destruct (is_space c) eqn:E.
    + exists (c :: ws). split; [simpl; by f_equal|]. by constructor.
    + exists []. done.
Qed.

Lemma len_lstrip_le s : len (lstrip s) ≤ len s.
Proof.
  destruct (lstrip_split s) as (ws & Hs & _).
  rewrite Hs at 2. rewrite len_app. pose proof (len_nonneg ws). lia.
Qed.

Lemma rstrip_snoc_not_space s c : is_space c = false → rstrip (s ++ [c]) = s ++ [c].
Proof.
  intros Hc. unfold rstrip. rewrite rev_unit. simpl. rewrite Hc.
  simpl. by rewrite rev_involutive.
Qed.

Lemma len_rstrip_le s : len (rstrip s) ≤ len s.
Proof.
  unfold rstrip, len. rewrite length_rev.
  pose proof (len_lstrip_le (rev s)) as H. unfold len in H.
  rewrite length_rev in H. lia.
Qed.

Lemma right_border_not_space c : c ∈ RIGHT_BORDER → is_space c = false.
Proof. unfold RIGHT_BORDER. set_unfold. intros H. by destruct_or!; subst. Qed.

Lemma len_spaces n : len (spaces n) = Z.max 0 n.
Proof. unfold len, spaces. rewrite length_replicate. lia. Qed.

Lemma list_snoc_cases {A} (l : list A) : l = [] ∨ ∃ l' x, l = l' ++ [x].
Proof. induction l using rev_ind; [by left|right; eauto]. Qed.

Lemma slice_inner_cons_snoc {A} (x y : A) l : slice_inner (x :: l ++ [y]) = l.
Proof. unfold slice_inner. simpl. rewrite drop_0. apply removelast_last. Qed.

(** ** Right-most right-border glyph *)

Lemma enumerate_snoc {A} (s : list A) x : enumerate (s ++ [x]) = enumerate s ++ [(len s, x)].
Proof.
  unfold enumerate, len. rewrite imap_app. simpl. by rewrite Nat.add_0_r.
Qed.

Lemma enumerate_lookup {A} (s : list A) (i : Z) x :
  (i, x) ∈ enumerate s ↔ 0 ≤ i ∧ s !! Z.to_nat i = Some x.
Proof.
  unfold enumerate. rewrite list_elem_of_lookup. split.
  - intros (k & Hk). rewrite list_lookup_imap in Hk.
    destruct (s !! k) as [y|] eqn:E; simplify_eq/=.
    split; [lia|]. by rewrite Nat2Z.id.
  - intros [Hi Hx]. exists (Z.to_nat i). rewrite list_lookup_imap, Hx. simpl.
    do 2 f_equal. lia.
Qed.

Lemma right_border_indices_bound txt i :
  i ∈ right_border_indices txt → 0 ≤ i < len txt.
Proof.
  unfold right_border_indices. rewrite list_elem_of_fmap.
  intros ([j c] & -> & [_ Hin]%list_elem_of_filter). simpl.
  apply enumerate_lookup in Hin as [? Hl]. apply lookup_lt_Some in Hl.
  unfold len. lia.
Qed.

Lemma foldl_max_le m x l : x ≤ m → Forall (λ y, y ≤ m) l → foldl Z.max x l ≤ m.
Proof.
  revert x. induction l as [|y l IH]; intros x Hx Hl; simpl; [done|].
  apply Forall_cons in Hl as [Hy Hl]. apply IH; [lia|done].
Qed.

Lemma py_max_default_snoc l m d : Forall (λ y, y ≤ m) l → py_max_default (l ++ [m]) d = m.
Proof.
  intros Hl. destruct l as [|x l]; simpl; [done|].
  apply Forall_cons in Hl as [Hx Hl]. rewrite foldl_app. simpl.
  pose proof (foldl_max_le m x l Hx Hl). lia.
Qed.

Lemma rightmost_border_snoc s r : r ∈ RIGHT_BORDER → rightmost_border (s ++ [r]) = len s.
Proof.
  intros Hr. unfold rightmost_border, right_border_indices.
  rewrite enumerate_snoc, filter_app, fmap_app.
  rewrite filter_cons_True by done. simpl.
  apply py_max_default_snoc. apply Forall_forall. intros i Hi.
  apply right_border_indices_bound in Hi. lia.
Qed.

Lemma line_width_snoc s r : r ∈ RIGHT_BORDER → line_width (s ++ [r]) = len (s ++ [r]).
Proof.
  intros Hr. unfold line_width. rewrite rightmost_border_snoc by done.
  pose proof (len_nonneg s). rewrite len_app.
  destruct (decide _); [done|lia].
Qed.

(** ** The border pattern *)

Lemma border_pattern_split txt :
  border_pattern txt = true →
  ∃ ws l interior r,
    txt = ws ++ l :: interior ++ [r] ∧ lstrip txt = l :: interior ++ [r]
    ∧ l ∈ LEFT_BORDER ∧ r ∈ RIGHT_BORDER.
Proof.
  unfold border_pattern. intros H.
  destruct (lstrip_split txt) as (ws & Htxt & _).
  destruct (lstrip txt) as [|l rest] eqn:E; [done|].
  apply andb_true_iff in H as [Hl%bool_decide_eq_true Hr].
  destruct (last rest) as [r|] eqn:Elast; [|done].
  apply bool_decide_eq_true in Hr. apply last_Some in Elast as [interior ->].
  exists ws, l, interior, r. done.
Qed.

(** On a line of the pattern with enough room, the line that
    [fix_outer_width] leaves behind has the target length and ends with
    its right-border glyph. *)
Lemma fix_width_line_result tw txt :
  border_pattern txt = true →
  len txt - trailing_room txt ≤ tw →
  ∃ s r, default txt (fix_width_line tw txt) = s ++ [r] ∧ r ∈ RIGHT_BORDER
         ∧ len (s ++ [r]) = tw.
Proof.
  intros (ws & l & interior & r & Htxt & Hstrip & Hl & Hr)%border_pattern_split Hroom.
  unfold trailing_room in Hroom. rewrite Hstrip, slice_inner_cons_snoc in Hroom.
  assert (Hlen : len txt = len ws + len interior + 2).
  { rewrite Htxt. unfold len. rewrite length_app. simpl. rewrite length_app. simpl. lia. }
  assert (Hlens : len (l :: interior ++ [r]) = len interior + 2).
  { unfold len. simpl. rewrite length_app. simpl. lia. }
  pose proof (len_nonneg ws) as Hws. pose proof (len_rstrip_le interior) as Hrs.
  unfold fix_width_line. destruct (decide (len txt = tw)) as [Heq|Hne]; simpl.
  { exists (ws ++ l :: interior), r. rewrite <- app_assoc. simpl. rewrite <- Htxt. done. }
  rewrite Hstrip. destruct (decide (l ∉ LEFT_BORDER)); [done|].
  assert (Hrstrip : rstrip (l :: interior ++ [r]) = l :: interior ++ [r]).
  { apply (rstrip_snoc_not_space (l :: interior)). by apply right_border_not_space. }
  assert (Hlast : last (l :: interior ++ [r]) = Some r).
  { apply (last_snoc r (l :: interior)). }
  rewrite Hrstrip, Hlast. destruct (decide (r ∉ RIGHT_BORDER)); [done|].
  rewrite slice_inner_cons_snoc, Hlens.
  destruct (decide (tw - len txt > 0)); simpl.
  - exists (spaces (len txt - (len interior + 2)) ++ [l] ++ interior
              ++ spaces (tw - len txt)), r.
    split; [by rewrite <- !app_assoc|]. split; [done|].
    rewrite !len_app, !len_spaces. change (len [l]) with 1. change (len [r]) with 1. lia.
  - exists (spaces (len txt - (len interior + 2)) ++ [l] ++ rstrip interior
              ++ spaces (Z.max 0 (len interior - len (rstrip interior) + (tw - len txt)))), r.
    split; [by rewrite <- !app_assoc|]. split; [done|].
    rewrite !len_app, !len_spaces. change (len [l]) with 1. change (len [r]) with 1. lia.
Qed.

Lemma check_outer_width_cons b ln0 txt0 rest :
  box_lines b = (ln0, txt0) :: rest →
  check_outer_width b =
    Ok (omap (λ '(ln, txt),
          let w := line_width txt in
          if decide (w ≠ expected_width txt0)
          then Some (ln, w, expected_width txt0, txt) else None)
        (box_lines b)).
Proof. intros H. unfold check_outer_width. rewrite H. done. Qed.

(** ** Checking the width again after the fix *)

Lemma reread_lines_ok (ls : list str) (f : Z → str) (bl acc : list (Z * str)) :
  (∀ ln, ln ∈ bl.*1 → py_getitem ls (ln - 1) = Ok (f ln)) →
  for_each (λ acc '(ln, _), txt ← py_getitem ls (ln - 1); Ok (acc ++ [(ln, txt)])) acc bl
  = Ok (acc ++ ((λ p, (p.1, f p.1)) <$> bl)).
Proof.
  revert acc. induction bl as [|[ln txt] bl IH]; intros acc H; simpl.
  - by rewrite app_nil_r.
  - rewrite H by (simpl; by left). simpl. rewrite IH.
    + by rewrite <- app_assoc.
    + intros ln' Hin. apply H. simpl. by right.
Qed.

Lemma omap_all_None {A B} (g : A → option B) l : (∀ x, x ∈ l → g x = None) → omap g l = [].
Proof.
  induction l as [|x l IH]; intros H; simpl; [done|].
  rewrite H by (by left). apply IH. intros y Hy. apply H. by right.
Qed.

Lemma width_errors_after_fix_spans lines b lo hi :
  box_spans lines b lo hi →
  (∀ ln txt, (ln, txt) ∈ box_lines b →
     border_pattern txt = true ∧ len txt - trailing_room txt ≤ box_width b) →
  width_errors_after_fix lines b = Ok [].
Proof.
  intros (Hlo & Hhi & Hstart & Hwidth & Hlines) Hpat.
  set (tw := box_width b).
  set (f := λ ln : Z, default (line_at lines (ln - 1))
                        (fix_width_line tw (line_at lines (ln - 1)))).
  assert (Hf : ∀ ln, lo < ln ≤ hi →
            ∃ s r, f ln = s ++ [r] ∧ r ∈ RIGHT_BORDER ∧ len (s ++ [r]) = tw).
  { intros ln Hln. apply fix_width_line_result; apply (Hpat ln);
      rewrite Hlines; by apply elem_of_numbered. }
  assert (Hrange : ∀ ln, ln ∈ (box_lines b).*1 → 1 ≤ ln ≤ len lines).
  { intros ln. rewrite Hlines, numbered_fst, elem_of_seqZ. lia. }
  unfold width_errors_after_fix, fix_outer_width. simpl. fold tw.
  destruct (fix_outer_width_loop_ok tw (box_lines b) lines 0) as (n & Hn & Hl).
  { rewrite Hlines. apply numbered_NoDup. }
  { exact Hrange. }
  pose proof (fix_outer_width_loop_length tw (box_lines b) lines 0) as Hlen.
  destruct (fix_outer_width_loop tw (box_lines b) lines 0) as [lines' res].
  simpl in *. subst res. simpl.
  assert (Hget : ∀ ln, ln ∈ (box_lines b).*1 → py_getitem lines' (ln - 1) = Ok (f ln)).
  { intros ln Hin. pose proof (Hrange ln Hin) as Hr.
    apply py_getitem_nonneg; [lia|].
    rewrite (Hl ln (line_at lines (ln - 1))).
    - unfold f. destruct (fix_width_line _ _); simpl; [done|].
      apply line_at_lookup. lia.
    - rewrite Hlines. apply elem_of_numbered. split; [|done].
      revert Hin. rewrite Hlines, numbered_fst, elem_of_seqZ. lia. }
  unfold reread_box. rewrite (reread_lines_ok lines' f) by done. simpl.
  destruct (Hf (lo + 1)) as (s0 & r0 & Hs0 & Hr0 & Hlen0); [lia|].
  rewrite (check_outer_width_cons _ (lo + 1) (f (lo + 1))
             ((λ p, (p.1, f p.1)) <$> numbered lines (lo + 1) hi)).
  2:{ simpl. rewrite Hlines, (numbered_cons lines lo hi) by lia. done. }
  assert (Hexp : expected_width (f (lo + 1)) = tw).
  { unfold expected_width. rewrite Hs0, rightmost_border_snoc by done.
    pose proof (len_nonneg s0). rewrite len_app in *. change (len [r0]) with 1 in *.
    destruct (decide _); lia. }
  rewrite Hexp. f_equal. apply omap_all_None. intros [ln txt]. simpl.
  rewrite Hlines.
  intros ([ln' txt'] & [= -> ->] & Hin)%list_elem_of_fmap. simpl.
  apply elem_of_numbered in Hin as [Hln _].
  destruct (Hf ln' Hln) as (s & r & Hs & Hr & Hlens).
  rewrite Hs, line_width_snoc by done.
  destruct (decide _); [lia|done].
Qed.

(** ** Width: the check after the fix, scenario A, the inner fixer *)

(** C1, as stated, fails: every line of [crowded_box] follows the border
    pattern, yet after [fix_outer_width] the width check still reports
    line 2, whose content leaves no whitespace to remove. *)
Lemma fix_then_check_width_crowded :
  find_boxes crowded 1 3 = Ok [crowded_box]
  ∧ Forall (λ l, border_pattern l.2 = true) (box_lines crowded_box)
  ∧ width_errors_after_fix crowded crowded_box = Ok [(2, 8, 4, u8 "│ABCDEF│")].
Proof. split; [|split]; [vm_compute; done| repeat constructor | vm_compute; done]. Qed.

(** C1, amended: for a box returned by [find_boxes] (1-based range) all of
    whose lines follow the border pattern, and none of whose lines exceeds
    the recorded box width by more than the whitespace that ends its
    interior, [check_outer_width] on the box read again after
    [fix_outer_width] does not raise and returns no error. *)
Theorem fix_then_check_width lines start_line end_line boxes b :
  1 ≤ start_line →
  find_boxes lines start_line end_line = Ok boxes →
  b ∈ boxes →
  (∀ ln txt, (ln, txt) ∈ box_lines b →
     border_pattern txt = true ∧ len txt - trailing_room txt ≤ box_width b) →
  width_errors_after_fix lines b = Ok [].
Proof.
  intros Hs Hfind Hb Hpat.
  destruct (find_boxes_spans lines start_line end_line Hs) as (boxes' & Hfind' & Hall).
  rewrite Hfind in Hfind'. injection Hfind' as <-.
  rewrite Forall_forall in Hall. destruct (Hall b Hb) as (lo & hi & Hspan & _).
  by eapply width_errors_after_fix_spans.
Qed.

Lemma fix_then_check_width_witness : width_errors_after_fix scenario_A box_A = Ok [].
Proof.
  apply (fix_then_check_width scenario_A 1 3 [box_A] box_A).
  - lia.
  - vm_compute. reflexivity.
  - apply list_elem_of_here.
  - intros ln txt Hin. simpl in Hin.
    repeat (apply elem_of_cons in Hin as [[= -> ->]|Hin]; [vm_compute; split; [reflexivity|discriminate]|]).
    by apply elem_of_nil in Hin.
Defined.

(** C2, as stated, fails: the lines of scenario A have 8, 7 and 8
    characters, so the reported widths are not 8 and 9 and the rewritten
    line does not have length 9. *)
Lemma scenario_A_not_8_9 :
  find_boxes scenario_A 1 3 = Ok [box_A]
  ∧ check_outer_width box_A ≠ Ok [(2, 8, 9, u8 "│ AB  │")]
  ∧ len (u8 "│ AB   │") ≠ 9.
Proof. split; [|split]; [vm_compute; done|vm_compute; discriminate|vm_compute; discriminate]. Qed.

(** C2, amended: on scenario A, scanned as one box, [check_outer_width]
    reports exactly one error, on line 2, with actual width 7 and expected
    width 8 (difference -1); [fix_outer_width] makes one fix, rewriting
    line 2 to "│ AB   │", of length 8, and leaves lines 1 and 3 as they
    are. *)
Theorem scenario_A_width :
  find_boxes scenario_A 1 3 = Ok [box_A]
  ∧ check_outer_width box_A = Ok [(2, 7, 8, u8 "│ AB  │")]
  ∧ 7 - 8 = -1
  ∧ fix_outer_width scenario_A box_A None
    = ([u8 "┌──────┐"; u8 "│ AB   │"; u8 "└──────┘"], Ok 1)
  ∧ len (u8 "│ AB   │") = 8.
Proof. split_and!; vm_compute; done. Qed.

(** C3: the claim is not met by [fix_inner_alignment]. On a box whose inner
    box has no right border, the rebuilt line is shorter than the box and
    holds no right-border glyph, and the [max] of the empty sequence
    raises [ValueError]. *)
Theorem fix_inner_alignment_raises :
  find_boxes ragged 1 4 = Ok [ragged_box]
  ∧ fix_inner_alignment ragged ragged_box = (ragged, Raise ValueError).
Proof. split_and!; vm_compute; done. Qed.

(** ** Width: the target of the fix *)

Lemma fix_width_line_same_length txt : fix_width_line (len txt) txt = None.
Proof. unfold fix_width_line. by destruct (decide _). Qed.

(** C9: for a box returned by [find_boxes] (1-based range), the target
    width of [fix_outer_width] is the raw length of the buffer line the box
    starts at, trailing whitespace included, and every box line of that
    raw length is left as it is; [padded] shows such a line,
    which [check_outer_width] reports (its right-most right-border glyph is
    at column 2) and [fix_outer_width] does not touch. *)
Theorem fix_width_target_is_raw_length lines start_line end_line boxes b :
  1 ≤ start_line →
  find_boxes lines start_line end_line = Ok boxes →
  b ∈ boxes →
  (∃ txt0, py_getitem lines (box_start b - 1) = Ok txt0
     ∧ head (box_lines b) = Some (box_start b, txt0)
     ∧ box_width b = len txt0
     ∧ fix_outer_width lines b None = fix_outer_width lines b (Some (len txt0)))
  ∧ (∀ ln txt, (ln, txt) ∈ box_lines b → len txt = box_width b →
       py_getitem lines (ln - 1) = Ok txt
       ∧ py_getitem (fix_outer_width lines b None).1 (ln - 1) = Ok txt)
  ∧ (find_boxes padded 1 3 = Ok [padded_box]
     ∧ check_outer_width padded_box = Ok [(2, 3, 4, u8 "│a│  ")]
     ∧ len (u8 "│a│  ") = box_width padded_box
     ∧ fix_outer_width padded padded_box None = (padded, Ok 0)).
Proof.
  intros Hs Hfind Hb.
  destruct (find_boxes_spans lines start_line end_line Hs) as (boxes' & Hfind' & Hall).
  rewrite Hfind in Hfind'. injection Hfind' as <-.
  rewrite Forall_forall in Hall.
  destruct (Hall b Hb) as (lo & hi & (Hlo & Hhi & Hstart & Hwidth & Hlines) & _).
  split; [|split].
  - exists (line_at lines lo). rewrite Hstart, Hlines.
    replace (lo + 1 - 1) with lo by lia.
    split; [apply py_getitem_line_at; lia|].
    split; [apply numbered_head; lia|]. split; [done|].
    unfold fix_outer_width. simpl. by rewrite Hwidth.
  - intros ln txt Hin Hlen.
    assert (Hin' := Hin). rewrite Hlines in Hin'.
    apply elem_of_numbered in Hin' as [Hln ->].
    assert (Hget : py_getitem lines (ln - 1) = Ok (line_at lines (ln - 1))).
    { apply py_getitem_line_at. lia. }
    split; [done|].
    unfold fix_outer_width. simpl.
    destruct (fix_outer_width_loop_ok (box_width b) (box_lines b) lines 0) as (n & _ & Hl).
    { rewrite Hlines. apply numbered_NoDup. }
    { intros ln'. rewrite Hlines, numbered_fst, elem_of_seqZ. lia. }
    apply py_getitem_nonneg; [lia|]. rewrite (Hl _ _ Hin).
    rewrite <- Hlen, fix_width_line_same_length. apply line_at_lookup. lia.
  - split_and!; vm_compute; done.
Qed.

Lemma fix_width_target_is_raw_length_witness :
  (∃ txt0, py_getitem padded (box_start padded_box - 1) = Ok txt0
     ∧ head (box_lines padded_box) = Some (box_start padded_box, txt0)
     ∧ box_width padded_box = len txt0
     ∧ fix_outer_width padded padded_box None
       = fix_outer_width padded padded_box (Some (len txt0)))
  ∧ (∀ ln txt, (ln, txt) ∈ box_lines padded_box → len txt = box_width padded_box →
       py_getitem padded (ln - 1) = Ok txt
       ∧ py_getitem (fix_outer_width padded padded_box None).1 (ln - 1) = Ok txt)
  ∧ (find_boxes padded 1 3 = Ok [padded_box]
     ∧ check_outer_width padded_box = Ok [(2, 3, 4, u8 "│a│  ")]
     ∧ len (u8 "│a│  ") = box_width padded_box
     ∧ fix_outer_width padded padded_box None = (padded, Ok 0)).
Proof.
  apply (fix_width_target_is_raw_length padded 1 3 [padded_box] padded_box).
  - lia.
  - vm_compute. reflexivity.
  - apply list_elem_of_here.
Defined.

(** ** Border positions of a reference line *)

Lemma filter_imap_snd (chars : list char) (g : nat → Z) (l : str) :
  (filter (λ p, p.2 ∈ chars) (imap (λ i x, (g i, x)) l)).*2 = filter (λ c, c ∈ chars) l.
Proof.
  revert g. induction l as [|x l IH]; intros g; [done|].
  rewrite imap_cons. rewrite !filter_cons. simpl.
  destruct (decide (x ∈ chars)); simpl; [f_equal|]; apply (IH (g ∘ S)).
Qed.

Lemma border_cells_glyphs line : (border_cells line).*2 = border_glyphs line.
Proof. apply filter_imap_snd. Qed.

Lemma elem_of_border_cells line i c :
  (i, c) ∈ border_cells line ↔ 0 ≤ i ∧ line !! Z.to_nat i = Some c ∧ c ∈ BORDER_CHARS.
Proof.
  unfold border_cells. rewrite list_elem_of_filter, enumerate_lookup. simpl. tauto.
Qed.

(** C4, as stated, fails: in the indented box, the reference line of the
    inner group begins with a space, not with a left-border glyph, and
    still its first and last border columns (2 and 11) are dropped. *)
Lemma indented_reference_drops_outer :
  find_boxes indented 1 4 = Ok [indented_box]
  ∧ find_inner_box_groups indented_box
    = [[(2, u8 "  │ ┌──┐   │"); (3, u8 "  │ └──┘   │")]]
  ∧ begins_and_ends (u8 "  │ ┌──┐   │") = false
  ∧ border_columns (u8 "  │ ┌──┐   │") = [2; 4; 7; 11]
  ∧ (get_border_positions (u8 "  │ ┌──┐   │") true).*1 = [4; 7]
  ∧ check_inner_alignment indented_box = [].
Proof. split_and!; vm_compute; done. Qed.

(** C4, amended: the columns [check_inner_alignment] takes from a line are
    the border-glyph columns without the first and the last one exactly
    when the line holds at least two border glyphs, the first border glyph
    on the line is a left-border glyph and the last border glyph on the
    line is a right-border glyph, whatever other text precedes or follows
    them; otherwise they are the full ordered list of border-glyph
    columns. *)
Theorem border_positions_drop_outer_pair (line : str) :
  let cols := (get_border_positions line true).*1 in
  if outer_pair line
  then ∃ c0 cn, border_columns line = c0 :: cols ++ [cn]
  else cols = border_columns line.
Proof.
  unfold outer_pair, border_columns. rewrite <- border_cells_glyphs.
  unfold get_border_positions. destruct line as [|c line]; [done|].
  set (ps := border_cells (c :: line)). simpl.
  assert (Hlen : len ps.*2 = len ps) by (unfold len; by rewrite length_fmap).
  rewrite Hlen. clearbody ps. clear Hlen.
  destruct ps as [|p ps]; [done|].
  destruct (list_snoc_cases ps) as [->|(ps' & q & ->)]; [done|]. rename ps' into ps.
  assert (Hlen : 2 ≤ len (p :: ps ++ [q])).
  { unfold len. simpl. rewrite length_app. simpl. lia. }
  assert (Hlast : last (p :: ps ++ [q]) = Some q) by apply (last_snoc q (p :: ps)).
  rewrite bool_decide_eq_true_2 by done.
  rewrite fmap_last, Hlast. cbn [head fmap option_fmap option_map andb list_fmap].
  destruct (bool_decide (p.2 ∈ LEFT_BORDER) && bool_decide (q.2 ∈ RIGHT_BORDER)).
  - exists p.1, q.1. rewrite slice_inner_cons_snoc. by rewrite fmap_app.
  - done.
Qed.

(** The part of C4 that holds as stated: a line of two or more characters
    that begins with a left-border glyph and ends with a right-border
    glyph has its first and last columns dropped. *)
Lemma begins_and_ends_outer_pair (line : str) :
  2 ≤ len line → begins_and_ends line = true → outer_pair line = true.
Proof.
  unfold begins_and_ends, outer_pair, border_glyphs. intros Hlen H.
  destruct line as [|l line]; [done|].
  destruct (list_snoc_cases line) as [->|(line' & r & ->)];
    [unfold len in Hlen; simpl in Hlen; lia|].
  assert (Hlast : last (l :: line' ++ [r]) = Some r) by apply (last_snoc r (l :: line')).
  rewrite Hlast in H. cbn [head] in H.
  apply andb_true_iff in H as [Hl%bool_decide_eq_true Hr%bool_decide_eq_true].
  assert (Hl' : l ∈ BORDER_CHARS).
  { revert Hl. unfold LEFT_BORDER, BORDER_CHARS. set_unfold. intros H. destruct_or!; subst; tauto. }
  assert (Hr' : r ∈ BORDER_CHARS).
  { revert Hr. unfold RIGHT_BORDER, BORDER_CHARS. set_unfold. intros H. destruct_or!; subst; tauto. }
  rewrite filter_cons_True, filter_app, filter_cons_True by done. rewrite filter_nil.
  set (mid := filter (λ c, c ∈ BORDER_CHARS) line').
  assert (Hlast' : last (l :: mid ++ [r]) = Some r) by apply (last_snoc r (l :: mid)).
  rewrite Hlast'. cbn [head]. rewrite !bool_decide_eq_true_2; try done.
  unfold len. simpl. rewrite length_app. simpl. lia.
Qed.

(** ** Inner groups are taken from the box lines, in order *)

Lemma find_inner_step_sublist (groups : list Group) (cur : Group) in_inner x pre :
  concat groups ++ cur `sublist_of` pre →
  concat (find_inner_step (groups, cur, in_inner) x).1.1
    ++ (find_inner_step (groups, cur, in_inner) x).1.2 `sublist_of` pre ++ [x].
Proof.
  intros Hsub. unfold find_inner_step. destruct x as [ln txt].
  assert (Hg : concat groups `sublist_of` pre).
  { etrans; [|exact Hsub]. apply sublist_inserts_r. done. }
  repeat case_match; simpl.
  all: try (apply sublist_app; [done|done]).
  all: try (by apply sublist_inserts_r).
  all: first [ rewrite app_assoc; by apply sublist_app
             | rewrite concat_app; simpl; rewrite !app_nil_r, app_assoc; by apply sublist_app ].
Qed.

Lemma find_inner_fold_sublist content (st : group_state) pre :
  concat st.1.1 ++ st.1.2 `sublist_of` pre →
  concat (foldl find_inner_step st content).1.1 `sublist_of` pre ++ content.
Proof.
  revert st pre. induction content as [|x content IH]; intros [[groups cur] in_inner] pre Hsub.
  - simpl in *. rewrite app_nil_r. etrans; [|exact Hsub]. by apply sublist_inserts_r.
  - simpl foldl. replace (pre ++ x :: content) with ((pre ++ [x]) ++ content)
      by (by rewrite <- app_assoc).
    apply IH. by apply find_inner_step_sublist.
Qed.

Lemma slice_inner_sublist {A} (l : list A) : slice_inner l `sublist_of` l.
Proof.
  unfold slice_inner. rewrite removelast_firstn_len.
  etrans; [apply sublist_take|apply sublist_drop].
Qed.

Lemma find_inner_box_groups_sublist box :
  concat (find_inner_box_groups box) `sublist_of` box_lines box.
Proof.
  unfold find_inner_box_groups.
  destruct (slice_inner (box_lines box)) as [|x content] eqn:E; [apply sublist_nil_l|].
  etrans; [|apply (slice_inner_sublist (box_lines box))]. rewrite E.
  apply (find_inner_fold_sublist (x :: content) ([], [], false) []). done.
Qed.

(** ** One member line against its reference *)

Lemma check_member_line ref_ln ref_cols ln txt e :
  check_member ref_ln ref_cols (ln, txt) = Some e → err_line e = ln.
Proof.
  unfold check_member. intros H. repeat case_match; simplify_option_eq; try done.
  all: repeat case_match; simplify_eq; done.
Qed.

(** With equal counts, the member is reported at the first column that
    differs from the reference, and not at all when none differs. *)
Lemma check_member_equal_count ref_ln ref_cols ln txt :
  let cur_cols := (get_border_positions txt true).*1 in
  len cur_cols = len ref_cols →
  (cur_cols = ref_cols ∧ check_member ref_ln ref_cols (ln, txt) = None)
  ∨ (∃ (j : nat) rc cc,
       ref_cols !! j = Some rc ∧ cur_cols !! j = Some cc ∧ rc ≠ cc
       ∧ (∀ k : nat, (k < j)%nat → ref_cols !! k = cur_cols !! k)
       ∧ check_member ref_ln ref_cols (ln, txt) = Some (ln, cc, rc, ref_ln, txt)).
Proof.
  intros cur_cols Hlen. unfold check_member. fold cur_cols.
  destruct (decide (len cur_cols = len ref_cols)); [|done].
  assert (Hlen' : length cur_cols = length ref_cols) by (unfold len in Hlen; lia).
  destruct (list_find (λ p : Z * Z, p.1 ≠ p.2) (zip ref_cols cur_cols))
    as [[j [rc cc]]|] eqn:E; simpl.
  - right. apply list_find_Some in E as (Hj & Hne & Hfirst).
    apply lookup_zip_Some in Hj as [Hr Hc]. exists j, rc, cc.
    split_and!; try done. intros k Hk.
    destruct (ref_cols !! k) as [r|] eqn:Er.
    + destruct (cur_cols !! k) as [c|] eqn:Ec.
      * assert (Hz : zip ref_cols cur_cols !! k = Some (r, c)) by (by apply lookup_zip_Some).
        specialize (Hfirst k (r, c) Hz Hk). simpl in Hfirst.
        destruct (decide (r = c)) as [->|]; [done|]. by destruct Hfirst.
      * apply lookup_lt_Some in Er. apply lookup_ge_None in Ec. lia.
    + apply lookup_ge_None in Er. symmetry. apply lookup_ge_None. lia.
  - left. split; [|done]. apply list_find_None in E. rewrite Forall_forall in E.
    apply list_eq_same_length with (length ref_cols); [done|done|].
    intros i c r Hi Hc Hr. specialize (E (r, c)). simpl in E.
    destruct (decide (r = c)) as [|Hne]; [done|]. destruct E; [|done].
    apply list_elem_of_lookup. exists i. by apply lookup_zip_Some.
Qed.

#[local] Arguments check_member : simpl never.

Lemma check_group_lines (group : Group) :
  err_line <$> check_group group `sublist_of` group.*1.
Proof.
  unfold check_group. destruct (decide _); [apply sublist_nil_l|].
  destruct group as [|[ref_ln ref_txt] members]; [done|].
  simpl. apply sublist_cons. clear n.
  induction members as [|[ln txt] members IH]; [done|]. simpl.
  destruct (check_member _ _ (ln, txt)) as [e|] eqn:E; simpl.
  - rewrite (check_member_line _ _ _ _ _ E). by apply sublist_skip.
  - by apply sublist_cons.
Qed.

Lemma check_inner_alignment_lines box :
  err_line <$> check_inner_alignment box `sublist_of` (box_lines box).*1.
Proof.
  etrans; [|apply fmap_sublist, find_inner_box_groups_sublist].
  unfold check_inner_alignment.
  induction (find_inner_box_groups box) as [|g gs IH]; [done|].
  simpl. rewrite !fmap_app. apply sublist_app; [apply check_group_lines|apply IH].
Qed.

Lemma elem_of_check_inner_alignment box e :
  e ∈ check_inner_alignment box ↔
  ∃ ref_ln ref_txt members m,
    ((ref_ln, ref_txt) :: members) ∈ find_inner_box_groups box ∧ m ∈ members
    ∧ check_member ref_ln (get_border_positions ref_txt true).*1 m = Some e.
Proof.
  unfold check_inner_alignment. rewrite list_elem_of_bind. split.
  - intros (g & He & Hg). unfold check_group in He.
    destruct (decide _); [by apply elem_of_nil in He|].
    destruct g as [|[ref_ln ref_txt] members]; [by apply elem_of_nil in He|].
    apply list_elem_of_omap in He as (m & Hm & He). by exists ref_ln, ref_txt, members, m.
  - intros (ref_ln & ref_txt & members & m & Hg & Hm & He).
    exists ((ref_ln, ref_txt) :: members). split; [|done].
    unfold check_group. destruct (decide _) as [Hlt|_].
    + destruct members; [by apply elem_of_nil in Hm|].
      unfold len in Hlt. simpl in Hlt. lia.
    + apply list_elem_of_omap. by exists m.
Qed.

(** C7: in a box returned by [find_boxes] (1-based range),
    [check_inner_alignment] reports at most one error per line; its errors
    are the results of the member check on the non-reference lines of the
    groups; and a member whose count of border columns equals the
    reference's is reported at the first column, left to right, that
    differs from the reference column (with that column and the reference
    column in the record), and not reported when no column differs. *)
Theorem inner_alignment_first_mismatch_only lines start_line end_line boxes b :
  1 ≤ start_line →
  find_boxes lines start_line end_line = Ok boxes →
  b ∈ boxes →
  NoDup (err_line <$> check_inner_alignment b)
  ∧ (∀ e, e ∈ check_inner_alignment b ↔
       ∃ ref_ln ref_txt members m,
         ((ref_ln, ref_txt) :: members) ∈ find_inner_box_groups b ∧ m ∈ members
         ∧ check_member ref_ln (get_border_positions ref_txt true).*1 m = Some e)
  ∧ (∀ ref_ln ref_txt members ln txt,
       ((ref_ln, ref_txt) :: members) ∈ find_inner_box_groups b →
       (ln, txt) ∈ members →
       let ref_cols := (get_border_positions ref_txt true).*1 in
       let cur_cols := (get_border_positions txt true).*1 in
       len cur_cols = len ref_cols →
       (cur_cols = ref_cols ∧ check_member ref_ln ref_cols (ln, txt) = None)
       ∨ (∃ (j : nat) rc cc,
            ref_cols !! j = Some rc ∧ cur_cols !! j = Some cc ∧ rc ≠ cc
            ∧ (∀ k : nat, (k < j)%nat → ref_cols !! k = cur_cols !! k)
            ∧ check_member ref_ln ref_cols (ln, txt) = Some (ln, cc, rc, ref_ln, txt)
            ∧ (ln, cc, rc, ref_ln, txt) ∈ check_inner_alignment b)).
Proof.
  intros Hs Hfind Hb.
  destruct (find_boxes_spans lines start_line end_line Hs) as (boxes' & Hfind' & Hall).
  rewrite Hfind in Hfind'. injection Hfind' as <-.
  rewrite Forall_forall in Hall.
  destruct (Hall b Hb) as (lo & hi & (_ & _ & _ & _ & Hlines) & _).
  split_and!.
  - eapply sublist_NoDup; [|apply check_inner_alignment_lines].
    rewrite Hlines. apply numbered_NoDup.
  - apply elem_of_check_inner_alignment.
  - intros ref_ln ref_txt members ln txt Hg Hm ref_cols cur_cols Hlen.
    destruct (check_member_equal_count ref_ln ref_cols ln txt Hlen)
      as [?|(j & rc & cc & ? & ? & ? & ? & Hc)]; [by left|right].
    exists j, rc, cc. split_and!; try done.
    apply elem_of_check_inner_alignment. by exists ref_ln, ref_txt, members, (ln, txt).
Qed.

Lemma scenario_B_errors :
  check_inner_alignment box_B
  = [(3, 3, 2, 2, u8 "│  │ x  │    │"); (4, 3, 2, 2, u8 "│  └────┘    │")].
Proof. vm_compute. done. Qed.

Lemma inner_alignment_first_mismatch_only_witness :
  NoDup (err_line <$> check_inner_alignment box_B)
  ∧ (∀ e, e ∈ check_inner_alignment box_B ↔
       ∃ ref_ln ref_txt members m,
         ((ref_ln, ref_txt) :: members) ∈ find_inner_box_groups box_B ∧ m ∈ members
         ∧ check_member ref_ln (get_border_positions ref_txt true).*1 m = Some e)
  ∧ (∀ ref_ln ref_txt members ln txt,
       ((ref_ln, ref_txt) :: members) ∈ find_inner_box_groups box_B →
       (ln, txt) ∈ members →
       let ref_cols := (get_border_positions ref_txt true).*1 in
       let cur_cols := (get_border_positions txt true).*1 in
       len cur_cols = len ref_cols →
       (cur_cols = ref_cols ∧ check_member ref_ln ref_cols (ln, txt) = None)
       ∨ (∃ (j : nat) rc cc,
            ref_cols !! j = Some rc ∧ cur_cols !! j = Some cc ∧ rc ≠ cc
            ∧ (∀ k : nat, (k < j)%nat → ref_cols !! k = cur_cols !! k)
            ∧ check_member ref_ln ref_cols (ln, txt) = Some (ln, cc, rc, ref_ln, txt)
            ∧ (ln, cc, rc, ref_ln, txt) ∈ check_inner_alignment box_B)).
Proof.
  apply (inner_alignment_first_mismatch_only scenario_B 1 5 [box_B] box_B).
  - lia.
  - vm_compute. reflexivity.
  - apply list_elem_of_here.
Defined.

(** ** A box that is opened and not closed *)

Lemma startswith_top_not_bottom s :
  startswith s TOP_LEFT = true → startswith s BOTTOM_LEFT = false.
Proof.
  destruct s as [|c s]; [done|]. simpl. intros Hc%bool_decide_eq_true.
  apply bool_decide_eq_false. revert Hc. unfold TOP_LEFT, BOTTOM_LEFT. set_unfold.
  intros H H'. destruct_or!; subst; done.
Qed.

(** While a box stays open and no line starts with a bottom-left corner,
    the loop of [find_boxes] emits nothing. *)
Lemma find_boxes_step_open lines a k boxes cb :
  0 ≤ a → a ≤ k < len lines →
  startswith (lstrip (line_at lines k)) BOTTOM_LEFT = false →
  scan_inv lines a k (boxes, Some cb) →
  ∃ cb', find_boxes_step lines (boxes, Some cb) k = Ok (boxes, Some cb')
         ∧ scan_inv lines a (k + 1) (boxes, Some cb').
Proof.
  intros Ha Hk Hbot Hinv.
  destruct (find_boxes_step_inv lines a k _ Ha Hk Hinv) as (st' & Hstep & Hinv').
  pose proof Hstep as Hstep0.
  unfold find_boxes_step in Hstep. rewrite py_getitem_line_at in Hstep by lia.
  simpl in Hstep. rewrite Hbot in Hstep. injection Hstep as <-. eauto.
Qed.

Lemma check_outer_width_lines b errs ln w expected txt :
  check_outer_width b = Ok errs → (ln, w, expected, txt) ∈ errs → (ln, txt) ∈ box_lines b.
Proof.
  unfold check_outer_width. destruct (py_getitem (box_lines b) 0); [|done]. simpl.
  intros [= <-] ([ln' txt'] & Hin & He)%list_elem_of_omap.
  destruct (decide _); [|done]. by injection He as -> _ _ ->.
Qed.

(** C6: in a 1-based range, when the line at index [i] (line number
    [i + 1]) starts, after left-trimming, with a top-left corner and no
    later line of the range starts with a bottom-left corner, [find_boxes]
    does not raise and every line of every box it returns has a number
    below [i + 1]; hence neither [check_outer_width] nor
    [check_inner_alignment] reports a line from [i + 1] on. *)
Theorem unterminated_box_dropped lines start_line end_line i :
  1 ≤ start_line →
  start_line - 1 ≤ i < Z.min end_line (len lines) →
  startswith (lstrip (line_at lines i)) TOP_LEFT = true →
  (∀ j, i < j < Z.min end_line (len lines) →
        startswith (lstrip (line_at lines j)) BOTTOM_LEFT = false) →
  ∃ boxes, find_boxes lines start_line end_line = Ok boxes
    ∧ (∀ b ln txt, b ∈ boxes → (ln, txt) ∈ box_lines b → ln ≤ i)
    ∧ (∀ b errs ln w expected txt, b ∈ boxes → check_outer_width b = Ok errs →
         (ln, w, expected, txt) ∈ errs → ln ≤ i)
    ∧ (∀ b e, b ∈ boxes → e ∈ check_inner_alignment b → err_line e ≤ i).
Proof.
  intros Hs Hi Htop Hnobot. unfold find_boxes.
  set (a := start_line - 1) in *. set (b := Z.min end_line (len lines)) in *.
  assert (Hb : b ≤ len lines) by (unfold b; lia).
  rewrite (py_range_split a i b), (py_range_cons i b) by lia.
  rewrite for_each_app.
  destruct (for_each_range_total (find_boxes_step lines)
              (λ k st, a ≤ k ∧ scan_inv lines a k st) a i) with (st := ([], None) : scan_state)
    as ([boxes1 cur1] & -> & _ & Hinv1).
  { intros k st Hk [_ Hinv].
    destruct (find_boxes_step_inv lines a k st) as (st' & ? & ?); [lia|lia|done|].
    exists st'. split; [done|]. split; [lia|done]. }
  { lia. }
  { split; [lia|]. split; simpl; [constructor|done]. }
  simpl.
  assert (∃ cb, find_boxes_step lines (boxes1, cur1) i = Ok (boxes1, Some cb)
                ∧ scan_inv lines a (i + 1) (boxes1, Some cb)) as (cb & -> & Hinv2).
  { destruct cur1 as [cb|].
    - apply find_boxes_step_open; [lia|lia| |done]. by apply startswith_top_not_bottom.
    - destruct (find_boxes_step_inv lines a i _ ltac:(lia) ltac:(lia) Hinv1)
        as (st' & Hstep & Hinv').
      pose proof Hstep as Hstep0.
      unfold find_boxes_step in Hstep. rewrite py_getitem_line_at in Hstep by lia.
      simpl in Hstep. rewrite Htop in Hstep. injection Hstep as <-. eauto. }
  simpl.
  destruct (for_each_range_total (find_boxes_step lines)
              (λ k st, i < k ∧ st.1 = boxes1 ∧ is_Some st.2 ∧ scan_inv lines a k st) (i + 1) b)
    with (st := (boxes1, Some cb) : scan_state)
    as ([boxes2 cur2] & -> & _ & Hboxes & _).
  { intros k [bs cur] Hk (Hik & Hbs & [cb' Hcur] & Hinv). simpl in *. subst bs cur.
    destruct (find_boxes_step_open lines a k boxes1 cb') as (cb'' & -> & Hinv');
      [lia|lia|apply Hnobot; lia|done|].
    eexists. split; [done|]. split_and!; simpl; [lia|done|eauto|done]. }
  { lia. }
  { split_and!; simpl; [lia|done|eauto|done]. }
  simpl in *. subst boxes2. exists boxes1. split; [done|].
  assert (Hlines : ∀ b0 ln txt, b0 ∈ boxes1 → (ln, txt) ∈ box_lines b0 → ln ≤ i).
  { intros b0 ln txt Hb0 Hin. destruct Hinv1 as [Hall _]. simpl in Hall.
    rewrite Forall_forall in Hall.
    destruct (Hall b0 Hb0) as (lo & hi & (_ & _ & _ & _ & Hl) & _ & Hhi).
    rewrite Hl in Hin. apply elem_of_numbered in Hin. lia. }
  split_and!.
  - exact Hlines.
  - intros b0 errs ln w expected txt Hb0 Hc He.
    eapply Hlines; [exact Hb0|]. by eapply check_outer_width_lines.
  - intros b0 e Hb0 He.
    assert (Hin : err_line e ∈ (box_lines b0).*1).
    { eapply elem_of_sublist; [|apply check_inner_alignment_lines].
      apply list_elem_of_fmap. by exists e. }
    apply list_elem_of_fmap in Hin as ([ln txt] & -> & Hin). simpl. by eapply Hlines.
Qed.

Lemma open_ended_boxes :
  find_boxes open_ended 1 5
  = Ok [mkBox 1 4 [(1, u8 "┌──┐"); (2, u8 "│a│"); (3, u8 "└──┘")] (Some 3)].
Proof. vm_compute. done. Qed.

Lemma unterminated_box_dropped_witness :
  ∃ boxes, find_boxes open_ended 1 5 = Ok boxes
    ∧ (∀ b ln txt, b ∈ boxes → (ln, txt) ∈ box_lines b → ln ≤ 3)
    ∧ (∀ b errs ln w expected txt, b ∈ boxes → check_outer_width b = Ok errs →
         (ln, w, expected, txt) ∈ errs → ln ≤ 3)
    ∧ (∀ b e, b ∈ boxes → e ∈ check_inner_alignment b → err_line e ≤ 3).
Proof.
  apply (unterminated_box_dropped open_ended 1 5 3).
  - lia.
  - vm_compute. split; [discriminate|reflexivity].
  - vm_compute. reflexivity.
  - intros j Hj. change (Z.min 5 (len open_ended)) with 5 in Hj.
    assert (j = 4) as -> by lia. vm_compute. reflexivity.
Defined.

(** ** The fixers write lines in place *)

Lemma py_setitem_frame {A} (l l' : list A) i x (j : nat) :
  py_setitem l i x = Ok l' → py_index (len l) i ≠ Some j → l' !! j = l !! j.
Proof.
  intros (k & Hk & ->)%py_setitem_Ok_inv Hne.
  apply list_lookup_insert_ne. intros ->. done.
Qed.

Lemma len_eq_length {A B} (l : list A) (k : list B) : length l = length k → len l = len k.
Proof. unfold len. lia. Qed.

Lemma fix_inner_members_length tw ref_txt ref_cols members lines fixes :
  length (fix_inner_members tw ref_txt ref_cols members lines fixes).1 = length lines.
Proof.
  revert lines fixes. induction members as [|[ln txt] members IH]; intros lines fixes;
    simpl; [done|].
  destruct (realign_member tw ref_txt ref_cols txt) as [[rebuilt|]|]; [|apply IH|done].
  destruct (py_setitem lines (ln - 1) rebuilt) as [lines'|] eqn:E; [|done].
  rewrite IH. by eapply py_setitem_length.
Qed.

Lemma fix_inner_members_frame tw ref_txt ref_cols members lines fixes (j : nat) :
  (∀ ln, ln ∈ members.*1 → py_index (len lines) (ln - 1) ≠ Some j) →
  (fix_inner_members tw ref_txt ref_cols members lines fixes).1 !! j = lines !! j.
Proof.
  revert lines fixes. induction members as [|[ln txt] members IH]; intros lines fixes Hj;
    simpl; [done|].
  assert (Hrest : ∀ ln', ln' ∈ members.*1 → py_index (len lines) (ln' - 1) ≠ Some j).
  { intros ln' Hin. apply Hj. simpl. by right. }
  destruct (realign_member tw ref_txt ref_cols txt) as [[rebuilt|]|]; [|by apply IH|done].
  destruct (py_setitem lines (ln - 1) rebuilt) as [lines'|] eqn:E; [|done].
  rewrite IH.
  - eapply py_setitem_frame; [exact E|]. apply Hj. simpl. by left.
  - rewrite (len_eq_length lines' lines) by (by eapply py_setitem_length). exact Hrest.
Qed.

Lemma fix_inner_groups_length tw groups lines fixes :
  length (fix_inner_groups tw groups lines fixes).1 = length lines.
Proof.
  revert lines fixes. induction groups as [|g groups IH]; intros lines fixes; simpl; [done|].
  destruct (decide _); [apply IH|].
  destruct g as [|[ref_ln ref_txt] members]; [apply IH|].
  destruct ((get_border_positions ref_txt true).*1) as [|c0 cols] eqn:Ecols; [apply IH|].
  pose proof (fix_inner_members_length tw ref_txt (c0 :: cols) members lines fixes) as Hlen.
  destruct (fix_inner_members tw ref_txt (c0 :: cols) members lines fixes) as [lines' [nfix|e]];
    simpl in *; [|done].
  by rewrite IH.
Qed.

Lemma fix_inner_groups_frame tw groups lines fixes (j : nat) :
  (∀ ln, ln ∈ (concat groups).*1 → py_index (len lines) (ln - 1) ≠ Some j) →
  (fix_inner_groups tw groups lines fixes).1 !! j = lines !! j.
Proof.
  revert lines fixes. induction groups as [|g groups IH]; intros lines fixes Hj; simpl; [done|].
  assert (Hrest : ∀ ln, ln ∈ (concat groups).*1 → py_index (len lines) (ln - 1) ≠ Some j).
  { intros ln Hin. apply Hj. simpl. rewrite fmap_app. apply elem_of_app. by right. }
  assert (Hmem : ∀ ln, ln ∈ (tail g).*1 → py_index (len lines) (ln - 1) ≠ Some j).
  { intros ln Hin. apply Hj. simpl. rewrite fmap_app. apply elem_of_app. left.
    destruct g as [|m g]; [done|]. simpl in *. by right. }
  destruct (decide _); [by apply IH|].
  destruct g as [|[ref_ln ref_txt] members]; [by apply IH|].
  destruct ((get_border_positions ref_txt true).*1) as [|c0 cols] eqn:Ecols; [by apply IH|].
  pose proof (fix_inner_members_length tw ref_txt (c0 :: cols) members lines fixes) as Hlen.
  pose proof (fix_inner_members_frame tw ref_txt (c0 :: cols) members lines fixes j Hmem) as Hfr.
  destruct (fix_inner_members tw ref_txt (c0 :: cols) members lines fixes) as [lines' [nfix|e]];
    simpl in Hlen, Hfr |- *; [|done].
  rewrite IH; [done|].
  rewrite (len_eq_length lines' lines) by done. exact Hrest.
Qed.

Lemma fix_floating_step_length lines fixes skip i :
  length (fix_floating_step (lines, fixes) skip i).1 = length lines.
Proof.
  unfold fix_floating_step. repeat case_match; simpl; try done.
  by eapply py_setitem_length.
Qed.

Lemma fix_floating_step_frame lines fixes skip i (j : nat) :
  (i ∉ skip → py_index (len lines) i ≠ Some j) →
  (fix_floating_step (lines, fixes) skip i).1 !! j = lines !! j.
Proof.
  intros Hj. unfold fix_floating_step. repeat case_match; simpl; try done.
  eapply py_setitem_frame; [done|]. by apply Hj.
Qed.

#[local] Arguments fix_floating_step : simpl never.

Lemma fix_floating_loop_length skip rows lines fixes :
  length (fix_floating_loop skip rows lines fixes).1 = length lines.
Proof.
  revert lines fixes. induction rows as [|i rows IH]; intros lines fixes; simpl; [done|].
  pose proof (fix_floating_step_length lines fixes skip i) as Hlen.
  destruct (fix_floating_step (lines, fixes) skip i) as [lines' [nfix|e]]; simpl in *; [|done].
  by rewrite IH.
Qed.

Lemma fix_floating_loop_frame skip rows lines fixes (j : nat) :
  (∀ i, i ∈ rows → i ∉ skip → py_index (len lines) i ≠ Some j) →
  (fix_floating_loop skip rows lines fixes).1 !! j = lines !! j.
Proof.
  revert lines fixes. induction rows as [|i rows IH]; intros lines fixes Hj; simpl; [done|].
  pose proof (fix_floating_step_length lines fixes skip i) as Hlen.
  pose proof (fix_floating_step_frame lines fixes skip i j) as Hfr.
  destruct (fix_floating_step (lines, fixes) skip i) as [lines' [nfix|e]]; simpl in *.
  - rewrite IH.
    + apply Hfr. apply Hj. by left.
    + rewrite (len_eq_length lines' lines) by done. intros i' Hin. apply Hj. by right.
  - apply Hfr. apply Hj. by left.
Qed.

Lemma elem_of_in_box_indices boxes i :
  i ∈ in_box_indices boxes ↔ ∃ b ln, b ∈ boxes ∧ ln ∈ (box_lines b).*1 ∧ i = ln - 1.
Proof.
  unfold in_box_indices. rewrite elem_of_list_to_set, list_elem_of_bind. split.
  - intros (b & ([ln txt] & -> & Hin)%list_elem_of_fmap & Hb).
    exists b, ln. split_and!; [done| |done]. apply list_elem_of_fmap. by exists (ln, txt).
  - intros (b & ln & Hb & ([ln' txt] & -> & Hin)%list_elem_of_fmap & ->).
    exists b. split; [|done]. apply list_elem_of_fmap. by exists (ln', txt).
Qed.


(** ** The anchor search *)

(** First value of [range(a, b)] that satisfies [P]. *)
Lemma find_in_py_range (P : Z → Prop) `{!∀ x, Decision (P x)} a b :
  match snd <$> list_find P (py_range a b) with
  | Some k => a ≤ k < b ∧ P k ∧ ∀ k', a ≤ k' < k → ¬ P k'
  | None => ∀ k', a ≤ k' < b → ¬ P k'
  end.
Proof.
  remember (Z.to_nat (b - a)) as n eqn:Hn. revert a Hn.
  induction n as [|n IH]; intros a Hn.
  - rewrite py_range_nil by lia. simpl. intros k' Hk'. lia.
  - rewrite py_range_cons by lia. csimpl. destruct (decide (P a)) as [Ha|Ha]; simpl.
    + split; [lia|]. split; [done|]. intros k' Hk'. lia.
    + specialize (IH (a + 1) ltac:(lia)).
      destruct (list_find P (py_range (a + 1) b)) as [[idx k]|]; simpl in *.
      * destruct IH as (Hk & HP & Hmin). split; [lia|]. split; [done|].
        intros k' Hk'. destruct (decide (k' = a)) as [->|]; [done|]. apply Hmin. lia.
      * intros k' Hk'. destruct (decide (k' = a)) as [->|]; [done|]. apply IH. lia.
Qed.

Lemma scan_cols_spec chars lines col r :
  match scan_cols chars (line_at lines r) col with
  | Some k => 0 ≤ r < len lines → hit chars lines col r k
              ∧ ∀ k', hit chars lines col r k' → k ≤ k'
  | None => ∀ k', ¬ hit chars lines col r k'
  end.
Proof.
  unfold scan_cols.
  pose proof (find_in_py_range (λ c, char_at (line_at lines r) c ∈ chars)
                (Z.max 0 (col - 3)) (Z.min (len (line_at lines r)) (col + 4))) as H.
  destruct (snd <$> list_find _ _) as [k|].
  - destruct H as (Hk & HP & Hmin). intros Hr. split.
    + unfold hit. split_and!; try done; lia.
    + intros k' (_ & Hk' & Hw & Hc). destruct (decide (k ≤ k')); [done|].
      destruct (Hmin k'); [lia|done].
  - intros k' (_ & Hk' & Hw & Hc). apply (H k'); [lia|done].
Qed.

Lemma py_range_down_nil a b : a ≤ b → py_range_down a b = [].
Proof.
  intros H. unfold py_range_down, seqZ.
  replace (Z.to_nat (a - b)) with 0%nat by lia. done.
Qed.

Lemma py_range_down_cons a b : b < a → py_range_down a b = a :: py_range_down (a - 1) b.
Proof.
  intros H. unfold py_range_down. rewrite seqZ_cons by lia. csimpl.
  f_equal; [lia|].
  replace (Z.pred (a - b)) with (a - 1 - b) by lia.
  change (Z.succ 0) with (1 + 0). rewrite <- fmap_add_seqZ, <- list_fmap_compose.
  apply list_fmap_ext. intros ? k ?. simpl. lia.
Qed.

(** Rows above the glyph, from the nearest up: [range(a, b, -1)]. *)
Lemma scan_rows_down_range chars lines col a b :
  -1 ≤ b → a < len lines →
  match scan_rows chars lines col (py_range_down a b) with
  | Ok None => ∀ r k, b < r ≤ a → ¬ hit chars lines col r k
  | Ok (Some (r0, k0)) =>
    b < r0 ≤ a ∧ hit chars lines col r0 k0
    ∧ (∀ k, hit chars lines col r0 k → k0 ≤ k)
    ∧ ∀ r k, r0 < r ≤ a → ¬ hit chars lines col r k
  | Raise _ => False
  end.
Proof.
  intros Hb. remember (Z.to_nat (a - b)) as n eqn:Hn. revert a Hn.
  induction n as [|n IH]; intros a Hn Ha.
  - rewrite py_range_down_nil by lia. simpl. intros r k Hr. lia.
  - rewrite py_range_down_cons by lia. simpl.
    rewrite py_getitem_line_at by lia. simpl.
    pose proof (scan_cols_spec chars lines col a) as Hcols.
    destruct (scan_cols chars (line_at lines a) col) as [k0|].
    + destruct Hcols as [Hhit Hmin]; [lia|].
      split; [lia|]. split; [done|]. split; [done|]. intros r k Hr. lia.
    + specialize (IH (a - 1) ltac:(lia) ltac:(lia)).
      destruct (scan_rows chars lines col (py_range_down (a - 1) b)) as [[[r0 k0]|]|]; [| |done].
      * destruct IH as (Hr0 & Hhit & Hmin & Hnone). split; [lia|]. split; [done|].
        split; [done|]. intros r k Hr.
        destruct (decide (r = a)) as [->|]; [apply Hcols|apply Hnone; lia].
      * intros r k Hr. destruct (decide (r = a)) as [->|]; [apply Hcols|apply IH; lia].
Qed.

(** Rows below the glyph, from the nearest down: [range(a, b)]. *)
Lemma scan_rows_up_range chars lines col a b :
  0 ≤ a → b ≤ len lines →
  match scan_rows chars lines col (py_range a b) with
  | Ok None => ∀ r k, a ≤ r < b → ¬ hit chars lines col r k
  | Ok (Some (r0, k0)) =>
    a ≤ r0 < b ∧ hit chars lines col r0 k0
    ∧ (∀ k, hit chars lines col r0 k → k0 ≤ k)
    ∧ ∀ r k, a ≤ r < r0 → ¬ hit chars lines col r k
  | Raise _ => False
  end.
Proof.
  intros Ha Hb. remember (Z.to_nat (b - a)) as n eqn:Hn. revert a Ha Hn.
  induction n as [|n IH]; intros a Ha Hn.
  - rewrite py_range_nil by lia. simpl. intros r k Hr. lia.
  - rewrite py_range_cons by lia. simpl.
    rewrite py_getitem_line_at by lia. simpl.
    pose proof (scan_cols_spec chars lines col a) as Hcols.
    destruct (scan_cols chars (line_at lines a) col) as [k0|].
    + destruct Hcols as [Hhit Hmin]; [lia|].
      split; [lia|]. split; [done|]. split; [done|]. intros r k Hr. lia.
    + specialize (IH (a + 1) ltac:(lia) ltac:(lia)).
      destruct (scan_rows chars lines col (py_range (a + 1) b)) as [[[r0 k0]|]|]; [| |done].
      * destruct IH as (Hr0 & Hhit & Hmin & Hnone). split; [lia|]. split; [done|].
        split; [done|]. intros r k Hr.
        destruct (decide (r = a)) as [->|]; [apply Hcols|apply Hnone; lia].
      * intros r k Hr. destruct (decide (r = a)) as [->|]; [apply Hcols|apply IH; lia].
Qed.

Lemma scan_rows_ext chars (lines lines2 : list str) col rows :
  (∀ r, r ∈ rows → py_getitem lines2 r = py_getitem lines r) →
  scan_rows chars lines2 col rows = scan_rows chars lines col rows.
Proof.
  induction rows as [|r rows IH]; intros H; simpl; [done|].
  rewrite H by (by left). destruct (py_getitem lines r); simpl; [|done].
  destruct (scan_cols _ _ _); [done|]. apply IH. intros r' Hr'. apply H. by right.
Qed.

Lemma elem_of_py_range_down a b r : r ∈ py_range_down a b ↔ b < r ≤ a.
Proof.
  unfold py_range_down. rewrite list_elem_of_fmap. split.
  - intros (k & -> & Hk%elem_of_seqZ). lia.
  - intros Hr. exists (a - r). split; [lia|]. apply elem_of_seqZ. lia.
Qed.

Lemma py_getitem_take (lines lines2 : list str) (i r : Z) :
  take (Z.to_nat i) lines2 = take (Z.to_nat i) lines →
  0 ≤ r < i → py_getitem lines2 r = py_getitem lines r.
Proof.
  intros Htake Hr.
  assert (Hl : lines2 !! Z.to_nat r = lines !! Z.to_nat r).
  { rewrite <- (lookup_take_lt lines2 (Z.to_nat i)), <- (lookup_take_lt lines (Z.to_nat i))
      by lia. by rewrite Htake. }
  unfold py_getitem, py_index.
  destruct (decide (r < 0)); [lia|].
  destruct (lines !! Z.to_nat r) as [x|] eqn:E.
  - pose proof (lookup_lt_Some _ _ _ E). pose proof (lookup_lt_Some _ _ _ Hl).
    destruct (decide (0 ≤ r < len lines2)); [|unfold len in *; lia].
    destruct (decide (0 ≤ r < len lines)); [|unfold len in *; lia].
    simpl. by rewrite Hl, E.
  - pose proof (proj1 (lookup_ge_None _ _) E). pose proof (proj1 (lookup_ge_None _ _) Hl).
    destruct (decide (0 ≤ r < len lines2)); [unfold len in *; lia|].
    destruct (decide (0 ≤ r < len lines)); [unfold len in *; lia|]. done.
Qed.

(** C5: for a glyph at row [i] of the buffer and any column, the anchor
    search follows [anchor_search_order]: upward window first, the downward
    window only without an upward junction, the neighbour fallback only
    without a junction in either window. *)
Theorem anchor_search_up_then_down lines i col :
  0 ≤ i < len lines → anchor_search_order lines i col.
Proof.
  intros Hi. unfold anchor_search_order, get_closest_anchor.
  pose proof (scan_rows_down_range SEARCH_CHARS lines col (i - 1) (Z.max (-1) (i - 15))
                ltac:(lia) ltac:(lia)) as Hup.
  destruct (scan_rows SEARCH_CHARS lines col (py_range_down (i - 1) (Z.max (-1) (i - 15))))
    as [[[r0 k0]|]|] eqn:Eup; [| |done].
  - destruct Hup as (Hr0 & Hhit & Hmin & Hnone).
    assert (Hup0 : up_hit lines i col r0 k0) by (split; [lia|done]).
    split_and!.
    + intros _. exists r0, k0. simpl. split_and!; try done.
      * intros r k [Hr Hh]. destruct (decide (r < r0)); [by left|right].
        destruct (decide (r = r0)) as [->|]; [split; [done|by apply Hmin]|].
        destruct (Hnone r k); [|done]. lia.
      * intros lines2 Htake.
        rewrite (scan_rows_ext SEARCH_CHARS lines lines2 col
                   (py_range_down (i - 1) (Z.max (-1) (i - 15)))).
        { by rewrite Eup. }
        intros r Hr%elem_of_py_range_down. apply (py_getitem_take _ _ i); [done|lia].
    + intros Hno. by destruct (Hno r0 k0).
    + intros Hno. by destruct (Hno r0 k0).
  - simpl.
    assert (Hnoup : ∀ r k, ¬ up_hit lines i col r k).
    { intros r k [Hr Hh]. apply (Hup r k); [|done]. destruct Hh as [? _]. lia. }
    pose proof (scan_rows_up_range SEARCH_CHARS lines col (i + 1)
                  (Z.min (len lines) (i + 15)) ltac:(lia) ltac:(lia)) as Hdown.
    destruct (scan_rows SEARCH_CHARS lines col (py_range (i + 1) (Z.min (len lines) (i + 15))))
      as [[[r0 k0]|]|] eqn:Edown; [| |done].
    + destruct Hdown as (Hr0 & Hhit & Hmin & Hnone).
      assert (Hdown0 : down_hit lines i col r0 k0) by (split; [lia|done]).
      split_and!.
      * intros (r & k & Hh). by destruct (Hnoup r k).
      * intros _ _. exists r0, k0. simpl. split_and!; try done.
        intros r k [Hr Hh]. destruct (decide (r0 < r)); [by left|right].
        destruct (decide (r = r0)) as [->|]; [split; [done|by apply Hmin]|].
        destruct (Hnone r k); [|done]. lia.
      * intros _ Hno. by destruct (Hno r0 k0).
    + simpl. split_and!.
      * intros (r & k & Hh). by destruct (Hnoup r k).
      * intros _ (r & k & [Hr Hh]). destruct (Hdown r k); [|done].
        destruct Hh as [? _]. lia.
      * done.
Qed.

Lemma scenario_C_anchor : get_closest_anchor scenario_C 2 5 = Ok (Some (0, 7)).
Proof. vm_compute. done. Qed.

Lemma anchor_search_up_then_down_witness : anchor_search_order scenario_C 2 5.
Proof. apply (anchor_search_up_then_down scenario_C 2 5). vm_compute. split; [discriminate|reflexivity]. Defined.

(** ** Floating verticals: where the glyphs and the anchors come from *)

Lemma scan_cols_window chars line col k :
  scan_cols chars line col = Some k →
  0 ≤ k < len line ∧ col - 3 ≤ k ≤ col + 3 ∧ char_at line k ∈ chars.
Proof.
  unfold scan_cols.
  pose proof (find_in_py_range (λ c, char_at line c ∈ chars)
                (Z.max 0 (col - 3)) (Z.min (len line) (col + 4))) as H.
  destruct (snd <$> list_find _ _) as [k'|]; [|done].
  intros [= ->]. destruct H as (Hk & HP & _). split_and!; try done; lia.
Qed.

Lemma scan_rows_Some chars lines col rows r k :
  scan_rows chars lines col rows = Ok (Some (r, k)) →
  r ∈ rows ∧ ∃ line, py_getitem lines r = Ok line ∧ scan_cols chars line col = Some k.
Proof.
  induction rows as [|r0 rows IH]; simpl; [done|].
  destruct (py_getitem lines r0) as [line|] eqn:E; simpl; [|done].
  destruct (scan_cols chars line col) as [k0|] eqn:Ec.
  - intros [= -> ->]. split; [by left|]. by exists line.
  - intros [Hin Hl]%IH. split; [by right|done].
Qed.

(** Whatever the boxes and the range, an anchor lies within 14 rows and 3
    columns of its glyph, on another row. *)
Lemma get_closest_anchor_window lines i col r k :
  get_closest_anchor lines i col = Ok (Some (r, k)) →
  i - 14 ≤ r ≤ i + 14 ∧ r ≠ i ∧ col - 3 ≤ k ≤ col + 3.
Proof.
  unfold get_closest_anchor.
  destruct (scan_rows SEARCH_CHARS lines col (py_range_down _ _)) as [[a|]|] eqn:Eup;
    simpl; [| |done].
  { intros [= ->]. apply scan_rows_Some in Eup as [Hr%elem_of_py_range_down (l & _ & Hk)].
    apply scan_cols_window in Hk. lia. }
  destruct (scan_rows SEARCH_CHARS lines col (py_range _ _)) as [[a|]|] eqn:Edown;
    simpl; [| |done].
  { intros [= ->]. apply scan_rows_Some in Edown as [Hr%elem_of_py_range (l & _ & Hk)].
    apply scan_cols_window in Hk. lia. }
  intros [Hr (l & _ & Hk)]%scan_rows_Some. apply scan_cols_window in Hk.
  unfold fallback_rows in Hr. apply list_elem_of_filter in Hr as [_ Hr].
  set_unfold. destruct_or!; subst; lia.
Qed.

Lemma misplaced_glyphs_spec lines i cells found :
  misplaced_glyphs lines i cells = Ok found →
  ∀ c ch anchor_r anchor_c, (c, ch, anchor_r, anchor_c) ∈ found →
    (c, ch) ∈ cells ∧ ch ∈ FLOATING_CHARS
    ∧ get_closest_anchor lines i c = Ok (Some (anchor_r, anchor_c)) ∧ anchor_c ≠ c.
Proof.
  revert found. induction cells as [|[c0 ch0] cells IH]; intros found; simpl.
  { intros [= <-] ???? Hin. by apply elem_of_nil in Hin. }
  destruct (decide (ch0 ∈ FLOATING_CHARS)) as [Hfl|Hfl].
  - destruct (get_closest_anchor lines i c0) as [a|] eqn:Ea; simpl; [|done].
    destruct (misplaced_glyphs lines i cells) as [more|]; simpl; [|done].
    assert (Hmore : ∀ c ch anchor_r anchor_c, (c, ch, anchor_r, anchor_c) ∈ more →
              (c, ch) ∈ (c0, ch0) :: cells ∧ ch ∈ FLOATING_CHARS
              ∧ get_closest_anchor lines i c = Ok (Some (anchor_r, anchor_c)) ∧ anchor_c ≠ c).
    { intros c ch ar ac Hin. destruct (IH more eq_refl c ch ar ac Hin) as (? & ? & ? & ?).
      split_and!; try done. by right. }
    destruct a as [[ar0 ac0]|]; [|by intros [= <-]].
    destruct (decide (ac0 ≠ c0)); [|by intros [= <-]].
    intros [= <-] c ch ar ac [[= -> -> -> ->]|Hin]%elem_of_cons; [|by apply Hmore].
    split_and!; try done. by left.
  - intros Hm c ch ar ac Hin. destruct (IH found Hm c ch ar ac Hin) as (? & ? & ? & ?).
    split_and!; try done. by right.
Qed.

Lemma check_floating_step_origin lines boxes start_line end_line errors i errors' :
  start_line - 1 ≤ i < Z.min end_line (len lines) →
  Forall (floating_error_origin lines boxes start_line end_line) errors →
  check_floating_step lines (in_box_indices boxes) errors i = Ok errors' →
  Forall (floating_error_origin lines boxes start_line end_line) errors'.
Proof.
  intros Hi Herrs. unfold check_floating_step.
  destruct (decide (i ∈ in_box_indices boxes)) as [|Hout]; [by intros [= <-]|].
  destruct (py_getitem lines i) as [line|] eqn:Eline; simpl; [|done].
  destruct (misplaced_glyphs lines i (enumerate line)) as [found|] eqn:Efound; simpl; [|done].
  intros [= <-]. apply Forall_app. split; [done|].
  apply Forall_forall. intros err ([[[c ch] ar] ac] & -> & Hin)%list_elem_of_fmap.
  destruct (misplaced_glyphs_spec _ _ _ _ Efound c ch ar ac Hin) as (? & ? & Ha & ?).
  destruct (get_closest_anchor_window _ _ _ _ _ Ha) as (? & _ & ?).
  exists i, c, ch, line, ar, ac. split_and!; try done; lia.
Qed.

(** C10: every error of [check_floating_verticals] concerns a floating
    glyph on a row of the requested range that belongs to no box, with the
    anchor that [get_closest_anchor] finds in the whole buffer;
    [fix_floating_verticals] leaves every other row as it is; and the
    anchor itself may lie on a box line (line 2 of [below_box], for the
    glyph on line 3) or outside the requested range (again line 2, when
    only line 3 is requested). *)
Theorem floating_anchor_from_whole_buffer lines boxes start_line end_line errs :
  check_floating_verticals lines boxes start_line end_line = Ok errs →
  Forall (floating_error_origin lines boxes start_line end_line) errs
  ∧ (∀ j : nat,
       (∀ i, start_line - 1 ≤ i < Z.min end_line (len lines) →
             i ∉ in_box_indices boxes → py_index (len lines) i ≠ Some j) →
       (fix_floating_verticals lines boxes start_line end_line).1 !! j = lines !! j)
  ∧ (find_boxes below_box 1 3 = Ok [the_box_above]
     ∧ bool_decide (1 ∈ in_box_indices [the_box_above]) = true
     ∧ get_closest_anchor below_box 2 4 = Ok (Some (1, 3))
     ∧ check_floating_verticals below_box [the_box_above] 1 3
       = Ok [(3, 4, 3, 2, u8 "    │")]
     ∧ fix_floating_verticals below_box [the_box_above] 1 3
       = ([u8 "┌──┬──┐"; u8 "└──┴──┘"; u8 "   │"], Ok 1))
  ∧ (find_boxes below_box 3 3 = Ok []
     ∧ check_floating_verticals below_box [] 3 3 = Ok [(3, 4, 3, 2, u8 "    │")]
     ∧ fix_floating_verticals below_box [] 3 3
       = ([u8 "┌──┬──┐"; u8 "└──┴──┘"; u8 "   │"], Ok 1)).
Proof.
  intros Hcheck. split_and!.
  - unfold check_floating_verticals in Hcheck.
    set (a := start_line - 1) in *. set (b := Z.min end_line (len lines)) in *.
    destruct (decide (a ≤ b)) as [Hab|Hab].
    + apply (for_each_range_inv (check_floating_step lines (in_box_indices boxes))
               (λ _ errors, Forall (floating_error_origin lines boxes start_line end_line) errors)
               a b) with (st := []); [|done|constructor|done].
      intros k st st' Hk Hst Hstep.
      by apply (check_floating_step_origin lines boxes start_line end_line st k st').
    + rewrite py_range_nil in Hcheck by lia. injection Hcheck as <-. constructor.
  - intros j Hj. apply fix_floating_loop_frame. intros i Hi. apply Hj.
    by apply elem_of_py_range.
  - vm_compute. done.
  - vm_compute. done.
  - vm_compute. done.
  - vm_compute. done.
  - vm_compute. done.
  - vm_compute. done.
  - vm_compute. done.
  - vm_compute. done.
Qed.

Lemma floating_anchor_from_whole_buffer_witness :
  Forall (floating_error_origin below_box [the_box_above] 1 3) [(3, 4, 3, 2, u8 "    │")].
Proof.
  apply (floating_anchor_from_whole_buffer below_box [the_box_above] 1 3
           [(3, 4, 3, 2, u8 "    │")]).
  vm_compute. reflexivity.
Defined.

(** * Further properties of the core *)

(** ** [find_boxes]: when it raises *)

Lemma py_getitem_in_range {A} (l : list A) i :
  - len l ≤ i < len l → ∃ x, py_getitem l i = Ok x.
Proof.
  intros Hi. unfold py_getitem, py_index.
  destruct (decide (i < 0)).
  - destruct (decide (0 ≤ i + len l < len l)) as [Hj|]; [|lia]. simpl.
    destruct (lookup_lt_is_Some_2 l (Z.to_nat (i + len l))) as [x ->]; [unfold len in *; lia|].
    eauto.
  - destruct (decide (0 ≤ i < len l)) as [Hj|]; [|lia]. simpl.
    destruct (lookup_lt_is_Some_2 l (Z.to_nat i)) as [x ->]; [unfold len in *; lia|].
    eauto.
Qed.

Lemma py_getitem_out_of_range {A} (l : list A) i :
  i < - len l ∨ len l ≤ i → py_getitem l i = Raise IndexError.
Proof.
  intros Hi. unfold py_getitem, py_index. pose proof (len_nonneg l).
  destruct (decide (i < 0)).
  - destruct (decide (0 ≤ i + len l < len l)); [lia|done].
  - destruct (decide (0 ≤ i < len l)); [lia|done].
Qed.

Lemma find_boxes_step_Ok lines st i line :
  py_getitem lines i = Ok line → ∃ st', find_boxes_step lines st i = Ok st'.
Proof.
  intros H. unfold find_boxes_step. rewrite H. simpl.
  destruct st as [boxes [cb|]]; destruct (startswith _ _); eauto.
Qed.

Lemma for_each_total_on {S A} (f : S → A → result S) l :
  (∀ st x, x ∈ l → ∃ st', f st x = Ok st') → ∀ st, ∃ st', for_each f st l = Ok st'.
Proof.
  induction l as [|x l IH]; intros H st; simpl; [eauto|].
  destruct (H st x) as [st1 ->]; [by left|]. simpl.
  apply IH. intros st2 y Hy. apply H. by right.
Qed.

(** X1: [find_boxes] raises exactly when its range is not empty and starts
    more than [len(lines)] lines before the first line; it then raises
    [IndexError]. In every other case, also for a start of zero or below
    that Python reads from the end of the buffer, it returns boxes. *)
Theorem find_boxes_raises_exactly (lines : list str) (start_line end_line : Z) :
  if decide (start_line - 1 < Z.min end_line (len lines) ∧ start_line - 1 < - len lines)
  then find_boxes lines start_line end_line = Raise IndexError
  else ∃ boxes, find_boxes lines start_line end_line = Ok boxes.
Proof.
  unfold find_boxes.
  set (a := start_line - 1). set (b := Z.min end_line (len lines)).
  destruct (decide (a < b ∧ a < - len lines)) as [[Hab Ha]|Hno].
  - rewrite py_range_cons by lia.
    assert (Hstep : find_boxes_step lines ([], None) a = Raise IndexError).
    { unfold find_boxes_step. by rewrite py_getitem_out_of_range by lia. }
    cbn [for_each]. by rewrite Hstep.
  - destruct (for_each_total_on (find_boxes_step lines) (py_range a b)) with (st := ([], None) : scan_state)
      as [st' ->].
    + intros st i Hi%elem_of_py_range.
      destruct (py_getitem_in_range lines i) as [line Hl]; [unfold b in *; lia|].
      by eapply find_boxes_step_Ok.
    + simpl. eauto.
Qed.

(** ** [find_boxes]: complete description of the result *)

Lemma find_boxes_step_chain lines a k st :
  0 ≤ a → a ≤ k < len lines → chain_inv lines a k st →
  ∃ st', find_boxes_step lines st k = Ok st' ∧ chain_inv lines a (k + 1) st'.
Proof.
  intros Ha Hk (m & Hchain & Hm & Hcur). destruct st as [boxes cur]. simpl in *.
  unfold find_boxes_step. rewrite py_getitem_line_at by lia. simpl.
  fold (starts_top lines k). fold (starts_bottom lines k).
  destruct cur as [cb|].
  - destruct Hcur as (lo & Hlo & Hgap & Htop & (H0 & Hhi & Hs & Hw & Hl) & Hnobot).
    assert (Hspan : ∀ e, box_spans lines
              (mkBox (box_start cb) (box_width cb)
                 (box_lines cb ++ [(k + 1, line_at lines k)]) e) lo (k + 1)).
    { intros e. split_and!; simpl; try done; try lia.
      rewrite Hl. symmetry. apply numbered_snoc. lia. }
    destruct (starts_bottom lines k) eqn:Ebot.
    + eexists. split; [done|]. exists (k + 1). simpl.
      split; [|split; [lia|intros j Hj; lia]].
      apply (chain_snoc lines a boxes m _ lo (k + 1)); [exact Hchain|lia|exact Hgap|].
      split; [apply Hspan|]. split; [lia|]. split; [done|]. split; [done|].
      split; [by replace (k + 1 - 1) with k by lia|].
      intros j Hj. apply Hnobot. lia.
    + eexists. split; [done|]. exists m. simpl.
      split; [done|]. split; [lia|].
      exists lo. split; [lia|]. split; [done|]. split; [done|]. split; [apply Hspan|].
      intros j Hj. destruct (decide (j = k)) as [->|]; [done|]. apply Hnobot. lia.
  - destruct (starts_top lines k) eqn:Etop.
    + eexists. split; [done|]. exists m. simpl.
      split; [done|]. split; [lia|].
      exists k. split; [lia|]. split; [done|]. split; [done|]. split.
      * split; [lia|]. split; [lia|]. simpl. split; [done|]. split; [done|].
        symmetry. apply numbered_one.
      * intros j Hj. lia.
    + eexists. split; [done|]. exists m. simpl.
      split; [done|]. split; [lia|].
      intros j Hj. destruct (decide (j = k)) as [->|]; [done|]. apply Hcur. lia.
Qed.

Lemma find_boxes_chain_holds (lines : list str) (start_line end_line : Z) :
  1 ≤ start_line →
  ∃ boxes m,
    find_boxes lines start_line end_line = Ok boxes
    ∧ boxes_chain lines (start_line - 1) boxes m
    ∧ m ≤ Z.max (start_line - 1) (Z.min end_line (len lines))
    ∧ scan_tail lines m (Z.max (start_line - 1) (Z.min end_line (len lines))).
Proof.
  intros Hs. unfold find_boxes.
  set (a := start_line - 1). set (b := Z.min end_line (len lines)).
  destruct (decide (a ≤ b)) as [Hab|Hab].
  - destruct (for_each_range_total (find_boxes_step lines)
                (λ k st, chain_inv lines a k st) a b) with (st := ([], None) : scan_state)
      as ([boxes cur] & -> & (m & Hchain & Hm & Hcur)).
    + intros k st Hk Hinv. apply find_boxes_step_chain; [lia|unfold b in *; lia|done].
    + done.
    + exists a. simpl. split_and!; [constructor|lia|lia|]. intros j Hj. lia.
    + simpl in *. exists boxes, m. rewrite Z.max_r by lia. split_and!; try done; try lia.
      destruct cur as [cb|]; [right|by left].
      destruct Hcur as (lo & ? & ? & ? & _ & ?). by exists lo.
  - rewrite py_range_nil by lia. simpl. exists [], a. rewrite Z.max_l by lia.
    split_and!; [done|constructor|lia|]. left. intros j Hj. lia.
Qed.

(** X2: for a 1-based range, [find_boxes] returns exactly the boxes of a
    left-to-right pairing: each box opens on the first line, after the end
    of the previous box, that starts with a top-left corner, and closes on
    the first later line that starts with a bottom-left corner; it holds
    the buffer lines in between with their numbers, its width is the raw
    length of its opening line, and after the last box the range holds no
    top-left line or one that is never closed. *)
Theorem find_boxes_chain (lines : list str) (start_line end_line : Z) :
  1 ≤ start_line →
  ∃ boxes m,
    find_boxes lines start_line end_line = Ok boxes
    ∧ boxes_chain lines (start_line - 1) boxes m
    ∧ m ≤ Z.max (start_line - 1) (Z.min end_line (len lines))
    ∧ scan_tail lines m (Z.max (start_line - 1) (Z.min end_line (len lines))).
Proof. apply find_boxes_chain_holds. Qed.

Lemma boxes_chain_le lines a boxes m : boxes_chain lines a boxes m → a ≤ m.
Proof.
  induction 1 as [|a bs m b lo hi _ IH Hlo _ Hb]; [lia|].
  destruct Hb as ((? & _) & ? & _). lia.
Qed.

Lemma boxes_chain_closed lines a boxes m :
  boxes_chain lines a boxes m →
  Forall (λ b, ∃ lo hi, closed_box lines b lo hi ∧ a ≤ lo ∧ hi ≤ m) boxes.
Proof.
  induction 1 as [|a bs m b lo hi Hch IH Hlo _ Hb]; [constructor|].
  pose proof (boxes_chain_le _ _ _ _ Hch).
  assert (lo < hi) by (destruct Hb as ((? & _) & _); lia).
  apply Forall_app. split.
  - eapply Forall_impl; [exact IH|]. intros b' (lo' & hi' & ? & ? & ?).
    exists lo', hi'. split; [done|lia].
  - apply Forall_singleton. exists lo, hi. split; [done|lia].
Qed.

Lemma find_boxes_closed lines start_line end_line boxes :
  1 ≤ start_line → find_boxes lines start_line end_line = Ok boxes →
  Forall (λ b, ∃ lo hi, closed_box lines b lo hi) boxes.
Proof.
  intros Hs Hfind.
  destruct (find_boxes_chain_holds lines start_line end_line Hs) as (boxes' & m & Hf & Hch & _).
  rewrite Hfind in Hf. injection Hf as <-.
  eapply Forall_impl; [apply (boxes_chain_closed _ _ _ _ Hch)|].
  intros b (lo & hi & ? & _). eauto.
Qed.


Lemma find_boxes_chain_witness :
  ∃ boxes m,
    find_boxes open_ended 1 5 = Ok boxes
    ∧ boxes_chain open_ended (1 - 1) boxes m
    ∧ m ≤ Z.max (1 - 1) (Z.min 5 (len open_ended))
    ∧ scan_tail open_ended m (Z.max (1 - 1) (Z.min 5 (len open_ended))).
Proof. apply (find_boxes_chain open_ended 1 5). lia. Defined.

(** ** The operations that do not raise *)

Lemma scan_rows_total chars lines col rows :
  (∀ r, r ∈ rows → - len lines ≤ r < len lines) →
  ∃ res, scan_rows chars lines col rows = Ok res.
Proof.
  induction rows as [|r rows IH]; intros H; simpl; [eauto|].
  destruct (py_getitem_in_range lines r) as [line ->]; [apply H; by left|]. simpl.
  destruct (scan_cols chars line col); [eauto|]. apply IH. intros r' Hr'. apply H. by right.
Qed.

Lemma get_closest_anchor_total lines i col :
  0 ≤ i < len lines → ∃ a, get_closest_anchor lines i col = Ok a.
Proof.
  intros Hi. unfold get_closest_anchor.
  destruct (scan_rows_total SEARCH_CHARS lines col
              (py_range_down (i - 1) (Z.max (-1) (i - 15)))) as [up ->].
  { intros r Hr%elem_of_py_range_down. lia. }
  simpl. destruct up; [eauto|].
  destruct (scan_rows_total SEARCH_CHARS lines col
              (py_range (i + 1) (Z.min (len lines) (i + 15)))) as [down ->].
  { intros r Hr%elem_of_py_range. lia. }
  simpl. destruct down; [eauto|].
  apply scan_rows_total. intros r Hr. unfold fallback_rows in Hr.
  apply list_elem_of_filter in Hr as [Hr _]. lia.
Qed.

Lemma misplaced_glyphs_total lines i cells :
  0 ≤ i < len lines → ∃ found, misplaced_glyphs lines i cells = Ok found.
Proof.
  intros Hi. induction cells as [|[c ch] cells [more IH]]; simpl; [eauto|].
  destruct (decide (ch ∈ FLOATING_CHARS)); [|eauto].
  destruct (get_closest_anchor_total lines i c Hi) as [a ->]. simpl. rewrite IH. simpl.
  destruct a as [[ar ac]|]; [|eauto]. destruct (decide _); eauto.
Qed.

Lemma floating_targets_total lines i cells :
  0 ≤ i < len lines → ∃ targets, floating_targets lines i cells = Ok targets.
Proof.
  intros Hi. induction cells as [|[c ch] cells [more IH]]; simpl; [eauto|].
  destruct (get_closest_anchor_total lines i c Hi) as [a ->]. simpl. rewrite IH. simpl.
  destruct a as [[ar ac]|]; eauto.
Qed.

Lemma fix_floating_step_total lines fixes skip i :
  0 ≤ i < len lines → ∃ n, (fix_floating_step (lines, fixes) skip i).2 = Ok n.
Proof.
  intros Hi. unfold fix_floating_step.
  destruct (decide (i ∈ skip)); [simpl; eauto|].
  rewrite py_getitem_line_at by done.
  destruct (misplaced_glyphs_total lines i (enumerate (line_at lines i)) Hi) as [found ->].
  destruct found; [simpl; eauto|].
  destruct (floating_targets_total lines i
              (filter (λ p, p.2 ∈ FLOATING_CHARS) (enumerate (line_at lines i))) Hi)
    as [targets ->].
  destruct (build_segments _ _ _) as [segments prev_end].
  rewrite py_setitem_nonneg by done. simpl. eauto.
Qed.

Lemma fix_floating_loop_total skip rows lines fixes :
  (∀ i, i ∈ rows → 0 ≤ i < len lines) →
  ∃ n, (fix_floating_loop skip rows lines fixes).2 = Ok n.
Proof.
  revert lines fixes. induction rows as [|i rows IH]; intros lines fixes H; simpl; [eauto|].
  destruct (fix_floating_step_total lines fixes skip i) as [n Hn]; [apply H; by left|].
  pose proof (fix_floating_step_length lines fixes skip i) as Hlen.
  destruct (fix_floating_step (lines, fixes) skip i) as [lines' res]. simpl in *. subst res.
  apply IH. intros i' Hi'. rewrite (len_eq_length lines' lines) by done. apply H. by right.
Qed.

(** X3: for a 1-based range, the scan, [check_outer_width] on each box
    found, [check_floating_verticals], [fix_outer_width] on each box found
    and [fix_floating_verticals] all return without raising. *)
Theorem core_total_on_one_based_range (lines : list str) (start_line end_line : Z) :
  1 ≤ start_line →
  ∃ boxes, find_boxes lines start_line end_line = Ok boxes
    ∧ (∀ b, b ∈ boxes →
         (∃ errs, check_outer_width b = Ok errs)
         ∧ ∃ n, (fix_outer_width lines b None).2 = Ok n)
    ∧ (∃ errs, check_floating_verticals lines boxes start_line end_line = Ok errs)
    ∧ ∃ n, (fix_floating_verticals lines boxes start_line end_line).2 = Ok n.
Proof.
  intros Hs.
  destruct (find_boxes_spans lines start_line end_line Hs) as (boxes & Hfind & Hall).
  exists boxes. split; [done|]. rewrite Forall_forall in Hall. split_and!.
  - intros b Hb. destruct (Hall b Hb) as (lo & hi & (Hlo & Hhi & _ & _ & Hlines) & _).
    split.
    + rewrite (check_outer_width_cons b (lo + 1) (line_at lines lo) (numbered lines (lo + 1) hi));
        [eauto|]. rewrite Hlines. apply numbered_cons. lia.
    + unfold fix_outer_width.
      destruct (fix_outer_width_loop_ok (default (box_width b) None) (box_lines b) lines 0)
        as (n & Hn & _); [| |eauto].
      * rewrite Hlines. apply numbered_NoDup.
      * intros ln. rewrite Hlines, numbered_fst, elem_of_seqZ. lia.
  - unfold check_floating_verticals.
    destruct (for_each_total_on (check_floating_step lines (in_box_indices boxes))
                (py_range (start_line - 1) (Z.min end_line (len lines)))) with (st := [] : list AlignError)
      as [errs ->]; [|eauto].
    intros errors i Hi%elem_of_py_range. unfold check_floating_step.
    destruct (decide _); [eauto|]. rewrite py_getitem_line_at by lia. simpl.
    destruct (misplaced_glyphs_total lines i (enumerate (line_at lines i))) as [found ->]; [lia|].
    simpl. eauto.
  - apply fix_floating_loop_total. intros i Hi%elem_of_py_range. lia.
Qed.

Lemma core_total_on_one_based_range_witness :
  ∃ boxes, find_boxes below_box 1 3 = Ok boxes
    ∧ (∀ b, b ∈ boxes →
         (∃ errs, check_outer_width b = Ok errs)
         ∧ ∃ n, (fix_outer_width below_box b None).2 = Ok n)
    ∧ (∃ errs, check_floating_verticals below_box boxes 1 3 = Ok errs)
    ∧ ∃ n, (fix_floating_verticals below_box boxes 1 3).2 = Ok n.
Proof. apply (core_total_on_one_based_range below_box 1 3). lia. Defined.

(** ** More on stripping *)

Lemma lstrip_spaces_app ws s :
  Forall (λ c, is_space c = true) ws → lstrip (ws ++ s) = lstrip s.
Proof.
  induction ws as [|c ws IH]; intros H; [done|].
  apply Forall_cons in H as [Hc Hws]. simpl. rewrite Hc. by apply IH.
Qed.

Lemma lstrip_not_space c s : is_space c = false → lstrip (c :: s) = c :: s.
Proof. intros H. simpl. by rewrite H. Qed.

Lemma spaces_all_space n : Forall (λ c, is_space c = true) (spaces n).
Proof. unfold spaces. apply Forall_replicate. done. Qed.

Lemma lstrip_head lstr c r : lstrip lstr = c :: r → is_space c = false.
Proof.
  induction lstr as [|d s IH]; simpl; [done|].
  destruct (is_space d) eqn:E; [done|]. by intros [= <- _].
Qed.

Lemma lstrip_idemp s : lstrip (lstrip s) = lstrip s.
Proof.
  destruct (lstrip s) as [|c r] eqn:E; [done|].
  apply lstrip_not_space. by eapply lstrip_head.
Qed.

Lemma rstrip_idemp s : rstrip (rstrip s) = rstrip s.
Proof. unfold rstrip. by rewrite rev_involutive, lstrip_idemp. Qed.

Lemma rstrip_split s : ∃ ws, s = rstrip s ++ ws ∧ Forall (λ c, is_space c = true) ws.
Proof.
  destruct (lstrip_split (rev s)) as (ws & Hs & Hws).
  exists (rev ws). split.
  - unfold rstrip. rewrite <- rev_app_distr, <- Hs. by rewrite rev_involutive.
  - rewrite Forall_forall in *. intros c Hc. apply Hws.
    apply list_elem_of_In, in_rev. by apply list_elem_of_In.
Qed.

Lemma rstrip_snoc_space s c : is_space c = true → rstrip (s ++ [c]) = rstrip s.
Proof. intros Hc. unfold rstrip. rewrite rev_unit. simpl. by rewrite Hc. Qed.

Lemma rstrip_nil : rstrip [] = [].
Proof. done. Qed.

Lemma len_slice_inner {A} (s : list A) : len (slice_inner s) = Z.max 0 (len s - 2).
Proof.
  unfold slice_inner, len. rewrite removelast_firstn_len, length_take, length_drop. lia.
Qed.

Lemma non_space_app a b : non_space (a ++ b) = non_space a ++ non_space b.
Proof. apply filter_app. Qed.

Lemma non_space_all_space ws : Forall (λ c, is_space c = true) ws → non_space ws = [].
Proof.
  induction ws as [|c ws IH]; intros H; [done|]. apply Forall_cons in H as [Hc Hws].
  unfold non_space. rewrite filter_cons_False by (rewrite Hc; done). by apply IH.
Qed.

Lemma non_space_spaces n : non_space (spaces n) = [].
Proof. apply non_space_all_space, spaces_all_space. Qed.

Lemma non_space_lstrip s : non_space (lstrip s) = non_space s.
Proof.
  destruct (lstrip_split s) as (ws & Hs & Hws).
  transitivity (non_space (ws ++ lstrip s)); [|by rewrite <- Hs].
  by rewrite non_space_app, (non_space_all_space ws Hws).
Qed.

Lemma non_space_rstrip s : non_space (rstrip s) = non_space s.
Proof.
  destruct (rstrip_split s) as (ws & Hs & Hws).
  transitivity (non_space (rstrip s ++ ws)); [|by rewrite <- Hs].
  by rewrite non_space_app, (non_space_all_space ws Hws), app_nil_r.
Qed.

Lemma non_space_cons_not_space c s : is_space c = false → non_space (c :: s) = c :: non_space s.
Proof. intros H. unfold non_space. by rewrite filter_cons_True. Qed.

Lemma non_space_cons_space c s : is_space c = true → non_space (c :: s) = non_space s.
Proof. intros H. unfold non_space. rewrite filter_cons_False; [done|]. by rewrite H. Qed.

(** ** The line rewritten by [fix_outer_width] *)

(** A line with two or more characters after its leading whitespace. *)
Lemma fix_width_line_long tw txt l mid x new :
  lstrip txt = l :: mid ++ [x] →
  fix_width_line tw txt = Some new →
  ∃ r, last (rstrip (l :: mid ++ [x])) = Some r ∧ r ∈ RIGHT_BORDER ∧ l ∈ LEFT_BORDER
    ∧ len txt ≠ tw
    ∧ new = spaces (len txt - (len mid + 2)) ++ [l]
            ++ (if decide (tw - len txt > 0) then mid ++ spaces (tw - len txt)
                else rstrip mid
                     ++ spaces (Z.max 0 (len mid - len (rstrip mid) + (tw - len txt))))
            ++ [r].
Proof.
  intros Hstrip. unfold fix_width_line.
  destruct (decide (len txt = tw)); [done|]. rewrite Hstrip.
  destruct (decide (l ∉ LEFT_BORDER)) as [|Hl]; [done|].
  destruct (last (rstrip (l :: mid ++ [x]))) as [r|]; [|done].
  destruct (decide (r ∉ RIGHT_BORDER)) as [|Hr]; [done|].
  rewrite slice_inner_cons_snoc.
  assert (Hlen : len (l :: mid ++ [x]) = len mid + 2).
  { unfold len. simpl. rewrite length_app. simpl. lia. }
  rewrite Hlen. intros Hnew. exists r. split; [done|].
  split; [by apply dec_stable|]. split; [by apply dec_stable|]. split; [done|].
  destruct (decide (tw - len txt > 0)); injection Hnew as <-; by rewrite <- ?app_assoc.
Qed.

(** A line that is a lone glyph after its leading whitespace. *)
Lemma fix_width_line_lone tw txt l new :
  lstrip txt = [l] →
  fix_width_line tw txt = Some new →
  l ∈ LEFT_BORDER ∧ l ∈ RIGHT_BORDER ∧ len txt ≠ tw
  ∧ new = spaces (len txt - 1) ++ [l] ++ spaces (tw - len txt) ++ [l].
Proof.
  intros Hstrip. unfold fix_width_line.
  destruct (decide (len txt = tw)); [done|]. rewrite Hstrip.
  destruct (decide (l ∉ LEFT_BORDER)) as [|Hl]; [done|].
  assert (Hsp : is_space l = false) by (apply (lstrip_head txt l []); done).
  assert (Hr1 : rstrip [l] = [l]) by exact (rstrip_snoc_not_space [] l Hsp).
  rewrite Hr1. simpl.
  destruct (decide (l ∉ RIGHT_BORDER)) as [|Hr]; [done|].
  intros Hnew. split; [by apply dec_stable|]. split; [by apply dec_stable|]. split; [done|].
  change (len [l]) with 1 in Hnew.
  destruct (decide (tw - len txt > 0)); injection Hnew as Hnew; subst new; [done|].
  change (len (slice_inner [l])) with 0. change (len (rstrip (slice_inner [l]))) with 0.
  unfold spaces.
  replace (Z.to_nat (Z.max 0 (0 - 0 + (tw - len txt)))) with 0%nat by lia.
  replace (Z.to_nat (tw - len txt)) with 0%nat by lia. done.
Qed.

Lemma lstrip_cases s :
  lstrip s = [] ∨ (∃ l, lstrip s = [l]) ∨ ∃ l mid x, lstrip s = l :: mid ++ [x].
Proof.
  destruct (lstrip s) as [|l rest]; [by left|right].
  destruct (list_snoc_cases rest) as [->|(mid & x & ->)]; [left|right]; eauto.
Qed.

Lemma fix_width_line_Some_strip tw txt new :
  fix_width_line tw txt = Some new → lstrip txt ≠ [].
Proof.
  unfold fix_width_line. destruct (decide _); [done|]. by destruct (lstrip txt).
Qed.

Lemma len_txt_lstrip s : ∃ lead, 0 ≤ lead ∧ len s = lead + len (lstrip s).
Proof.
  destruct (lstrip_split s) as (ws & Hs & _). exists (len ws).
  split; [apply len_nonneg|]. rewrite Hs at 1. apply len_app.
Qed.

(** X4: a line rewritten by [fix_outer_width] has exactly the target
    length unless non-whitespace content forces it longer: its length is
    the larger of the target and the old length less the whitespace ending
    its interior. A lone glyph (after leading whitespace) is the exception:
    it is doubled, and the line ends one column beyond the larger of the
    target and the old length. *)
Theorem fix_width_line_length (tw : Z) (txt new : str) :
  fix_width_line tw txt = Some new →
  len new = if decide (2 ≤ len (lstrip txt))
            then Z.max tw (len txt - trailing_room txt)
            else Z.max tw (len txt) + 1.
Proof.
  intros Hfix. destruct (len_txt_lstrip txt) as (lead & Hlead & Hlen).
  destruct (lstrip_cases txt) as [Hnil|[[l Hone]|(l & mid & x & Hlong)]].
  - by apply fix_width_line_Some_strip in Hfix.
  - destruct (fix_width_line_lone tw txt l new Hone Hfix) as (_ & _ & Hne & ->).
    rewrite Hone in *. change (len [l]) with 1 in *.
    destruct (decide (2 ≤ 1)); [lia|].
    rewrite !len_app, !len_spaces. change (len [l]) with 1. lia.
  - destruct (fix_width_line_long tw txt l mid x new Hlong Hfix) as (r & _ & _ & _ & Hne & ->).
    unfold trailing_room. rewrite Hlong, slice_inner_cons_snoc in *.
    assert (Hl2 : len (l :: mid ++ [x]) = len mid + 2).
    { unfold len. simpl. rewrite length_app. simpl. lia. }
    rewrite Hl2 in *. pose proof (len_nonneg mid). pose proof (len_rstrip_le mid).
    pose proof (len_nonneg (rstrip mid)).
    destruct (decide (2 ≤ len mid + 2)); [|lia].
    destruct (decide (tw - len txt > 0));
      rewrite !len_app, !len_spaces; change (len [l]) with 1; change (len [r]) with 1; lia.
Qed.

Lemma fix_width_line_length_witness :
  len (u8 "│ AB   │") = if decide (2 ≤ len (lstrip (u8 "│ AB  │")))
                         then Z.max 8 (len (u8 "│ AB  │") - trailing_room (u8 "│ AB  │"))
                         else Z.max 8 (len (u8 "│ AB  │")) + 1.
Proof. apply (fix_width_line_length 8 (u8 "│ AB  │") (u8 "│ AB   │")). vm_compute. reflexivity. Defined.

Lemma left_border_not_space_ok c : c ∈ LEFT_BORDER → is_space c = false.
Proof. unfold LEFT_BORDER. set_unfold. intros H. by destruct_or!; subst. Qed.

Lemma shaped_line lead l body r :
  is_space l = false → l ∈ LEFT_BORDER → r ∈ RIGHT_BORDER →
  lstrip (spaces lead ++ [l] ++ body ++ [r]) = l :: body ++ [r]
  ∧ border_pattern (spaces lead ++ [l] ++ body ++ [r]) = true
  ∧ len (spaces lead ++ [l] ++ body ++ [r]) - len (l :: body ++ [r]) = Z.max 0 lead
  ∧ last (spaces lead ++ [l] ++ body ++ [r]) = Some r.
Proof.
  intros Hsp Hl Hr.
  assert (Hstrip : lstrip (spaces lead ++ [l] ++ body ++ [r]) = l :: body ++ [r]).
  { rewrite lstrip_spaces_app by apply spaces_all_space. by apply lstrip_not_space. }
  split_and!.
  - done.
  - unfold border_pattern. rewrite Hstrip, last_snoc.
    by rewrite !bool_decide_eq_true_2.
  - rewrite len_app, len_spaces. simpl. lia.
  - replace (spaces lead ++ [l] ++ body ++ [r]) with ((spaces lead ++ [l] ++ body) ++ [r])
      by (by rewrite <- !app_assoc).
    apply last_snoc.
Qed.

(** The rewrite of a line that ends with its right-border glyph. *)
Lemma fix_width_line_eval tw txt l mid r :
  lstrip txt = l :: mid ++ [r] → l ∈ LEFT_BORDER → r ∈ RIGHT_BORDER → len txt ≠ tw →
  fix_width_line tw txt =
    Some (spaces (len txt - (len mid + 2)) ++ [l]
          ++ (if decide (tw - len txt > 0) then mid ++ spaces (tw - len txt)
              else rstrip mid
                   ++ spaces (Z.max 0 (len mid - len (rstrip mid) + (tw - len txt))))
          ++ [r]).
Proof.
  intros Hstrip Hl Hr Hne. unfold fix_width_line.
  destruct (decide (len txt = tw)); [done|]. rewrite Hstrip.
  destruct (decide (l ∉ LEFT_BORDER)); [done|].
  assert (Hrs : rstrip (l :: mid ++ [r]) = l :: mid ++ [r]).
  { apply (rstrip_snoc_not_space (l :: mid)). by apply right_border_not_space. }
  assert (Hlast : last (l :: mid ++ [r]) = Some r) by apply (last_snoc r (l :: mid)).
  rewrite Hrs, Hlast. destruct (decide (r ∉ RIGHT_BORDER)); [done|].
  rewrite slice_inner_cons_snoc.
  assert (Hlen : len (l :: mid ++ [r]) = len mid + 2).
  { unfold len. simpl. rewrite length_app. simpl. lia. }
  rewrite Hlen. destruct (decide (tw - len txt > 0)); by rewrite <- ?app_assoc.
Qed.

(** X5: every line rewritten by [fix_outer_width] follows the border
    pattern, whatever the old line ended with: its left glyph is the old
    one, at the old column, and it ends with the glyph that was the last
    non-whitespace character of the old line. *)
Theorem fix_width_line_keeps_pattern (tw : Z) (txt new : str) :
  fix_width_line tw txt = Some new →
  border_pattern new = true
  ∧ len new - len (lstrip new) = len txt - len (lstrip txt)
  ∧ head (lstrip new) = head (lstrip txt)
  ∧ last new = last (rstrip (lstrip txt)).
Proof.
  intros Hfix. destruct (len_txt_lstrip txt) as (lead & Hlead & Hlen).
  destruct (lstrip_cases txt) as [Hnil|[[l Hone]|(l & mid & x & Hlong)]].
  - by apply fix_width_line_Some_strip in Hfix.
  - destruct (fix_width_line_lone tw txt l new Hone Hfix) as (Hl & Hr & Hne & ->).
    assert (Hsp : is_space l = false) by (by apply left_border_not_space_ok).
    destruct (shaped_line (len txt - 1) l (spaces (tw - len txt)) l Hsp Hl Hr)
      as (Hs & Hp & Hd & Hla).
    rewrite Hs, Hone in *. change (len [l]) with 1 in *.
    split_and!; [done| |done|].
    + rewrite Hd. lia.
    + assert (Hr1 : rstrip [l] = [l]) by exact (rstrip_snoc_not_space [] l Hsp).
      by rewrite Hla, Hr1.
  - destruct (fix_width_line_long tw txt l mid x new Hlong Hfix) as (r & Hlast & Hr & Hl & Hne & ->).
    assert (Hsp : is_space l = false) by (by apply left_border_not_space_ok).
    set (body := if decide (tw - len txt > 0) then mid ++ spaces (tw - len txt)
                 else rstrip mid ++ spaces (Z.max 0 (len mid - len (rstrip mid) + (tw - len txt)))).
    destruct (shaped_line (len txt - (len mid + 2)) l body r Hsp Hl Hr) as (Hs & Hp & Hd & Hla).
    assert (Hl2 : len (l :: mid ++ [x]) = len mid + 2).
    { unfold len. simpl. rewrite length_app. simpl. lia. }
    rewrite Hs, Hlong in *. rewrite Hl2 in Hlen.
    split_and!; [done| |done|].
    + rewrite Hd, Hl2. lia.
    + by rewrite Hla.
Qed.

Lemma fix_width_line_keeps_pattern_witness :
  border_pattern (u8 "│ AB   │") = true
  ∧ len (u8 "│ AB   │") - len (lstrip (u8 "│ AB   │"))
    = len (u8 "│ AB  │") - len (lstrip (u8 "│ AB  │"))
  ∧ head (lstrip (u8 "│ AB   │")) = head (lstrip (u8 "│ AB  │"))
  ∧ last (u8 "│ AB   │") = last (rstrip (lstrip (u8 "│ AB  │"))).
Proof. apply (fix_width_line_keeps_pattern 8 (u8 "│ AB  │") (u8 "│ AB   │")). vm_compute. reflexivity. Defined.

Lemma rstrip_eq_snoc s x : rstrip (s ++ [x]) = s ++ [x] ↔ is_space x = false.
Proof.
  split; [|apply rstrip_snoc_not_space].
  intros H. destruct (is_space x) eqn:E; [|done].
  rewrite rstrip_snoc_space in H by done.
  pose proof (len_rstrip_le s) as Hle. rewrite H, len_app in Hle.
  change (len [x]) with 1 in Hle. lia.
Qed.

Lemma fix_width_line_text_holds (tw : Z) (txt new : str) :
  fix_width_line tw txt = Some new →
  ∃ r, last new = Some r ∧ r ∈ RIGHT_BORDER
    ∧ non_space new
      = non_space txt
        ++ (if decide (2 ≤ len (lstrip txt) ∧ rstrip txt = txt) then [] else [r]).
Proof.
  intros Hfix. destruct (lstrip_split txt) as (ws & Htxt & Hws).
  destruct (lstrip_cases txt) as [Hnil|[[l Hone]|(l & mid & x & Hlong)]].
  - by apply fix_width_line_Some_strip in Hfix.
  - destruct (fix_width_line_lone tw txt l new Hone Hfix) as (Hl & Hr & Hne & ->).
    assert (Hsp : is_space l = false) by (by apply left_border_not_space_ok).
    destruct (shaped_line (len txt - 1) l (spaces (tw - len txt)) l Hsp Hl Hr)
      as (_ & _ & _ & Hla).
    exists l. split; [done|]. split; [done|].
    rewrite <- (non_space_lstrip txt), Hone. change (len [l]) with 1.
    destruct (decide (2 ≤ 1 ∧ _)) as [[? _]|_]; [lia|].
    rewrite !non_space_app, !non_space_spaces.
    rewrite (non_space_cons_not_space l []) by done. done.
  - destruct (fix_width_line_long tw txt l mid x new Hlong Hfix) as (r & Hlast & Hr & Hl & Hne & ->).
    assert (Hsp : is_space l = false) by (by apply left_border_not_space_ok).
    set (body := if decide (tw - len txt > 0) then mid ++ spaces (tw - len txt)
                 else rstrip mid ++ spaces (Z.max 0 (len mid - len (rstrip mid) + (tw - len txt)))).
    destruct (shaped_line (len txt - (len mid + 2)) l body r Hsp Hl Hr) as (_ & _ & _ & Hla).
    exists r. split; [done|]. split; [done|].
    assert (Hbody : non_space body = non_space mid).
    { unfold body. destruct (decide _);
        rewrite non_space_app, non_space_spaces, app_nil_r; [done|apply non_space_rstrip]. }
    assert (Hrsp : is_space r = false) by (by apply right_border_not_space).
    assert (Hnew : non_space (spaces (len txt - (len mid + 2)) ++ [l] ++ body ++ [r])
                   = l :: non_space mid ++ [r]).
    { rewrite !non_space_app, non_space_spaces, Hbody.
      rewrite (non_space_cons_not_space l []), (non_space_cons_not_space r []) by done. done. }
    rewrite Hnew. rewrite <- (non_space_lstrip txt), Hlong.
    assert (Hl2 : len (l :: mid ++ [x]) = len mid + 2).
    { unfold len. simpl. rewrite length_app. simpl. lia. }
    rewrite Hl2. pose proof (len_nonneg mid).
    assert (Htxt' : txt = (ws ++ l :: mid) ++ [x]).
    { rewrite Htxt at 1. rewrite Hlong. by rewrite <- app_assoc. }
    destruct (is_space x) eqn:Ex.
    + destruct (decide (2 ≤ len mid + 2 ∧ rstrip txt = txt)) as [[_ Heq]|_].
      { rewrite Htxt' in Heq. apply rstrip_eq_snoc in Heq. congruence. }
      rewrite non_space_cons_not_space by done.
      rewrite non_space_app, (non_space_cons_space x []), app_nil_r by done. done.
    + assert (Hrx : r = x).
      { assert (Hrs : rstrip ((l :: mid) ++ [x]) = (l :: mid) ++ [x])
          by (by apply rstrip_snoc_not_space).
        simpl in Hrs. rewrite Hrs in Hlast.
        assert (Hlx : last (l :: mid ++ [x]) = Some x) by apply (last_snoc x (l :: mid)).
        congruence. }
      subst x.
      destruct (decide (2 ≤ len mid + 2 ∧ rstrip txt = txt)) as [_|Hno].
      * rewrite app_nil_r, non_space_cons_not_space by done.
        rewrite non_space_app, (non_space_cons_not_space r []) by done. done.
      * destruct Hno. split; [lia|]. rewrite Htxt'. by apply rstrip_snoc_not_space.
Qed.

(** X6: [fix_outer_width] changes only whitespace on a line that has two
    or more characters after its leading whitespace and no trailing
    whitespace: the non-whitespace characters of the rewritten line are
    those of the old line, in order. On any other line it rewrites (a line
    with whitespace after its right border, or a lone glyph) the new line
    holds one more copy of the right-border glyph, at its end. *)
Theorem fix_width_line_text (tw : Z) (txt new : str) :
  fix_width_line tw txt = Some new →
  ∃ r, last new = Some r ∧ r ∈ RIGHT_BORDER
    ∧ non_space new
      = non_space txt
        ++ (if decide (2 ≤ len (lstrip txt) ∧ rstrip txt = txt) then [] else [r]).
Proof. apply fix_width_line_text_holds. Qed.

Lemma fix_width_line_text_witness :
  ∃ r, last (u8 "│ AB   │") = Some r ∧ r ∈ RIGHT_BORDER
    ∧ non_space (u8 "│ AB   │")
      = non_space (u8 "│ AB  │")
        ++ (if decide (2 ≤ len (lstrip (u8 "│ AB  │")) ∧ rstrip (u8 "│ AB  │") = u8 "│ AB  │")
            then [] else [r]).
Proof. apply (fix_width_line_text 8 (u8 "│ AB  │") (u8 "│ AB   │")). vm_compute. reflexivity. Defined.

(** X7: a second pass of [fix_outer_width] over a line it has rewritten
    changes nothing, when the old line had two or more characters after its
    leading whitespace: the rewritten line is skipped (it has the target
    length) or rewritten to itself (it cannot shrink further). *)
Theorem fix_width_line_settles (tw : Z) (txt new : str) :
  2 ≤ len (lstrip txt) →
  fix_width_line tw txt = Some new →
  fix_width_line tw new = None ∨ fix_width_line tw new = Some new.
Proof.
  intros H2 Hfix.
  destruct (decide (len new = tw)) as [Heq|Hne'].
  { left. unfold fix_width_line. by destruct (decide (len new = tw)). }
  right.
  pose proof (fix_width_line_length tw txt new Hfix) as Hlen.
  destruct (decide (2 ≤ len (lstrip txt))) as [_|?]; [|lia].
  destruct (lstrip_cases txt) as [Hnil|[[l Hone]|(l & mid & x & Hlong)]].
  - rewrite Hnil in H2. unfold len in H2. simpl in H2. lia.
  - rewrite Hone in H2. unfold len in H2. simpl in H2. lia.
  - destruct (fix_width_line_long tw txt l mid x new Hlong Hfix) as (r & Hlast & Hr & Hl & Hne & Hnew).
    unfold trailing_room in Hlen. rewrite Hlong, slice_inner_cons_snoc in Hlen.
    pose proof (len_rstrip_le mid) as Hrs. pose proof (len_nonneg (rstrip mid)) as Hrs0.
    destruct (decide (tw - len txt > 0)) as [Hoff|Hoff]; [lia|].
    assert (Hz : Z.max 0 (len mid - len (rstrip mid) + (tw - len txt)) = 0) by lia.
    rewrite Hz in Hnew. change (spaces 0) with ([] : str) in Hnew. rewrite app_nil_r in Hnew.
    assert (Hsp : is_space l = false) by (by apply left_border_not_space_ok).
    destruct (shaped_line (len txt - (len mid + 2)) l (rstrip mid) r Hsp Hl Hr)
      as (Hs & _ & Hd & _).
    rewrite <- Hnew in Hs, Hd.
    assert (Hl2 : len (l :: rstrip mid ++ [r]) = len (rstrip mid) + 2).
    { unfold len. simpl. rewrite length_app. simpl. lia. }
    destruct (len_txt_lstrip txt) as (lead & Hlead & Hlt).
    assert (Hl3 : len (l :: mid ++ [x]) = len mid + 2).
    { unfold len. simpl. rewrite length_app. simpl. lia. }
    rewrite Hlong, Hl3 in Hlt.
    rewrite (fix_width_line_eval tw new l (rstrip mid) r Hs Hl Hr Hne').
    destruct (decide (tw - len new > 0)); [lia|].
    rewrite rstrip_idemp.
    replace (Z.max 0 (len (rstrip mid) - len (rstrip mid) + (tw - len new))) with 0 by lia.
    change (spaces 0) with ([] : str). rewrite app_nil_r.
    replace (len new - (len (rstrip mid) + 2)) with (len txt - (len mid + 2))
      by (rewrite Hl2 in Hd; lia).
    by rewrite <- Hnew.
Qed.

Lemma fix_width_line_settles_witness :
  fix_width_line 8 (u8 "│ AB   │") = None ∨ fix_width_line 8 (u8 "│ AB   │") = Some (u8 "│ AB   │").
Proof.
  apply (fix_width_line_settles 8 (u8 "│ AB  │") (u8 "│ AB   │")).
  - vm_compute. discriminate.
  - vm_compute. reflexivity.
Defined.

(** ** What [check_outer_width] measures *)

Lemma rstrip_eq_iff_len s : rstrip s = s ↔ len (rstrip s) = len s.
Proof.
  split; [by intros ->|]. intros Hlen.
  destruct (rstrip_split s) as (ws & Hs & _).
  pose proof (f_equal len Hs) as Hl. rewrite len_app in Hl.
  assert (ws = []) as ->.
  { apply length_zero_iff_nil. unfold len in *. lia. }
  by rewrite app_nil_r in Hs.
Qed.

Lemma first_line_widths txt0 :
  (rightmost_border txt0 = -1 →
     line_width txt0 = len (rstrip txt0) ∧ expected_width txt0 = len txt0)
  ∧ (rightmost_border txt0 ≠ -1 → line_width txt0 = expected_width txt0).
Proof.
  unfold line_width, expected_width. split; intros H.
  - destruct (decide (rightmost_border txt0 ≠ -1)); [done|].
    by destruct (decide (rightmost_border txt0 = -1)).
  - destruct (decide (rightmost_border txt0 ≠ -1)); [|done].
    by destruct (decide (rightmost_border txt0 = -1)).
Qed.

(** X8: [check_outer_width] reports the first line of a box exactly when
    that line holds no right-border glyph and ends with whitespace: the
    expected width is then its raw length and its measured width its
    right-trimmed length. The other errors concern the other lines, each
    against the expected width taken from the first line. *)
Theorem width_check_first_line (b : Box) (ln0 : Z) (txt0 : str) (rest : list (Z * str)) :
  box_lines b = (ln0, txt0) :: rest →
  ∃ errs_rest,
    check_outer_width b
    = Ok ((if decide (rightmost_border txt0 = -1 ∧ rstrip txt0 ≠ txt0)
           then [(ln0, len (rstrip txt0), len txt0, txt0)] else []) ++ errs_rest)
    ∧ ∀ ln w e txt, (ln, w, e, txt) ∈ errs_rest →
        (ln, txt) ∈ rest ∧ w = line_width txt ∧ e = expected_width txt0 ∧ w ≠ e.
Proof.
  intros Hlines. rewrite (check_outer_width_cons b ln0 txt0 rest Hlines), Hlines.
  exists (omap (λ '(ln, txt),
            let w := line_width txt in
            if decide (w ≠ expected_width txt0)
            then Some (ln, w, expected_width txt0, txt) else None) rest).
  split.
  - f_equal. cbn [omap list_omap].
    destruct (first_line_widths txt0) as [HA HB].
    destruct (decide (rightmost_border txt0 = -1)) as [Hno|Hhas].
    + destruct (HA Hno) as [Hw He].
      destruct (decide (rstrip txt0 = txt0)) as [Heq|Hne].
      * rewrite (decide_False (P := line_width txt0 ≠ expected_width txt0)).
        2:{ rewrite Hw, He, Heq. by intros ?. }
        rewrite decide_False; [done|]. by intros [_ ?].
      * rewrite (decide_True (P := line_width txt0 ≠ expected_width txt0)).
        2:{ rewrite Hw, He. intros Heq. by apply Hne, rstrip_eq_iff_len. }
        rewrite decide_True by done. by rewrite Hw, He.
    + rewrite (decide_False (P := line_width txt0 ≠ expected_width txt0)).
      2:{ rewrite (HB Hhas). by intros ?. }
      rewrite decide_False; [done|]. by intros [? _].
  - intros ln w e txt ([ln' txt'] & Hin & He)%list_elem_of_omap. simpl in He.
    destruct (decide _) as [Hne|]; [|done]. injection He as <- <- <- <-. done.
Qed.

Lemma width_check_first_line_witness :
  ∃ errs_rest,
    check_outer_width open_top
    = Ok ((if decide (rightmost_border (u8 "┌── ") = -1 ∧ rstrip (u8 "┌── ") ≠ u8 "┌── ")
           then [(1, len (rstrip (u8 "┌── ")), len (u8 "┌── "), u8 "┌── ")] else [])
          ++ errs_rest)
    ∧ ∀ ln w e txt, (ln, w, e, txt) ∈ errs_rest →
        (ln, txt) ∈ [(2, u8 "│ab│"); (3, u8 "└──┘")] ∧ w = line_width txt
        ∧ e = expected_width (u8 "┌── ") ∧ w ≠ e.
Proof.
  apply (width_check_first_line open_top 1 (u8 "┌── ") [(2, u8 "│ab│"); (3, u8 "└──┘")]).
  reflexivity.
Defined.

Lemma right_border_indices_app txt tail :
  Forall (λ c, c ∉ RIGHT_BORDER) tail →
  right_border_indices (txt ++ tail) = right_border_indices txt.
Proof.
  intros Htail. unfold right_border_indices, enumerate.
  rewrite imap_app, filter_app, fmap_app.
  assert (Hnil : ∀ (g : nat → Z),
            filter (λ p : Z * char, p.2 ∈ RIGHT_BORDER) (imap (λ i x, (g i, x)) tail) = []).
  { induction tail as [|c tail IH]; intros g; [done|].
    apply Forall_cons in Htail as [Hc Htail]. rewrite imap_cons.
    rewrite filter_cons_False by done. apply (IH Htail (g ∘ S)). }
  rewrite (Hnil (λ n, Z.of_nat (length txt + n))). by rewrite app_nil_r.
Qed.

(** X9: text to the right of the right-most right-border glyph does not
    count: appending characters that are not right-border glyphs to a line
    that holds a right-border glyph changes neither the width measured on
    it nor the width expected from it as a first line. *)
Theorem width_ignores_text_after_border (txt tail : str) :
  rightmost_border txt ≠ -1 →
  Forall (λ c, c ∉ RIGHT_BORDER) tail →
  line_width (txt ++ tail) = line_width txt
  ∧ expected_width (txt ++ tail) = expected_width txt
  ∧ line_width txt = expected_width txt.
Proof.
  intros Hhas Htail. unfold line_width, expected_width, rightmost_border.
  rewrite right_border_indices_app by done. fold (rightmost_border txt).
  destruct (decide (rightmost_border txt ≠ -1)); [|done].
  destruct (decide (rightmost_border txt = -1)); [done|]. done.
Qed.

Lemma width_ignores_text_after_border_witness :
  line_width (u8 "│a│" ++ u8 "  ") = line_width (u8 "│a│")
  ∧ expected_width (u8 "│a│" ++ u8 "  ") = expected_width (u8 "│a│")
  ∧ line_width (u8 "│a│") = expected_width (u8 "│a│").
Proof.
  apply (width_ignores_text_after_border (u8 "│a│") (u8 "  ")).
  - vm_compute. discriminate.
  - apply (bool_decide_unpack (Forall (λ c : char, c ∉ RIGHT_BORDER) (u8 "  "))).
    vm_compute. exact I.
Defined.

(** ** The groups of [find_inner_box_groups] *)

Lemma find_inner_step_eq (groups : list Group) (cur : Group) (in_inner : bool) ln txt :
  find_inner_step (groups, cur, in_inner) (ln, txt) =
    if has_top txt then (groups, [(ln, txt)], true)
    else if has_bottom txt && in_inner then (groups ++ [cur ++ [(ln, txt)]], [], false)
    else if in_inner && has_vert txt then (groups, cur ++ [(ln, txt)], in_inner)
    else (groups, cur, in_inner).
Proof. reflexivity. Qed.

Lemma find_inner_step_inv st l : group_inv st → group_inv (find_inner_step st l).
Proof.
  destruct st as [[groups cur] in_inner]. destruct l as [ln txt].
  intros [Hgroups Hcur]. simpl in Hgroups, Hcur. rewrite find_inner_step_eq.
  destruct (has_top txt) eqn:Etop.
  - split; simpl; [done|]. exists (ln, txt), []. split_and!; [done|done|constructor].
  - destruct (has_bottom txt) eqn:Ebot; destruct in_inner; simpl.
    + destruct Hcur as (first & mids & -> & Hfirst & Hmids).
      split; simpl; [|done]. apply Forall_app. split; [done|].
      apply Forall_singleton. exists first, mids, (ln, txt). by split_and!.
    + by split.
    + destruct (has_vert txt) eqn:Evert.
      * destruct Hcur as (first & mids & -> & Hfirst & Hmids).
        split; simpl; [done|]. exists first, (mids ++ [(ln, txt)]).
        split_and!; [done|done|]. apply Forall_app. split; [done|].
        apply Forall_singleton. by split_and!.
      * by split.
    + by split.
Qed.

Lemma find_inner_fold_inv content st : group_inv st → group_inv (foldl find_inner_step st content).
Proof.
  revert st. induction content as [|l content IH]; intros st H; [done|].
  simpl. apply IH. by apply find_inner_step_inv.
Qed.

Lemma slice_inner_numbered lines lo hi :
  lo + 1 < hi → slice_inner (numbered lines lo hi) = numbered lines (lo + 1) (hi - 1).
Proof.
  intros H. rewrite (numbered_cons lines lo hi) by lia.
  replace hi with (hi - 1 + 1) at 1 by lia.
  rewrite (numbered_snoc lines (lo + 1) (hi - 1)) by lia.
  apply slice_inner_cons_snoc.
Qed.

(** X10: every group that [find_inner_box_groups] returns is complete: it
    has at least two lines, opens on a line with an inner top-left corner,
    closes on a line with an inner bottom-left corner and no top-left
    corner, and holds in between only lines with a vertical or arrow glyph
    and neither corner. The groups are taken, in order and without
    repetition of a line, from the lines of the box other than its first
    and last. *)
Theorem inner_groups_are_complete (box : Box) :
  Forall (λ g, group_shape g ∧ 2 ≤ len g) (find_inner_box_groups box)
  ∧ concat (find_inner_box_groups box) `sublist_of` slice_inner (box_lines box).
Proof.
  split.
  - unfold find_inner_box_groups.
    destruct (slice_inner (box_lines box)) as [|x content] eqn:E; [constructor|].
    destruct (find_inner_fold_inv (x :: content) ([], [], false)) as [Hall _].
    { split; simpl; [constructor|done]. }
    eapply Forall_impl; [exact Hall|]. intros g Hg. split; [done|].
    destruct Hg as (first & mids & last & -> & _).
    unfold len. simpl. rewrite length_app. simpl. lia.
  - unfold find_inner_box_groups.
    destruct (slice_inner (box_lines box)) as [|x content] eqn:E; [apply sublist_nil_l|].
    apply (find_inner_fold_sublist (x :: content) ([], [], false) []). done.
Qed.

(** ** Which lines [check_inner_alignment] can report *)

Lemma elem_of_concat {A} (x : A) (ls : list (list A)) :
  x ∈ concat ls ↔ ∃ l, x ∈ l ∧ l ∈ ls.
Proof.
  rewrite list_elem_of_In, in_concat. split.
  - intros (l & Hl & Hx). exists l. by rewrite !list_elem_of_In.
  - intros (l & Hx & Hl). exists l. by rewrite <- !list_elem_of_In.
Qed.

Lemma concat_heads_tails (groups : list Group) :
  concat groups ≡ₚ omap head groups ++ (groups ≫= tail).
Proof.
  induction groups as [|g groups IH]; [done|].
  destruct g as [|ref members]; simpl; [exact IH|].
  constructor. rewrite IH. change (((ref :: members) :: groups) ≫= tail)
    with (members ++ (groups ≫= tail)).
  by rewrite !app_assoc, (Permutation_app_comm members).
Qed.

Lemma inner_groups_shape_sublist (box : Box) :
  concat (find_inner_box_groups box) `sublist_of` slice_inner (box_lines box).
Proof.
  unfold find_inner_box_groups.
  destruct (slice_inner (box_lines box)) as [|x content] eqn:E; [apply sublist_nil_l|].
  apply (find_inner_fold_sublist (x :: content) ([], [], false) []). done.
Qed.

(** X11: in a box returned by [find_boxes] (1-based range), every error of
    [check_inner_alignment] is on a line strictly between the first and the
    last line of the box, and never on the reference line of a group. *)
Theorem inner_errors_on_member_lines lines start_line end_line boxes b :
  1 ≤ start_line →
  find_boxes lines start_line end_line = Ok boxes →
  b ∈ boxes →
  ∀ err, err ∈ check_inner_alignment b →
    box_start b < err_line err
    ∧ (∃ hi, box_end b = Some hi ∧ err_line err < hi)
    ∧ ∀ g ref, g ∈ find_inner_box_groups b → head g = Some ref → err_line err ≠ ref.1.
Proof.
  intros Hs Hfind Hb err Herr.
  pose proof (find_boxes_closed lines start_line end_line boxes Hs Hfind) as Hall.
  rewrite Forall_forall in Hall.
  destruct (Hall b Hb) as (lo & hi & (_ & _ & Hstart & _ & Hlines) & Hlohi & Hend & _).
  pose proof (inner_groups_shape_sublist b) as Hsub.
  rewrite Hlines, slice_inner_numbered in Hsub by lia.
  apply elem_of_check_inner_alignment in Herr
    as (ref_ln & ref_txt & members & [ln txt] & Hg & Hm & Hc).
  apply check_member_line in Hc. rewrite Hc.
  assert (Hnd : NoDup (omap head (find_inner_box_groups b) ++ (find_inner_box_groups b ≫= tail)).*1).
  { rewrite <- concat_heads_tails. eapply sublist_NoDup; [|apply fmap_sublist, Hsub].
    apply numbered_NoDup. }
  assert (Hmem : (ln, txt) ∈ find_inner_box_groups b ≫= tail).
  { apply list_elem_of_bind. by exists ((ref_ln, ref_txt) :: members). }
  assert (Hin : ln ∈ (numbered lines (lo + 1) (hi - 1)).*1).
  { eapply elem_of_sublist; [|apply fmap_sublist, Hsub].
    apply list_elem_of_fmap. exists (ln, txt). split; [done|].
    apply elem_of_concat. exists ((ref_ln, ref_txt) :: members). split; [by right|done]. }
  rewrite numbered_fst, elem_of_seqZ in Hin.
  split_and!; [lia|exists hi; split; [done|lia]|].
  intros g ref Hgin Hhead Heq.
  rewrite fmap_app in Hnd. apply NoDup_app in Hnd as (_ & Hdisj & _).
  apply (Hdisj ln).
  - apply list_elem_of_fmap. exists ref. split; [done|].
    apply list_elem_of_omap. by exists g.
  - apply list_elem_of_fmap. by exists (ln, txt).
Qed.

Lemma inner_errors_on_member_lines_witness :
  box_start box_B < 3
  ∧ (∃ hi, box_end box_B = Some hi ∧ 3 < hi)
  ∧ ∀ g ref, g ∈ find_inner_box_groups box_B → head g = Some ref → 3 ≠ ref.1.
Proof.
  refine (inner_errors_on_member_lines scenario_B 1 5 [box_B] box_B _ _ _
            (3, 3, 2, 2, u8 "│  │ x  │    │") _).
  - lia.
  - vm_compute. reflexivity.
  - apply list_elem_of_here.
  - vm_compute. apply list_elem_of_here.
Defined.

(** ** What an anchor is *)

Lemma scan_rows_None chars lines col rows :
  scan_rows chars lines col rows = Ok None →
  ∀ r k, r ∈ rows → ¬ hit chars lines col r k.
Proof.
  induction rows as [|r0 rows IH]; simpl; [by intros _ r k Hr%elem_of_nil|].
  destruct (py_getitem lines r0) as [line|] eqn:E; simpl; [|done].
  destruct (scan_cols chars line col) as [k0|] eqn:Ec; [done|].
  intros Hrest r k [->|Hin]%elem_of_cons; [|by apply IH].
  intros Hhit. pose proof Hhit as (Hr & _).
  rewrite py_getitem_line_at in E by done. injection E as <-.
  pose proof (scan_cols_spec chars lines col r0) as Hspec. rewrite Ec in Hspec.
  by apply (Hspec k).
Qed.

Lemma scan_rows_Some_hit chars lines col rows r k :
  (∀ r', r' ∈ rows → 0 ≤ r') →
  scan_rows chars lines col rows = Ok (Some (r, k)) →
  r ∈ rows ∧ hit chars lines col r k.
Proof.
  intros Hpos [Hin (line & Hline & Hk)]%scan_rows_Some. split; [done|].
  pose proof (Hpos r Hin) as Hr.
  assert (Hlt : r < len lines).
  { destruct (decide (r < len lines)); [done|].
    rewrite py_getitem_out_of_range in Hline by lia. done. }
  rewrite py_getitem_line_at in Hline by lia. injection Hline as <-.
  apply scan_cols_window in Hk as (? & ? & ?). split_and!; try done; lia.
Qed.

(** X12: an anchor returned for a glyph at row [i >= 0] is the position of
    a glyph of the buffer, on another row at most 14 rows away and at most
    3 columns away: a junction glyph, or, from the fallback only, a
    vertical or arrow glyph on a row next to [i]. *)
Theorem anchor_is_a_nearby_glyph (lines : list str) (i col r k : Z) :
  0 ≤ i →
  get_closest_anchor lines i col = Ok (Some (r, k)) →
  r ≠ i ∧ i - 14 ≤ r ≤ i + 14
  ∧ (hit SEARCH_CHARS lines col r k
     ∨ (hit FLOATING_CHARS lines col r k ∧ (r = i - 1 ∨ r = i + 1))).
Proof.
  intros Hi. unfold get_closest_anchor.
  destruct (scan_rows SEARCH_CHARS lines col (py_range_down _ _)) as [[a|]|] eqn:Eup;
    simpl; [| |done].
  { intros [= ->]. apply scan_rows_Some_hit in Eup as [Hr%elem_of_py_range_down Hh].
    - split_and!; [lia|lia|lia|by left].
    - intros r' Hr'%elem_of_py_range_down. lia. }
  destruct (scan_rows SEARCH_CHARS lines col (py_range _ _)) as [[a|]|] eqn:Edown;
    simpl; [| |done].
  { intros [= ->]. apply scan_rows_Some_hit in Edown as [Hr%elem_of_py_range Hh].
    - split_and!; [lia|lia|lia|by left].
    - intros r' Hr'%elem_of_py_range. lia. }
  intros [Hr Hh]%scan_rows_Some_hit.
  - unfold fallback_rows in Hr. apply list_elem_of_filter in Hr as [_ Hr].
    assert (r = i - 1 ∨ r = i + 1) as Hnear by (set_unfold; tauto).
    split_and!; [lia|lia|lia|]. right. done.
  - intros r' Hr'. unfold fallback_rows in Hr'. apply list_elem_of_filter in Hr' as [? _]. lia.
Qed.

Lemma anchor_is_a_nearby_glyph_witness :
  1 ≠ 2 ∧ 2 - 14 ≤ 1 ≤ 2 + 14
  ∧ (hit SEARCH_CHARS below_box 4 1 3
     ∨ (hit FLOATING_CHARS below_box 4 1 3 ∧ (1 = 2 - 1 ∨ 1 = 2 + 1))).
Proof.
  apply (anchor_is_a_nearby_glyph below_box 2 4 1 3).
  - lia.
  - vm_compute. reflexivity.
Defined.

(** X13: when no anchor is returned for a glyph at a row of the buffer,
    there is none within reach: no junction glyph in the upward or the
    downward window, and no vertical or arrow glyph within 3 columns on the
    two neighbouring rows. *)
Theorem no_anchor_means_none_in_reach (lines : list str) (i col : Z) :
  0 ≤ i < len lines →
  get_closest_anchor lines i col = Ok None →
  (∀ r k, ¬ up_hit lines i col r k)
  ∧ (∀ r k, ¬ down_hit lines i col r k)
  ∧ ∀ r k, r = i - 1 ∨ r = i + 1 → ¬ hit FLOATING_CHARS lines col r k.
Proof.
  intros Hi. unfold get_closest_anchor.
  destruct (scan_rows SEARCH_CHARS lines col (py_range_down _ _)) as [[a|]|] eqn:Eup;
    simpl; [done| |done].
  destruct (scan_rows SEARCH_CHARS lines col (py_range _ _)) as [[a|]|] eqn:Edown;
    simpl; [done| |done].
  intros Hfb. split_and!.
  - intros r k [Hr Hh]. apply (scan_rows_None _ _ _ _ Eup r k); [|done].
    apply elem_of_py_range_down. destruct Hh as [? _]. lia.
  - intros r k [Hr Hh]. apply (scan_rows_None _ _ _ _ Edown r k); [|done].
    apply elem_of_py_range. destruct Hh as [? _]. lia.
  - intros r k Hr Hh. apply (scan_rows_None _ _ _ _ Hfb r k); [|done].
    unfold fallback_rows. apply list_elem_of_filter. destruct Hh as [? _].
    split; [done|]. set_unfold. tauto.
Qed.

Lemma no_anchor_means_none_in_reach_witness :
  (∀ r k, ¬ up_hit scenario_C 0 7 r k)
  ∧ (∀ r k, ¬ down_hit scenario_C 0 7 r k)
  ∧ ∀ r k, r = 0 - 1 ∨ r = 0 + 1 → ¬ hit FLOATING_CHARS scenario_C 7 r k.
Proof.
  apply (no_anchor_means_none_in_reach scenario_C 0 7).
  - vm_compute. split; [discriminate|reflexivity].
  - vm_compute. reflexivity.
Defined.

Lemma py_getitem_insert_ne (lines : list str) (i r : Z) l' :
  0 ≤ i → 0 ≤ r → r ≠ i →
  py_getitem (<[Z.to_nat i := l']> lines) r = py_getitem lines r.
Proof.
  intros Hi Hr Hne. unfold py_getitem, py_index.
  rewrite (len_eq_length (<[Z.to_nat i := l']> lines) lines) by apply length_insert.
  destruct (decide (r < 0)); [lia|].
  destruct (decide (0 ≤ r < len lines)); [|done]. simpl.
  rewrite list_lookup_insert_ne by lia. done.
Qed.

(** X14: the anchor search never reads the row of the glyph itself: for a
    row [i >= 0], replacing line [i] of the buffer by any text leaves the
    anchor of every column of that row as it was. *)
Theorem anchor_ignores_own_row (lines : list str) (i col : Z) (l' : str) :
  0 ≤ i →
  get_closest_anchor (<[Z.to_nat i := l']> lines) i col = get_closest_anchor lines i col.
Proof.
  intros Hi. unfold get_closest_anchor, fallback_rows.
  rewrite (len_eq_length (<[Z.to_nat i := l']> lines) lines) by apply length_insert.
  rewrite (scan_rows_ext SEARCH_CHARS lines (<[Z.to_nat i := l']> lines) col
             (py_range_down (i - 1) (Z.max (-1) (i - 15)))).
  2:{ intros r Hr%elem_of_py_range_down. apply py_getitem_insert_ne; lia. }
  rewrite (scan_rows_ext SEARCH_CHARS lines (<[Z.to_nat i := l']> lines) col
             (py_range (i + 1) (Z.min (len lines) (i + 15)))).
  2:{ intros r Hr%elem_of_py_range. apply py_getitem_insert_ne; lia. }
  rewrite (scan_rows_ext FLOATING_CHARS lines (<[Z.to_nat i := l']> lines) col
             (filter (λ r, 0 ≤ r < len lines) [i - 1; i + 1])).
  2:{ intros r [Hr Hin]%list_elem_of_filter. apply py_getitem_insert_ne; [lia|lia|].
      set_unfold. lia. }
  done.
Qed.

Lemma anchor_ignores_own_row_witness :
  get_closest_anchor (<[Z.to_nat 2 := u8 "│"]> below_box) 2 4 = get_closest_anchor below_box 2 4.
Proof. apply (anchor_ignores_own_row below_box 2 4 (u8 "│")). lia. Defined.

(** ** The fixers of glyph columns change whitespace only *)

Lemma cuts_ok_weaken txt pe pe' cells :
  pe' ≤ pe → cuts_ok txt pe cells → cuts_ok txt pe' cells.
Proof.
  destruct cells as [|[p ch] rest]; simpl; [done|].
  intros ? (? & ? & ?). split_and!; [lia|done..].
Qed.

Lemma cuts_ok_filter (P : Z * char → Prop) `{!∀ x, Decision (P x)} (suf pre : str) :
  cuts_ok (pre ++ suf) (len pre)
    (filter P (imap (λ i x, (len pre + Z.of_nat i, x)) suf)).
Proof.
  revert pre. induction suf as [|c suf IH]; intros pre; [done|].
  rewrite imap_cons.
  assert (Himap : imap ((λ i x, (len pre + Z.of_nat i, x)) ∘ S) suf
                  = imap (λ i x, (len (pre ++ [c]) + Z.of_nat i, x)) suf).
  { apply imap_ext. intros i x _. simpl. rewrite len_app. unfold len. simpl.
    f_equal. lia. }
  rewrite Himap. specialize (IH (pre ++ [c])).
  rewrite <- app_assoc in IH. simpl in IH.
  rewrite filter_cons. destruct (decide (P (len pre + Z.of_nat 0, c))).
  - simpl. split_and!; [lia| |].
    + apply list_lookup_middle. unfold len. lia.
    + replace (len pre + Z.of_nat 0 + 1) with (len (pre ++ [c])); [done|].
      rewrite len_app. unfold len. simpl. lia.
  - eapply cuts_ok_weaken; [|exact IH]. rewrite len_app. unfold len. simpl. lia.
Qed.

Lemma cuts_ok_enumerate (P : Z * char → Prop) `{!∀ x, Decision (P x)} (txt : str) :
  cuts_ok txt 0 (filter P (enumerate txt)).
Proof.
  pose proof (cuts_ok_filter P txt []) as Hc. simpl in Hc.
  unfold enumerate. erewrite imap_ext; [exact Hc|].
  intros i x _. simpl. f_equal.
Qed.

Lemma slice_from_split (txt : str) pe cp ch :
  0 ≤ pe ≤ cp → txt !! Z.to_nat cp = Some ch →
  slice_from txt pe = slice txt pe cp ++ [ch] ++ slice_from txt (cp + 1).
Proof.
  intros Hle Hlk. unfold slice_from, slice.
  rewrite <- (take_drop (Z.to_nat cp - Z.to_nat pe) (drop (Z.to_nat pe) txt)) at 1.
  f_equal. rewrite drop_drop.
  replace (Z.to_nat pe + (Z.to_nat cp - Z.to_nat pe))%nat with (Z.to_nat cp) by lia.
  replace (Z.to_nat (cp + 1)) with (S (Z.to_nat cp)) by lia.
  by apply drop_S.
Qed.

Lemma placed_content_text (needed : Z) (content : str) :
  non_space (if decide (needed > len content) then content ++ spaces (needed - len content)
             else if decide (needed < len content) then
               rstrip content ++ spaces (Z.max 0 (needed - len (rstrip content)))
             else content)
  = non_space content.
Proof.
  repeat case_match; rewrite ?non_space_app, ?non_space_spaces, ?non_space_rstrip, ?app_nil_r;
    done.
Qed.

Lemma rebuild_text txt moves : ∀ pe pos,
  0 ≤ pe → cuts_ok txt pe (cut_cell <$> moves) →
  non_space (place_segments pos (build_segments txt pe moves).1
             ++ slice_from txt (build_segments txt pe moves).2)
  = non_space (slice_from txt pe).
Proof.
  induction moves as [|[[cp tp] ch] rest IH]; intros pe pos Hpe Hok; [done|].
  destruct Hok as (Hle & Hlk & Hrest). simpl in Hle, Hlk, Hrest.
  specialize (IH (cp + 1) (tp + 1) ltac:(lia) Hrest).
  cbn [build_segments].
  destruct (build_segments txt (cp + 1) rest) as [segs e] eqn:E.
  cbn [fst snd place_segments] in IH |- *.
  rewrite (slice_from_split txt pe cp ch) by done.
  rewrite <- app_assoc, !non_space_app, placed_content_text. f_equal.
  rewrite <- app_assoc, <- non_space_app. by rewrite IH.
Qed.

Lemma floating_moves_cells lines i : ∀ cells targets,
  floating_targets lines i cells = Ok targets →
  cut_cell <$> ((λ '((cur_p, cur_ch), (tgt_p, tgt_ch)), (cur_p, tgt_p, tgt_ch))
                  <$> zip cells targets) = cells.
Proof.
  induction cells as [|[p ch] cells IH]; intros targets Ht; [done|].
  simpl in Ht.
  destruct (get_closest_anchor lines i p) as [a|]; [|done]. simpl in Ht.
  destruct (floating_targets lines i cells) as [more|]; [|done]. simpl in Ht.
  specialize (IH more eq_refl).
  destruct a as [[ar ac]|]; injection Ht as <-; simpl; f_equal; exact IH.
Qed.

Lemma insert_same_text (lines : list str) (j : nat) (old new : str) :
  lines !! j = Some old → non_space new = non_space old →
  non_space <$> <[j := new]> lines = non_space <$> lines.
Proof.
  intros Hlk Heq. rewrite list_fmap_insert, Heq.
  apply list_insert_id. by rewrite list_lookup_fmap, Hlk.
Qed.

Lemma py_get_set_same {A} (l l' : list A) i x y :
  py_getitem l i = Ok x → py_setitem l i y = Ok l' →
  ∃ j, l !! j = Some x ∧ l' = <[j := y]> l.
Proof.
  unfold py_getitem, py_setitem. destruct (py_index (len l) i) as [j|]; simpl; [|done].
  destruct (l !! j) as [x'|] eqn:E; [|done]. intros [= <-] [= <-]. eauto.
Qed.

Lemma fix_floating_step_text lines fixes skip i :
  non_space <$> (fix_floating_step (lines, fixes) skip i).1 = non_space <$> lines.
Proof.
  unfold fix_floating_step.
  destruct (decide (i ∈ skip)); [done|].
  destruct (py_getitem lines i) as [line|] eqn:Eg; [|done].
  destruct (misplaced_glyphs lines i (enumerate line)) as [[|m ms]|]; [done| |done].
  destruct (floating_targets lines i _) as [targets|] eqn:Et; [|done].
  pose proof (floating_moves_cells _ _ _ _ Et) as Hcells.
  pose proof (rebuild_text line _ 0 0 ltac:(lia)
                ltac:(rewrite Hcells; apply cuts_ok_enumerate)) as Htext.
  destruct (build_segments line 0 _) as [segs e].
  cbn [fst snd] in Htext.
  destruct (py_setitem lines i _) as [lines'|] eqn:Es; [|done].
  destruct (py_get_set_same _ _ _ _ _ Eg Es) as (j & Hj & ->). simpl.
  eapply insert_same_text; [exact Hj|]. rewrite Htext. unfold slice_from. by rewrite drop_0.
Qed.

Lemma fix_floating_loop_text skip rows : ∀ lines fixes,
  non_space <$> (fix_floating_loop skip rows lines fixes).1 = non_space <$> lines.
Proof.
  induction rows as [|i rows IH]; intros lines fixes; simpl; [done|].
  pose proof (fix_floating_step_text lines fixes skip i) as Hstep.
  destruct (fix_floating_step (lines, fixes) skip i) as [lines' [nfix|e]]; simpl in *.
  - by rewrite IH.
  - done.
Qed.

(** X15: [fix_floating_verticals] changes whitespace only: whatever the
    buffer, the boxes and the range, and also when it raises, every line of
    the buffer it leaves has the characters other than whitespace that the
    line had before, in the same order. *)
Theorem floating_fix_changes_whitespace_only (lines : list str) (boxes : list Box)
    (start_line end_line : Z) :
  non_space <$> (fix_floating_verticals lines boxes start_line end_line).1
  = non_space <$> lines.
Proof. apply fix_floating_loop_text. Qed.

Lemma fit_to_width_text tw r r' : fit_to_width tw r = Ok r' → non_space r' = non_space r.
Proof.
  unfold fit_to_width. destruct (decide (len r < tw)).
  - destruct (py_max (right_border_indices r)) as [idx|]; simpl; [|done]. intros [= <-].
    rewrite !non_space_app, non_space_spaces. simpl. rewrite <- non_space_app.
    unfold slice_to, slice_from. by rewrite take_drop.
  - destruct (decide (len r > tw)); [|by intros [= <-]].
    destruct (py_max (right_border_indices r)) as [idx|]; simpl; [|done]. intros [= <-].
    rewrite !non_space_app, non_space_spaces, non_space_rstrip. simpl.
    rewrite <- non_space_app. unfold slice_to, slice_from. by rewrite take_drop.
Qed.

Lemma inner_moves_cells : ∀ cells refs : list (Z * char),
  length cells = length refs →
  cut_cell <$> ((λ '((cur_p, cur_ch), (ref_p, ref_ch)), (cur_p, ref_p, cur_ch))
                  <$> zip cells refs) = cells.
Proof.
  induction cells as [|[p ch] cells IH]; intros [|[rp rch] refs] Hlen; try done.
  simpl. f_equal. apply IH. simpl in Hlen. lia.
Qed.

Lemma rebuilt_member_text (txt ref_txt : str) :
  len (border_cells txt) = len (border_cells ref_txt) →
  let moves := (λ '((cur_p, cur_ch), (ref_p, ref_ch)), (cur_p, ref_p, cur_ch))
                 <$> zip (border_cells txt) (border_cells ref_txt) in
  non_space (place_segments 0 (build_segments txt 0 moves).1
             ++ slice_from txt (build_segments txt 0 moves).2) = non_space txt.
Proof.
  intros Hlen moves.
  rewrite (rebuild_text txt moves 0 0); [unfold slice_from; by rewrite drop_0|lia|].
  unfold moves. rewrite inner_moves_cells by (unfold len in Hlen; lia).
  apply cuts_ok_enumerate.
Qed.

Lemma realign_member_text tw ref_txt ref_cols txt rebuilt :
  realign_member tw ref_txt ref_cols txt = Ok (Some rebuilt) →
  non_space rebuilt = non_space txt.
Proof.
  unfold realign_member. destruct (decide _); [done|]. destruct (negb _); [done|].
  destruct (decide (len (border_cells txt) ≠ len (border_cells ref_txt))) as [|Hlen]; [done|].
  apply dec_stable in Hlen. pose proof (rebuilt_member_text txt ref_txt Hlen) as Htext.
  simpl in Htext. destruct (build_segments txt 0 _) as [segs e]. cbn [fst snd] in Htext.
  destruct (fit_to_width tw _) as [r|] eqn:Ef; simpl; [|done]. intros [= <-].
  by rewrite (fit_to_width_text _ _ _ Ef).
Qed.

Lemma py_setitem_one_based {A} (l l' : list A) ln x :
  1 ≤ ln → py_setitem l (ln - 1) x = Ok l' → l' = <[Z.to_nat (ln - 1) := x]> l.
Proof.
  intros Hln (j & Hj & ->)%py_setitem_Ok_inv. unfold py_index in Hj.
  destruct (decide (ln - 1 < 0)); [lia|]. destruct (decide _); [|done]. by injection Hj as <-.
Qed.

Lemma fix_inner_members_text tw ref_txt ref_cols (orig : list str) members :
  ∀ lines fixes,
  Forall (λ p, 1 ≤ p.1 ∧ orig !! Z.to_nat (p.1 - 1) = Some p.2) members →
  non_space <$> lines = non_space <$> orig →
  non_space <$> (fix_inner_members tw ref_txt ref_cols members lines fixes).1
  = non_space <$> orig.
Proof.
  induction members as [|[ln txt] members IH]; intros lines fixes Hall Hinv; simpl; [done|].
  apply Forall_cons in Hall as [[Hln Hlk] Hall]. simpl in Hln, Hlk.
  destruct (realign_member tw ref_txt ref_cols txt) as [[rebuilt|]|] eqn:Er;
    [|by apply IH|done].
  destruct (py_setitem lines (ln - 1) rebuilt) as [lines'|] eqn:Es; [|done].
  apply IH; [done|]. apply py_setitem_one_based in Es as ->; [|done].
  rewrite list_fmap_insert, Hinv, (realign_member_text _ _ _ _ _ Er).
  apply list_insert_id. by rewrite list_lookup_fmap, Hlk.
Qed.

Lemma fix_inner_groups_text tw (orig : list str) groups : ∀ lines fixes,
  Forall (λ p, 1 ≤ p.1 ∧ orig !! Z.to_nat (p.1 - 1) = Some p.2) (concat groups) →
  non_space <$> lines = non_space <$> orig →
  non_space <$> (fix_inner_groups tw groups lines fixes).1 = non_space <$> orig.
Proof.
  induction groups as [|g groups IH]; intros lines fixes Hall Hinv; simpl; [done|].
  simpl in Hall. apply Forall_app in Hall as [Hg Hall].
  destruct (decide _); [by apply IH|].
  destruct g as [|[ref_ln ref_txt] members]; [by apply IH|].
  destruct ((get_border_positions ref_txt true).*1) as [|c0 cols] eqn:Ecols; [by apply IH|].
  apply Forall_cons in Hg as [_ Hg].
  pose proof (fix_inner_members_text tw ref_txt (c0 :: cols) orig members lines fixes Hg Hinv)
    as Hm.
  destruct (fix_inner_members tw ref_txt (c0 :: cols) members lines fixes) as [lines' [nfix|e]];
    simpl in Hm |- *; [|done].
  by apply IH.
Qed.

Lemma inner_groups_in_buffer lines b :
  box_in_buffer lines b →
  Forall (λ p, 1 ≤ p.1 ∧ lines !! Z.to_nat (p.1 - 1) = Some p.2)
    (concat (find_inner_box_groups b)).
Proof.
  unfold box_in_buffer. rewrite !Forall_forall. intros Hall p Hp. apply Hall.
  eapply elem_of_sublist; [exact Hp|].
  etrans; [apply inner_groups_shape_sublist|apply slice_inner_sublist].
Qed.

(** X16: on a box whose lines are the lines of the buffer,
    [fix_inner_alignment] changes whitespace only: also when it raises,
    every line of the buffer it leaves has the characters other than
    whitespace that the line had before, in the same order. *)
Theorem inner_fix_changes_whitespace_only (lines : list str) (b : Box) :
  box_in_buffer lines b →
  non_space <$> (fix_inner_alignment lines b).1 = non_space <$> lines.
Proof.
  intros Hb. apply fix_inner_groups_text; [|done]. by apply inner_groups_in_buffer.
Qed.

Lemma inner_fix_changes_whitespace_only_witness :
  non_space <$> (fix_inner_alignment scenario_B box_B).1 = non_space <$> scenario_B.
Proof.
  apply (inner_fix_changes_whitespace_only scenario_B box_B).
  apply (bool_decide_unpack (box_in_buffer scenario_B box_B)). vm_compute. exact I.
Defined.

(** ** When the inner fixer returns, and when it has nothing to do *)

Lemma right_border_indices_nonempty txt :
  right_border_indices txt ≠ [] ↔ ∃ c, c ∈ non_space txt ∧ c ∈ RIGHT_BORDER.
Proof.
  unfold right_border_indices, non_space. split.
  - intros Hne. destruct (filter _ (enumerate txt)) as [|[i c] l] eqn:E; [done|].
    assert (Hin : (i, c) ∈ filter (λ p : Z * char, p.2 ∈ RIGHT_BORDER) (enumerate txt))
      by (rewrite E; left).
    apply list_elem_of_filter in Hin as [Hc Hin]. simpl in Hc.
    apply enumerate_lookup in Hin as [_ Hlk]. exists c. split; [|done].
    apply list_elem_of_filter. split; [by apply right_border_not_space|].
    by eapply list_elem_of_lookup_2.
  - intros (c & [_ Hin]%list_elem_of_filter & Hc).
    apply list_elem_of_lookup in Hin as [k Hk].
    assert (Hin : (Z.of_nat k, c) ∈ filter (λ p : Z * char, p.2 ∈ RIGHT_BORDER) (enumerate txt)).
    { apply list_elem_of_filter. split; [done|]. apply enumerate_lookup.
      split; [lia|]. by rewrite Nat2Z.id. }
    intros Hnil. apply fmap_nil_inv in Hnil. rewrite Hnil in Hin. by apply elem_of_nil in Hin.
Qed.

Lemma fit_to_width_total tw r :
  right_border_indices r ≠ [] → ∃ r', fit_to_width tw r = Ok r'.
Proof.
  intros Hne. unfold fit_to_width.
  destruct (right_border_indices r) as [|i l]; [done|]. simpl.
  repeat case_match; eauto.
Qed.

Lemma realign_member_total tw ref_txt ref_cols txt :
  right_border_indices txt ≠ [] → ∃ r, realign_member tw ref_txt ref_cols txt = Ok r.
Proof.
  intros Hne. unfold realign_member. destruct (decide _); [eauto|].
  destruct (negb _); [eauto|].
  destruct (decide (len (border_cells txt) ≠ len (border_cells ref_txt))) as [|Hlen]; [eauto|].
  apply dec_stable in Hlen. pose proof (rebuilt_member_text txt ref_txt Hlen) as Htext.
  simpl in Htext. destruct (build_segments txt 0 _) as [segs e]. cbn [fst snd] in Htext.
  destruct (fit_to_width_total tw (place_segments 0 segs ++ slice_from txt e)) as [r ->];
    [|simpl; eauto].
  apply right_border_indices_nonempty. rewrite Htext.
  by apply right_border_indices_nonempty.
Qed.

Lemma fix_inner_members_total tw ref_txt ref_cols members : ∀ lines fixes,
  Forall (λ p, 1 ≤ p.1 ≤ len lines ∧ right_border_indices p.2 ≠ []) members →
  ∃ n, (fix_inner_members tw ref_txt ref_cols members lines fixes).2 = Ok n.
Proof.
  induction members as [|[ln txt] members IH]; intros lines fixes Hall; simpl; [eauto|].
  apply Forall_cons in Hall as [[Hln Hne] Hall]. simpl in Hln, Hne.
  destruct (realign_member_total tw ref_txt ref_cols txt Hne) as [[rebuilt|] ->];
    [|by apply IH].
  rewrite py_setitem_nonneg by lia. apply IH.
  unfold len. rewrite length_insert. exact Hall.
Qed.

Lemma fix_inner_groups_total tw groups : ∀ lines fixes,
  Forall (λ p, 1 ≤ p.1 ≤ len lines ∧ right_border_indices p.2 ≠ []) (concat groups) →
  ∃ n, (fix_inner_groups tw groups lines fixes).2 = Ok n.
Proof.
  induction groups as [|g groups IH]; intros lines fixes Hall; simpl; [eauto|].
  simpl in Hall. apply Forall_app in Hall as [Hg Hall].
  destruct (decide _); [by apply IH|].
  destruct g as [|[ref_ln ref_txt] members]; [by apply IH|].
  destruct ((get_border_positions ref_txt true).*1) as [|c0 cols] eqn:Ecols; [by apply IH|].
  apply Forall_cons in Hg as [_ Hg].
  pose proof (fix_inner_members_total tw ref_txt (c0 :: cols) members lines fixes Hg) as [k Hk].
  pose proof (fix_inner_members_length tw ref_txt (c0 :: cols) members lines fixes) as Hlen.
  destruct (fix_inner_members tw ref_txt (c0 :: cols) members lines fixes) as [lines' [nfix|e]];
    simpl in Hk, Hlen |- *; [|done].
  apply IH. by rewrite (len_eq_length lines' lines).
Qed.

Lemma fix_inner_alignment_total (lines : list str) (b : Box) :
  box_in_buffer lines b →
  Forall (λ p, right_border_indices p.2 ≠ []) (box_lines b) →
  ∃ n, (fix_inner_alignment lines b).2 = Ok n.
Proof.
  intros Hb Hrb. apply fix_inner_groups_total.
  pose proof (inner_groups_in_buffer lines b Hb) as Hin.
  rewrite Forall_forall in Hin, Hrb |- *. intros p Hp.
  destruct (Hin p Hp) as [H1 Hlk]. apply lookup_lt_Some in Hlk.
  split; [unfold len; lia|]. apply Hrb.
  eapply elem_of_sublist; [exact Hp|].
  etrans; [apply inner_groups_shape_sublist|apply slice_inner_sublist].
Qed.

(** X17: on a box whose lines are the lines of the buffer and hold each a
    right-border glyph, [fix_inner_alignment] returns its count: neither
    the [max()] over the right-border glyphs of a rebuilt line nor a store
    into the buffer raises. *)
Theorem inner_fix_returns_on_bordered_lines (lines : list str) (b : Box) :
  box_in_buffer lines b →
  Forall (λ p, right_border_indices p.2 ≠ []) (box_lines b) →
  ∃ n, (fix_inner_alignment lines b).2 = Ok n.
Proof. apply fix_inner_alignment_total. Qed.

Lemma inner_fix_returns_on_bordered_lines_witness :
  ∃ n, (fix_inner_alignment scenario_B box_B).2 = Ok n.
Proof.
  apply (inner_fix_returns_on_bordered_lines scenario_B box_B).
  - apply (bool_decide_unpack (box_in_buffer scenario_B box_B)). vm_compute. exact I.
  - apply (bool_decide_unpack
             (Forall (λ p : Z * str, right_border_indices p.2 ≠ []) (box_lines box_B))).
    vm_compute. exact I.
Defined.

Lemma existsb_mismatch_false (l : list (Z * Z)) :
  list_find (λ p : Z * Z, p.1 ≠ p.2) l = None →
  existsb (λ p : Z * Z, bool_decide (p.1 ≠ p.2)) l = false.
Proof.
  intros Hnone%list_find_None. induction Hnone as [|p l Hp _ IH]; simpl; [done|].
  by rewrite IH, bool_decide_false.
Qed.

Lemma check_member_None_realign tw ref_ln ref_txt ref_cols ln txt :
  check_member ref_ln ref_cols (ln, txt) = None →
  realign_member tw ref_txt ref_cols txt = Ok None.
Proof.
  unfold check_member, realign_member.
  destruct (decide (len (get_border_positions txt true).*1 = len ref_cols)) as [Heq|Hne].
  - intros Hnone. rewrite decide_False by (intros ?; done).
    destruct (list_find _ (zip ref_cols _)) as [[k [rc cc]]|] eqn:Ef; [done|].
    by rewrite (existsb_mismatch_false _ Ef).
  - intros _. by rewrite decide_True.
Qed.

Lemma fix_inner_members_clean tw ref_ln ref_txt ref_cols members lines fixes :
  omap (check_member ref_ln ref_cols) members = [] →
  fix_inner_members tw ref_txt ref_cols members lines fixes = (lines, Ok fixes).
Proof.
  induction members as [|[ln txt] members IH]; simpl; [done|].
  destruct (check_member ref_ln ref_cols (ln, txt)) eqn:Ec; [done|]. intros Hrest.
  by rewrite (check_member_None_realign tw _ ref_txt _ _ _ Ec), IH.
Qed.

Lemma fix_inner_groups_clean tw groups lines fixes :
  groups ≫= check_group = [] →
  fix_inner_groups tw groups lines fixes = (lines, Ok fixes).
Proof.
  induction groups as [|g groups IH]; simpl; [done|].
  change ((g :: groups) ≫= check_group) with (check_group g ++ (groups ≫= check_group)).
  intros [Hg Hrest]%app_eq_nil. unfold check_group in Hg.
  destruct (decide _); [by apply IH|].
  destruct g as [|[ref_ln ref_txt] members]; [by apply IH|].
  destruct ((get_border_positions ref_txt true).*1) as [|c0 cols] eqn:Ecols; [by apply IH|].
  rewrite (fix_inner_members_clean tw ref_ln ref_txt _ _ _ _ Hg). by apply IH.
Qed.

(** X18: a box in which [check_inner_alignment] finds no error is left
    alone by [fix_inner_alignment], whatever the buffer: no line is stored,
    the count is 0 and nothing is raised. *)
Theorem inner_fix_leaves_clean_box (lines : list str) (b : Box) :
  check_inner_alignment b = [] → fix_inner_alignment lines b = (lines, Ok 0).
Proof. apply fix_inner_groups_clean. Qed.

Lemma inner_fix_leaves_clean_box_witness :
  fix_inner_alignment indented indented_box = (indented, Ok 0).
Proof.
  apply (inner_fix_leaves_clean_box indented indented_box). vm_compute. reflexivity.
Defined.

(** ** Floating glyphs: nothing to report, nothing to fix *)

Lemma check_floating_step_nil lines skip errors i :
  check_floating_step lines skip errors i = Ok [] ↔ errors = [] ∧ clean_row lines skip i.
Proof.
  unfold check_floating_step, clean_row.
  destruct (decide (i ∈ skip)) as [Hin|Hnot].
  { split; [intros [= ->]; eauto|by intros [-> _]]. }
  destruct (py_getitem lines i) as [line|e]; simpl.
  2:{ split; [done|]. intros [_ [?|(? & ? & _)]]; done. }
  destruct (misplaced_glyphs lines i (enumerate line)) as [found|e] eqn:Em; simpl.
  2:{ split; [done|]. intros [_ [?|(? & [= <-] & ?)]]; congruence. }
  split.
  - intros [= Happ]. apply app_eq_nil in Happ as [-> Hf]. apply fmap_nil_inv in Hf as ->.
    split; [done|]. right. eauto.
  - intros [-> [?|(? & [= <-] & Hm)]]; [done|]. rewrite Em in Hm. by injection Hm as ->.
Qed.

Lemma check_floating_loop_nil lines skip rows : ∀ errors,
  for_each (check_floating_step lines skip) errors rows = Ok []
  ↔ errors = [] ∧ Forall (clean_row lines skip) rows.
Proof.
  induction rows as [|i rows IH]; intros errors; simpl.
  { split; [intros [= ->]; done|by intros [-> _]]. }
  rewrite Forall_cons. split.
  - destruct (check_floating_step lines skip errors i) as [st|e] eqn:Es; simpl; [|done].
    intros [-> Hrows]%IH. apply check_floating_step_nil in Es as [-> Hi]. done.
  - intros (-> & Hi & Hrows).
    rewrite (proj2 (check_floating_step_nil lines skip [] i)) by done. simpl.
    by apply IH.
Qed.

Lemma fix_floating_step_cases lines fixes skip i :
  (clean_row lines skip i ∧ fix_floating_step (lines, fixes) skip i = (lines, Ok fixes))
  ∨ (¬ clean_row lines skip i
     ∧ ∃ lines' r, fix_floating_step (lines, fixes) skip i = (lines', r)
                   ∧ (r = Ok (fixes + 1) ∨ ∃ e, r = Raise e)).
Proof.
  unfold fix_floating_step, clean_row.
  destruct (decide (i ∈ skip)) as [Hin|Hnot]; [left; eauto|].
  destruct (py_getitem lines i) as [line|e].
  2:{ right. split; [intros [?|(? & ? & _)]; done|]. eauto 6. }
  destruct (misplaced_glyphs lines i (enumerate line)) as [[|m ms]|e] eqn:Em.
  - left. split; [right; eauto|done].
  - right. split; [intros [?|(? & [= <-] & ?)]; congruence|].
    destruct (floating_targets lines i _) as [targets|]; [|eauto 6].
    destruct (build_segments line 0 _) as [segs e].
    destruct (py_setitem lines i _); eauto 6.
  - right. split; [intros [?|(? & [= <-] & ?)]; congruence|]. eauto 6.
Qed.

Lemma fix_floating_loop_mono skip rows : ∀ lines fixes lines' n,
  fix_floating_loop skip rows lines fixes = (lines', Ok n) → fixes ≤ n.
Proof.
  induction rows as [|i rows IH]; intros lines fixes lines' n; simpl.
  { intros [= _ <-]. lia. }
  destruct (fix_floating_step_cases lines fixes skip i)
    as [[_ ->]|(_ & l1 & r & -> & [->|[e ->]])]; [apply IH| |done].
  intros H%IH. lia.
Qed.

Lemma fix_floating_loop_clean skip rows : ∀ lines fixes,
  fix_floating_loop skip rows lines fixes = (lines, Ok fixes)
  ↔ Forall (clean_row lines skip) rows.
Proof.
  induction rows as [|i rows IH]; intros lines fixes; simpl.
  { split; [constructor|done]. }
  rewrite Forall_cons.
  destruct (fix_floating_step_cases lines fixes skip i)
    as [[Hc ->]|(Hc & l1 & r & -> & [->|[e ->]])].
  - rewrite IH. tauto.
  - split; [|tauto]. intros H. exfalso.
    apply fix_floating_loop_mono in H. lia.
  - split; [done|tauto].
Qed.

(** X19: [check_floating_verticals] returns no error exactly when
    [fix_floating_verticals] on the same arguments stores no line, counts 0
    and raises nothing: a range without reported glyph is left alone, and
    every glyph the fixer has to move is reported by the check. *)
Theorem floating_fix_idle_iff_no_error (lines : list str) (boxes : list Box)
    (start_line end_line : Z) :
  check_floating_verticals lines boxes start_line end_line = Ok []
  ↔ fix_floating_verticals lines boxes start_line end_line = (lines, Ok 0).
Proof.
  unfold check_floating_verticals, fix_floating_verticals.
  rewrite check_floating_loop_nil, fix_floating_loop_clean. tauto.
Qed.

(** ** Where the rebuilt glyphs land *)

Lemma placed_content_length (needed : Z) (content : str) :
  len (rstrip content) ≤ needed →
  len (if decide (needed > len content) then content ++ spaces (needed - len content)
       else if decide (needed < len content) then
         rstrip content ++ spaces (Z.max 0 (needed - len (rstrip content)))
       else content)
  = needed.
Proof.
  intros Hfit. repeat case_match; rewrite ?len_app, ?len_spaces; lia.
Qed.

Lemma place_segments_lands_at segs : ∀ pos,
  segments_fit pos segs = true →
  ∀ tgt ch content, (tgt, ch, content) ∈ segs →
    pos ≤ tgt ∧ place_segments pos segs !! Z.to_nat (tgt - pos) = Some ch.
Proof.
  induction segs as [|[[t c] body] segs IH]; intros pos Hfit tgt ch content Hin.
  { by apply elem_of_nil in Hin. }
  simpl in Hfit. apply andb_prop in Hfit as [Hhere%bool_decide_eq_true Hrest].
  pose proof (len_nonneg (rstrip body)) as Hnn.
  pose proof (placed_content_length (t - pos) body Hhere) as Hlen.
  cbn [place_segments].
  set (placed := if decide (t - pos > len body) then _ else _) in *.
  assert (Hl : length placed = Z.to_nat (t - pos)) by (unfold len in Hlen; lia).
  apply elem_of_cons in Hin as [[= -> -> ->]|Hin].
  - split; [lia|]. rewrite lookup_app_r by lia. rewrite Hl, Nat.sub_diag. done.
  - destruct (IH (t + 1) Hrest tgt ch content Hin) as [Hle Hlk].
    split; [lia|]. rewrite lookup_app_r by lia. rewrite Hl.
    replace (Z.to_nat (tgt - pos) - Z.to_nat (t - pos))%nat
      with (S (Z.to_nat (tgt - (t + 1)))) by lia.
    exact Hlk.
Qed.

(** X20: the loop that rebuilds a line puts every glyph on its target
    column when each segment, right-trimmed, ends at or before that column:
    in the text rebuilt from column [pos], the character at a segment's
    target column is the segment's glyph. *)
Theorem place_segments_lands (pos : Z) (segments : list (Z * char * str)) :
  segments_fit pos segments = true →
  ∀ tgt ch content, (tgt, ch, content) ∈ segments →
    place_segments pos segments !! Z.to_nat (tgt - pos) = Some ch.
Proof.
  intros Hfit tgt ch content Hin.
  by destruct (place_segments_lands_at segments pos Hfit tgt ch content Hin).
Qed.

Lemma place_segments_lands_witness :
  place_segments 0 [(0, 9474%N, []); (2, 9474%N, u8 "  "); (7, 9474%N, u8 " x  ")]
    !! Z.to_nat (7 - 0) = Some 9474%N.
Proof.
  refine (place_segments_lands 0
            [(0, 9474%N, []); (2, 9474%N, u8 "  "); (7, 9474%N, u8 " x  ")] _
            7 9474%N (u8 " x  ") _).
  - vm_compute. reflexivity.
  - do 2 right. left.
Defined.

(** X21: a line that [fix_inner_alignment] adjusts to the box width is
    never shorter than that width and never longer than before the
    adjustment, or than the width; a line that was not too long gets
    exactly the width. *)
Theorem fit_to_width_length (target_width : Z) (rebuilt fitted : str) :
  fit_to_width target_width rebuilt = Ok fitted →
  target_width ≤ len fitted ≤ Z.max target_width (len rebuilt)
  ∧ (len rebuilt ≤ target_width → len fitted = target_width).
Proof.
  unfold fit_to_width. destruct (decide (len rebuilt < target_width)).
  - destruct (py_max (right_border_indices rebuilt)) as [idx|]; simpl; [|done].
    intros [= <-]. rewrite !len_app, len_spaces.
    assert (len (slice_to rebuilt idx) + len (slice_from rebuilt idx) = len rebuilt) as Hsum.
    { rewrite <- len_app. unfold slice_to, slice_from. by rewrite take_drop. }
    lia.
  - destruct (decide (len rebuilt > target_width)); [|intros [= <-]; lia].
    destruct (py_max (right_border_indices rebuilt)) as [idx|]; simpl; [|done].
    intros [= <-]. rewrite !len_app, len_spaces.
    assert (len (slice_to rebuilt idx) + len (slice_from rebuilt idx) = len rebuilt) as Hsum.
    { rewrite <- len_app. unfold slice_to, slice_from. by rewrite take_drop. }
    pose proof (len_rstrip_le (slice_to rebuilt idx)).
    pose proof (len_nonneg (rstrip (slice_to rebuilt idx))).
    lia.
Qed.

Lemma fit_to_width_length_witness :
  14 ≤ len (u8 "│ │ x  │     │") ≤ Z.max 14 (len (u8 "│ │ x  │      │"))
  ∧ (len (u8 "│ │ x  │      │") ≤ 14 → len (u8 "│ │ x  │     │") = 14).
Proof.
  apply (fit_to_width_length 14 (u8 "│ │ x  │      │") (u8 "│ │ x  │     │")).
  vm_compute. reflexivity.
Defined.

(** ** The fix pass *)

Lemma fix_width_line_kept tw txt new :
  fix_width_line tw txt = Some new → kept_text txt new.
Proof.
  intros (r & _ & Hr & Hns)%fix_width_line_text_holds. unfold kept_text.
  destruct (decide _); [left; by rewrite Hns, app_nil_r|right; eauto].
Qed.

Lemma same_text_lookup (l k : list str) (i : nat) x y :
  non_space <$> l = non_space <$> k → l !! i = Some x → k !! i = Some y →
  non_space x = non_space y.
Proof.
  intros Heq Hx Hy. apply (f_equal (.!! i)) in Heq.
  rewrite !list_lookup_fmap, Hx, Hy in Heq. by injection Heq.
Qed.

Lemma in_buffer_range (cur : list str) b ln :
  box_in_buffer cur b → ln ∈ box_numbers b → 1 ≤ ln ≤ len cur.
Proof.
  unfold box_in_buffer, box_numbers. rewrite Forall_forall.
  intros Hall ([ln' txt] & -> & Hin)%list_elem_of_fmap.
  destruct (Hall _ Hin) as [H1 Hlk]. simpl in *. apply lookup_lt_Some in Hlk.
  unfold len. lia.
Qed.

Lemma in_buffer_index (cur : list str) b ln (j : nat) :
  box_in_buffer cur b → ln ∈ box_numbers b → Z.to_nat (ln - 1) ≠ j →
  py_index (len cur) (ln - 1) ≠ Some j.
Proof.
  intros Hb Hin Hne. pose proof (in_buffer_range cur b ln Hb Hin).
  rewrite py_index_nonneg by lia. by intros [= ?].
Qed.

Lemma off_box_position (cur : list str) b (i : nat) :
  box_in_buffer cur b → Z.of_nat i + 1 ∉ box_numbers b →
  ∀ ln, ln ∈ box_numbers b → Z.to_nat (ln - 1) ≠ i.
Proof.
  intros Hb Hnot ln Hin Heq. pose proof (in_buffer_range cur b ln Hb Hin).
  apply Hnot. by replace (Z.of_nat i + 1) with ln by lia.
Qed.

Lemma fix_box_keeps (cur : list str) (b : Box) :
  box_in_buffer cur b → NoDup (box_numbers b) →
  Forall2 kept_text cur (fix_box cur b).1
  ∧ ∀ j : nat, (∀ ln, ln ∈ box_numbers b → Z.to_nat (ln - 1) ≠ j) →
      (fix_box cur b).1 !! j = cur !! j.
Proof.
  intros Hb Hnd.
  pose proof (fix_inner_groups_length (box_width b) (find_inner_box_groups b) cur 0) as Hlen1.
  pose proof (fix_inner_groups_text (box_width b) cur (find_inner_box_groups b) cur 0
                (inner_groups_in_buffer cur b Hb) eq_refl) as Htext1.
  assert (Hfr1 : ∀ j : nat, (∀ ln, ln ∈ box_numbers b → Z.to_nat (ln - 1) ≠ j) →
            (fix_inner_alignment cur b).1 !! j = cur !! j).
  { intros j Hj. apply fix_inner_groups_frame. intros ln Hin.
    assert (ln ∈ box_numbers b) as Hin'.
    { eapply elem_of_sublist; [exact Hin|]. apply fmap_sublist, find_inner_box_groups_sublist. }
    apply (in_buffer_index cur b); auto. }
  unfold fix_box. fold (fix_inner_alignment cur b) in Hlen1, Htext1.
  destruct (fix_inner_alignment cur b) as [l1 [n1|e]]; simpl in Hlen1, Htext1, Hfr1.
  2:{ simpl. split; [|exact Hfr1].
      apply Forall2_same_length_lookup. split; [done|]. intros i x y Hx Hy. left.
      by apply (same_text_lookup l1 cur i). }
  assert (Hrange : ∀ ln, ln ∈ box_numbers b → 1 ≤ ln ≤ len l1).
  { intros ln Hin. rewrite (len_eq_length l1 cur) by done. by apply (in_buffer_range cur b). }
  unfold reread_box.
  rewrite (reread_lines_ok l1 (λ ln, line_at l1 (ln - 1)) (box_lines b) []).
  2:{ intros ln Hin. apply py_getitem_line_at. specialize (Hrange ln Hin). lia. }
  simpl. unfold fix_outer_width. simpl.
  set (bl := (λ p : Z * str, (p.1, line_at l1 (p.1 - 1))) <$> box_lines b).
  assert (Hbl : bl.*1 = box_numbers b).
  { unfold bl, box_numbers. rewrite <- list_fmap_compose. by apply list_fmap_ext. }
  destruct (fix_outer_width_loop_ok (box_width b) bl l1 0) as (n & Hn & Hl).
  { by rewrite Hbl. } { by rewrite Hbl. }
  pose proof (fix_outer_width_loop_length (box_width b) bl l1 0) as Hlen2.
  assert (Hfr2 : ∀ j : nat, (∀ ln, ln ∈ box_numbers b → Z.to_nat (ln - 1) ≠ j) →
            (fix_outer_width_loop (box_width b) bl l1 0).1 !! j = l1 !! j).
  { intros j Hj. apply fix_outer_width_loop_frame. rewrite Hbl. intros ln Hin.
    specialize (Hrange ln Hin). rewrite py_index_nonneg by lia. intros [= ?].
    by apply (Hj ln). }
  destruct (fix_outer_width_loop (box_width b) bl l1 0) as [l2 [n2|e]];
    simpl in Hn, Hl, Hlen2, Hfr2 |- *; [|done].
  split.
  - apply Forall2_same_length_lookup. split; [congruence|]. intros i x y Hx Hy.
    destruct (decide (Z.of_nat i + 1 ∈ box_numbers b)) as [Hin|Hnot].
    + destruct (lookup_lt_is_Some_2 l1 i) as [mid Hmid].
      { rewrite Hlen1. by eapply lookup_lt_Some. }
      pose proof (same_text_lookup l1 cur i mid x Htext1 Hmid Hx) as Hsame.
      assert (Hline : line_at l1 (Z.of_nat i + 1 - 1) = mid).
      { unfold line_at. replace (Z.to_nat (Z.of_nat i + 1 - 1)) with i by lia.
        by rewrite Hmid. }
      assert (Hmem : (Z.of_nat i + 1, mid) ∈ bl).
      { unfold box_numbers in Hin. apply list_elem_of_fmap in Hin as ([ln txt] & Heq & Hin).
        simpl in Heq. subst ln. apply list_elem_of_fmap. exists (Z.of_nat i + 1, txt).
        split; [|done]. simpl. by rewrite Hline. }
      specialize (Hl _ _ Hmem).
      replace (Z.to_nat (Z.of_nat i + 1 - 1)) with i in Hl by lia.
      rewrite Hy in Hl.
      destruct (fix_width_line (box_width b) mid) as [new|] eqn:Efix.
      * injection Hl as ->. apply fix_width_line_kept in Efix.
        unfold kept_text in *. by rewrite <- Hsame.
      * rewrite Hmid in Hl. injection Hl as ->. by left.
    + pose proof (off_box_position cur b i Hb Hnot) as Hoff.
      rewrite Hfr2, Hfr1, Hx in Hy by done. injection Hy as ->. by left.
  - intros j Hj. by rewrite Hfr2, Hfr1.
Qed.

Lemma fix_boxes_buffer b rest cur total :
  (fix_boxes (b :: rest) cur total).1
  = match (fix_box cur b).2 with
    | Ok (n, _) => (fix_boxes rest (fix_box cur b).1 (total + n)).1
    | Raise _ => (fix_box cur b).1
    end.
Proof.
  simpl. destruct (fix_box cur b) as [l2 [[n b']|e]]; simpl; [|done].
  by destruct (fix_boxes rest l2 (total + n)) as [l3 [[t r]|e]].
Qed.

Lemma rest_in_buffer (cur l2 : list str) b rest :
  box_in_buffer cur b → Forall (box_in_buffer cur) rest →
  (∀ ln, ln ∈ box_numbers b → ln ∉ rest ≫= box_numbers) →
  (∀ j : nat, (∀ ln, ln ∈ box_numbers b → Z.to_nat (ln - 1) ≠ j) → l2 !! j = cur !! j) →
  Forall (box_in_buffer l2) rest.
Proof.
  intros Hb Hrest Hdisj Hframe.
  rewrite Forall_forall in Hrest |- *. intros b2 Hb2. specialize (Hrest b2 Hb2).
  unfold box_in_buffer in *. rewrite Forall_forall in Hrest |- *.
  intros [ln txt] Hin. destruct (Hrest _ Hin) as [H1 Hlk]. simpl in *.
  split; [done|]. rewrite Hframe; [done|]. intros ln' Hin' Heq.
  pose proof (in_buffer_range cur b ln' Hb Hin').
  assert (ln' = ln) as -> by lia.
  apply (Hdisj ln Hin'). apply list_elem_of_bind. exists b2. split; [|done].
  apply list_elem_of_fmap. by exists (ln, txt).
Qed.

Lemma fix_boxes_keeps boxes : ∀ (cur : list str) total,
  Forall (box_in_buffer cur) boxes → NoDup (boxes ≫= box_numbers) →
  Forall2 kept_text cur (fix_boxes boxes cur total).1
  ∧ ∀ j : nat, (∀ b ln, b ∈ boxes → ln ∈ box_numbers b → Z.to_nat (ln - 1) ≠ j) →
      (fix_boxes boxes cur total).1 !! j = cur !! j.
Proof.
  induction boxes as [|b rest IH]; intros cur total Hall Hnd.
  { simpl. split; [|done]. apply Forall2_same_length_lookup. split; [done|].
    intros i x y Hx Hy. left. congruence. }
  apply Forall_cons in Hall as [Hb Hrest].
  rewrite bind_cons in Hnd. apply NoDup_app in Hnd as (Hndb & Hdisj & Hndr).
  destruct (fix_box_keeps cur b Hb Hndb) as [Hkept Hframe].
  rewrite fix_boxes_buffer.
  destruct (fix_box cur b) as [l2 [[n b']|e]]; simpl in Hkept, Hframe |- *.
  2:{ split; [done|]. intros j Hj. apply Hframe. intros ln Hin. apply (Hj b); [by left|done]. }
  assert (Hlen : length l2 = length cur) by (symmetry; by eapply Forall2_length).
  pose proof (rest_in_buffer cur l2 b rest Hb Hrest Hdisj Hframe) as Hrest2.
  destruct (IH l2 (total + n) Hrest2 Hndr) as [Hkept2 Hframe2].
  split.
  - apply Forall2_same_length_lookup. split.
    { rewrite <- Hlen. by eapply Forall2_length. }
    intros i x z Hx Hz.
    destruct (lookup_lt_is_Some_2 l2 i) as [y Hy].
    { rewrite Hlen. by eapply lookup_lt_Some. }
    destruct (decide (Z.of_nat i + 1 ∈ box_numbers b)) as [Hin|Hnot].
    + rewrite Hframe2, Hy in Hz.
      * injection Hz as <-. exact (Forall2_lookup_lr _ _ _ _ _ _ Hkept Hx Hy).
      * intros b2 ln Hb2 Hin2 Heq.
        rewrite Forall_forall in Hrest2.
        pose proof (in_buffer_range l2 b2 ln (Hrest2 b2 Hb2) Hin2).
        assert (ln = Z.of_nat i + 1) as -> by lia.
        apply (Hdisj _ Hin). apply list_elem_of_bind. by exists b2.
    + pose proof (Forall2_lookup_lr _ _ _ _ _ _ Hkept2 Hy Hz) as Hk.
      rewrite Hframe, Hx in Hy by (by apply (off_box_position cur b)).
      by injection Hy as <-.
  - intros j Hj. rewrite Hframe2.
    + apply Hframe. intros ln Hin. apply (Hj b); [by left|done].
    + intros b2 ln Hb2 Hin. apply (Hj b2); [by right|done].
Qed.

Lemma fix_pass_keeps (lines : list str) boxes start_line end_line :
  Forall (box_in_buffer lines) boxes → NoDup (boxes ≫= box_numbers) →
  Forall2 kept_text lines (fix_pass lines boxes start_line end_line).1.
Proof.
  intros Hall Hnd. destruct (fix_boxes_keeps boxes lines 0 Hall Hnd) as [Hkept _].
  unfold fix_pass. destruct (fix_boxes boxes lines 0) as [l1 [[t bs]|e]]; simpl in *; [|done].
  pose proof (fix_floating_loop_text (in_box_indices bs)
                (py_range (start_line - 1) (Z.min end_line (len l1))) l1 0) as Htext.
  pose proof (fix_floating_loop_length (in_box_indices bs)
                (py_range (start_line - 1) (Z.min end_line (len l1))) l1 0) as Hlen.
  fold (fix_floating_verticals l1 bs start_line end_line) in Htext, Hlen.
  destruct (fix_floating_verticals l1 bs start_line end_line) as [l2 r]; simpl in *.
  assert (Hl2 : Forall2 kept_text lines l2).
  { apply Forall2_same_length_lookup. split.
    { rewrite Hlen. by eapply Forall2_length. }
    intros i x z Hx Hz.
    destruct (lookup_lt_is_Some_2 l1 i) as [y Hy].
    { rewrite <- Hlen. by eapply lookup_lt_Some. }
    pose proof (Forall2_lookup_lr _ _ _ _ _ _ Hkept Hx Hy) as Hk.
    pose proof (same_text_lookup l2 l1 i z y Htext Hz Hy) as Hsame.
    unfold kept_text in *. by rewrite Hsame. }
  by destruct r.
Qed.

Lemma boxes_chain_apart lines a boxes m :
  boxes_chain lines a boxes m → 0 ≤ a →
  Forall (box_in_buffer lines) boxes ∧ NoDup (boxes ≫= box_numbers)
  ∧ ∀ ln, ln ∈ boxes ≫= box_numbers → a < ln ≤ m.
Proof.
  induction 1 as [|a bs m b lo hi Hch IH Hlo _ Hb]; intros Ha.
  { split_and!; [constructor|constructor|]. intros ln Hin. by apply elem_of_nil in Hin. }
  destruct (IH Ha) as (Hall & Hnd & Hrange).
  pose proof (boxes_chain_le _ _ _ _ Hch) as Ham.
  destruct Hb as (((Hlo0 & Hlohi) & Hhi & _ & _ & Hlines) & _).
  assert (Hnum : box_numbers b = seqZ (lo + 1) (hi - lo)).
  { unfold box_numbers. by rewrite Hlines, numbered_fst. }
  assert (Hbind : (bs ++ [b]) ≫= box_numbers = (bs ≫= box_numbers) ++ box_numbers b).
  { rewrite bind_app. f_equal. simpl. apply app_nil_r. }
  rewrite Hbind. split_and!.
  - apply Forall_app. split; [done|]. apply Forall_singleton.
    unfold box_in_buffer. rewrite Hlines, Forall_forall. intros [ln txt] Hin.
    apply elem_of_numbered in Hin as [Hln ->]. simpl. split; [lia|].
    apply line_at_lookup. lia.
  - apply NoDup_app. split_and!; [done| |rewrite Hnum; apply NoDup_seqZ].
    intros ln Hin1 Hin2. apply Hrange in Hin1. rewrite Hnum, elem_of_seqZ in Hin2. lia.
  - intros ln [Hin|Hin]%elem_of_app.
    + apply Hrange in Hin. lia.
    + rewrite Hnum, elem_of_seqZ in Hin. lia.
Qed.

Lemma scanned_boxes_apart lines start_line end_line boxes :
  1 ≤ start_line → find_boxes lines start_line end_line = Ok boxes →
  Forall (box_in_buffer lines) boxes ∧ NoDup (boxes ≫= box_numbers).
Proof.
  intros Hs Hfind.
  destruct (find_boxes_chain_holds lines start_line end_line Hs) as (boxes' & m & Hf & Hch & _).
  rewrite Hfind in Hf. injection Hf as <-.
  destruct (boxes_chain_apart _ _ _ _ Hch) as (? & ? & _); [lia|done].
Qed.

(** X22: the fix pass of [main] on the boxes that [find_boxes] returns for
    a 1-based range keeps the text of the buffer: also when a fixer raises,
    the buffer has as many lines as before, and every line has the
    characters other than whitespace that it had before, in the same
    order, followed by at most one more character, a right-border glyph. *)
Theorem fix_pass_keeps_text (lines : list str) (start_line end_line : Z) (boxes : list Box) :
  1 ≤ start_line →
  find_boxes lines start_line end_line = Ok boxes →
  Forall2 kept_text lines (fix_pass lines boxes start_line end_line).1.
Proof.
  intros Hs Hfind.
  destruct (scanned_boxes_apart lines start_line end_line boxes Hs Hfind) as [Hall Hnd].
  by apply fix_pass_keeps.
Qed.

Lemma fix_pass_keeps_text_witness :
  Forall2 kept_text scenario_B (fix_pass scenario_B [box_B] 1 5).1.
Proof.
  apply (fix_pass_keeps_text scenario_B 1 5 [box_B]).
  - lia.
  - vm_compute. reflexivity.
Defined.

Lemma fix_box_total (cur : list str) (b : Box) :
  box_in_buffer cur b → NoDup (box_numbers b) →
  Forall (λ p, right_border_indices p.2 ≠ []) (box_lines b) →
  ∃ n b', (fix_box cur b).2 = Ok (n, b').
Proof.
  intros Hb Hnd Hrb.
  destruct (fix_inner_alignment_total cur b Hb Hrb) as [n1 Hn1].
  pose proof (fix_inner_groups_length (box_width b) (find_inner_box_groups b) cur 0) as Hlen1.
  unfold fix_box. fold (fix_inner_alignment cur b) in Hlen1.
  destruct (fix_inner_alignment cur b) as [l1 r]. simpl in Hn1, Hlen1. subst r.
  assert (Hrange : ∀ ln, ln ∈ box_numbers b → 1 ≤ ln ≤ len l1).
  { intros ln Hin. rewrite (len_eq_length l1 cur) by done. by apply (in_buffer_range cur b). }
  unfold reread_box.
  rewrite (reread_lines_ok l1 (λ ln, line_at l1 (ln - 1)) (box_lines b) []).
  2:{ intros ln Hin. apply py_getitem_line_at. specialize (Hrange ln Hin). lia. }
  simpl. unfold fix_outer_width. simpl.
  set (bl := (λ p : Z * str, (p.1, line_at l1 (p.1 - 1))) <$> box_lines b).
  assert (Hbl : bl.*1 = box_numbers b).
  { unfold bl, box_numbers. rewrite <- list_fmap_compose. by apply list_fmap_ext. }
  destruct (fix_outer_width_loop_ok (box_width b) bl l1 0) as (n & Hn & _).
  { by rewrite Hbl. } { by rewrite Hbl. }
  destruct (fix_outer_width_loop (box_width b) bl l1 0) as [l2 r]. simpl in Hn. subst r.
  simpl. eauto.
Qed.

Lemma fix_boxes_total boxes : ∀ (cur : list str) total,
  Forall (box_in_buffer cur) boxes → NoDup (boxes ≫= box_numbers) →
  Forall (λ b, Forall (λ p, right_border_indices p.2 ≠ []) (box_lines b)) boxes →
  ∃ t bs, (fix_boxes boxes cur total).2 = Ok (t, bs).
Proof.
  induction boxes as [|b rest IH]; intros cur total Hall Hnd Hrb; simpl; [eauto|].
  apply Forall_cons in Hall as [Hb Hrest]. apply Forall_cons in Hrb as [Hrbb Hrbr].
  rewrite bind_cons in Hnd. apply NoDup_app in Hnd as (Hndb & Hdisj & Hndr).
  destruct (fix_box_keeps cur b Hb Hndb) as [_ Hframe].
  destruct (fix_box_total cur b Hb Hndb Hrbb) as (n & b' & Hn).
  destruct (fix_box cur b) as [l2 r]. simpl in Hn, Hframe. subst r.
  pose proof (rest_in_buffer cur l2 b rest Hb Hrest Hdisj Hframe) as Hrest2.
  destruct (IH l2 (total + n) Hrest2 Hndr Hrbr) as (t & bs & Ht).
  destruct (fix_boxes rest l2 (total + n)) as [l3 r]. simpl in Ht. subst r. simpl. eauto.
Qed.

(** X23: the fix pass of [main] completes on the boxes that [find_boxes]
    returns for a 1-based range when every line of every box holds a
    right-border glyph: no fixer raises, and the pass returns its count. *)
Theorem fix_pass_returns_on_bordered_lines (lines : list str) (start_line end_line : Z)
    (boxes : list Box) :
  1 ≤ start_line →
  find_boxes lines start_line end_line = Ok boxes →
  Forall (λ b, Forall (λ p, right_border_indices p.2 ≠ []) (box_lines b)) boxes →
  ∃ n, (fix_pass lines boxes start_line end_line).2 = Ok n.
Proof.
  intros Hs Hfind Hrb.
  destruct (scanned_boxes_apart lines start_line end_line boxes Hs Hfind) as [Hall Hnd].
  destruct (fix_boxes_total boxes lines 0 Hall Hnd Hrb) as (t & bs & Ht).
  unfold fix_pass. destruct (fix_boxes boxes lines 0) as [l1 r]. simpl in Ht. subst r.
  destruct (fix_floating_loop_total (in_box_indices bs)
              (py_range (start_line - 1) (Z.min end_line (len l1))) l1 0) as [n Hn].
  { intros i Hi%elem_of_py_range. lia. }
  fold (fix_floating_verticals l1 bs start_line end_line) in Hn.
  destruct (fix_floating_verticals l1 bs start_line end_line) as [l2 r]. simpl in Hn. subst r.
  simpl. eauto.
Qed.

Lemma fix_pass_returns_on_bordered_lines_witness :
  ∃ n, (fix_pass scenario_B [box_B] 1 5).2 = Ok n.
Proof.
  apply (fix_pass_returns_on_bordered_lines scenario_B 1 5 [box_B]).
  - lia.
  - vm_compute. reflexivity.
  - apply (bool_decide_unpack
             (Forall (λ b, Forall (λ p : Z * str, right_border_indices p.2 ≠ []) (box_lines b))
                [box_B])).
    vm_compute. exact I.
Defined.

(** * The fixers and the order of the lines *)





